(** * FoldFlow: network building blocks of [foldflow/models/components/layers.py]

    A shallow embedding of the layers module and the properties its
    description states about it.

    Conventions of the embedding.
    - Tensor elements are real numbers: arithmetic is exact, there is no
      rounding, no overflow and no special value.  A tensor is its shape
      together with its elements in row-major order, as a contiguous torch
      tensor stores them.  A [tensor] so stands for a torch tensor of
      finite values.
    - Where the special values of floating point are what a property is
      about (the fill value under the attention mask and the softmax after
      it), the elements are of type [fval]: a finite number, an infinity
      or NaN.
    - Dimensions are natural numbers.
    - A Python exception is a value of [exception]; code that can raise
      returns a [result].
    - Code that draws random numbers runs in the monad [M], which threads a
      cursor into the stream [noise] of the numbers drawn and carries the
      exception.  What the numeric libraries compute from those numbers
      (the orthogonal factor, the truncated normal quantile) is a variable
      of the section. *)

From Stdlib Require Import String Ascii.
From Stdlib Require Import Reals List Arith ZArith Lia Lra Bool.
Import ListNotations.

Set Implicit Arguments.

(** ** Python exceptions and results *)

Inductive exception : Type :=
| NameError (name : string)
| NotImplementedError (msg : string)
| ValueError (msg : string)
| ZeroDivisionError
| IndexError
| RuntimeError (msg : string)
| EinopsError
| AssertionError (msg : string).

Inductive result (A : Type) : Type :=
| Ok (a : A)
| Raise (e : exception).

Arguments Ok {A} a.
Arguments Raise {A} e.

Definition rbind {A B} (r : result A) (k : A -> result B) : result B :=
  match r with
  | Ok a => k a
  | Raise e => Raise e
  end.

Definition is_ok {A} (r : result A) : bool :=
  match r with Ok _ => true | Raise _ => false end.

Definition raises {A} (r : result A) : Prop :=
  exists e, r = Raise e.

Declare Scope py_scope.
Delimit Scope py_scope with py.
Notation "x <- e ;; k" := (rbind e (fun x => k))
  (at level 61, e at next level, right associativity) : py_scope.

(** The monad of code that draws random numbers: the state is the cursor
    into the stream of numbers drawn so far. *)

Definition M (A : Type) : Type := nat -> result (A * nat).

Definition ret {A} (a : A) : M A := fun pos => Ok (a, pos).

Definition raise {A} (e : exception) : M A := fun _ => Raise e.

Definition bind {A B} (m : M A) (k : A -> M B) : M B :=
  fun pos =>
    match m pos with
    | Ok (a, pos') => k a pos'
    | Raise e => Raise e
    end.

Definition lift {A} (r : result A) : M A :=
  fun pos =>
    match r with
    | Ok a => Ok (a, pos)
    | Raise e => Raise e
    end.

Declare Scope m_scope.
Delimit Scope m_scope with m.
Notation "x <~ e ;; k" := (bind e (fun x => k))
  (at level 61, e at next level, right associativity) : m_scope.

(** ** Python strings: [str.lower] *)

Definition ascii_lower (c : ascii) : ascii :=
  let n := nat_of_ascii c in
  if (65 <=? n) && (n <=? 90) then ascii_of_nat (n + 32) else c.

(** [str.lower] on the bytes of the string.  The only characters whose
    lower case is one of the letters of ["swish"] and ["silu"] are the
    upper case ASCII letters, so the comparison made on the lowered string
    is the one the code makes. *)
Fixpoint lower (s : string) : string :=
  match s with
  | EmptyString => EmptyString
  | String c s' => String (ascii_lower c) (lower s')
  end.

(** ** Tensors *)

Open Scope R_scope.

Record tensor : Type := mkTensor {
  shape : list nat;
  data : list R
}.

(** [torch.Size.numel] and [_prod]: the product of the dimensions. *)
Definition numel (s : list nat) : nat := fold_right Nat.mul 1%nat s.

Fixpoint _prod (nums : list nat) : nat :=
  match nums with
  | [] => 1%nat
  | n :: rest => (n * _prod rest)%nat
  end.

Definition well_formed (t : tensor) : Prop :=
  length (data t) = numel (shape t).

Definition tab {A} (n : nat) (f : nat -> A) : list A := map f (seq 0 n).

Definition get (t : tensor) (p : nat) : R := nth p (data t) 0.

Definition Rsum (l : list R) : R := fold_right Rplus 0 l.

Definition rank (t : tensor) : nat := length (shape t).

(** The coordinates of the element at flat position [p], row-major. *)
Fixpoint unravel (s : list nat) (p : nat) : list nat :=
  match s with
  | [] => []
  | _ :: s' => (p / numel s')%nat :: unravel s' (p mod numel s')%nat
  end.

(** The flat position of the element at coordinates [c]. *)
Fixpoint ravel (s : list nat) (c : list nat) : nat :=
  match s, c with
  | _ :: s', i :: c' => (i * numel s' + ravel s' c')%nat
  | _, _ => 0%nat
  end.

(** [tensor.fill_(v)]: every element becomes [v]; the shape stays. *)
Definition fill_ (t : tensor) (v : R) : tensor :=
  mkTensor (shape t) (map (fun _ => v) (data t)).

(** Multiplication of every element by a scalar. *)
Definition scale_by (t : tensor) (c : R) : tensor :=
  mkTensor (shape t) (map (fun x => x * c) (data t)).

(** [tensor.reshape] to a shape with the same number of elements: a view of
    the same elements. *)
Definition reshape (t : tensor) (s : list nat) : result tensor :=
  if numel s =? numel (shape t) then Ok (mkTensor s (data t))
  else Raise (RuntimeError "shape is invalid for input size").

(** The stride of every axis of a contiguous tensor of shape [s]. *)
Definition strides (s : list nat) : list nat :=
  map (fun a => numel (skipn (S a) s)) (seq 0 (length s)).

(** The flat position, in the permuted tensor's source, of the element the
    permuted tensor has at coordinates [c]: axis [i] of the view walks the
    source with the stride of axis [perm i]. *)
Fixpoint view_offset (st perm c : list nat) : nat :=
  match perm, c with
  | a :: perm', i :: c' => (i * nth a st 0 + view_offset st perm' c')%nat
  | _, _ => 0%nat
  end.

Definition is_permutation (perm : list nat) (n : nat) : bool :=
  (length perm =? n) &&
  forallb (fun a => existsb (Nat.eqb a) perm) (seq 0 n).

(** [tensor.permute] with the axes [perm], read out in row-major order. *)
Definition permute (perm : list nat) (t : tensor) : result tensor :=
  if is_permutation perm (rank t) then
    let s' := map (fun a => nth a (shape t) 0%nat) perm in
    Ok (mkTensor s'
          (tab (numel s')
               (fun p => get t (view_offset (strides (shape t)) perm
                                            (unravel s' p)))))
  else Raise (RuntimeError "permute: dims do not match the tensor").

(** The identity permutation with axes [d0] and [d1] exchanged. *)
Definition swap_axes (n d0 d1 : nat) : list nat :=
  map (fun a => if a =? d0 then d1 else if a =? d1 then d0 else a) (seq 0 n).

(** [torch.transpose(t, d0, d1)]. *)
Definition transpose (t : tensor) (d0 d1 : nat) : result tensor :=
  if (d0 <? rank t) && (d1 <? rank t) then permute (swap_axes (rank t) d0 d1) t
  else Raise IndexError.

(** The size two operands give an axis they share, under broadcasting. *)
Definition bdim (d1 d2 : nat) : result nat :=
  if d1 =? d2 then Ok d1
  else if d1 =? 1 then Ok d2
  else if d2 =? 1 then Ok d1
  else Raise (RuntimeError "sizes do not broadcast").

(** The index an operand of size [d] on an axis uses for index [i] of the
    broadcast axis. *)
Definition bidx (d i : nat) : nat := if d =? 1 then 0%nat else i.

(** [torch.matmul] of two tensors of rank 3: a batch of matrix products, the
    batch axis broadcast.  The layers of this module call it on rank 3
    only; the other ranks are outside the model. *)
Definition matmul (x w : tensor) : result tensor :=
  match shape x, shape w with
  | [s1; e; r1], [s2; r2; i] =>
      if r1 =? r2 then
        (s <- bdim s1 s2 ;;
         Ok (mkTensor [s; e; i]
               (tab (s * e * i)
                    (fun p =>
                       let c := unravel [s; e; i] p in
                       let si := nth 0 c 0%nat in
                       let ei := nth 1 c 0%nat in
                       let ii := nth 2 c 0%nat in
                       Rsum (tab r1 (fun ri =>
                         get x (ravel [s1; e; r1] [bidx s1 si; ei; ri]) *
                         get w (ravel [s2; r2; i] [bidx s2 si; ri; ii])))))))%py
      else Raise (RuntimeError "mat1 and mat2 shapes cannot be multiplied")
  | _, _ => Raise (RuntimeError "matmul: rank outside the model")
  end.

(** [torch.nn.functional.linear(x, weight, bias)]: the affine map on the
    last axis, [weight] of shape [(out, in)].  The elements are finite
    numbers: an infinity or NaN in the input, whose product with a zero
    weight is NaN in floating point, is not represented. *)
Definition F_linear (x w : tensor) (b : option tensor) : result tensor :=
  match shape w, rev (shape x) with
  | [n_out; n_in], last_dim :: _ =>
      if last_dim =? n_in then
        let rows := numel (removelast (shape x)) in
        Ok (mkTensor (removelast (shape x) ++ [n_out])
              (tab (rows * n_out)
                   (fun p =>
                      let r := (p / n_out)%nat in
                      let o := (p mod n_out)%nat in
                      Rsum (tab n_in (fun i =>
                        get x (r * n_in + i) * get w (o * n_in + i)))
                      + match b with
                        | Some bt => get bt o
                        | None => 0
                        end)))
      else Raise (RuntimeError "mat1 and mat2 shapes cannot be multiplied")
  | _, _ => Raise (RuntimeError "linear: tensor of rank 0")
  end.

(** Addition of two tensors of one shape.  The module adds only tensors of
    equal shapes (a layer's input and its width-preserving image), so
    broadcasting is not modelled. *)
Definition tensor_add (a b : tensor) : result tensor :=
  if list_eq_dec Nat.eq_dec (shape a) (shape b) then
    Ok (mkTensor (shape a) (map (fun xy => fst xy + snd xy)
                              (combine (data a) (data b))))
  else Raise (RuntimeError "tensor sizes must match").

(** ** The numeric libraries

    What torch, numpy and scipy compute and this module only calls.  The
    stream [noise] is the sequence of raw random numbers drawn; the other
    fields turn them into the values the library routines return. *)

Record library : Type := {
  noise : nat -> R;
  (** [torch.nn.Linear.reset_parameters]: the value of a weight or bias
      element of a layer of the given fan-in, from one random number. *)
  linear_reset_sample : nat -> R -> R;
  (** The (semi-)orthogonal factor [torch.nn.init.orthogonal_] computes
      from a [rows x cols] matrix of normal draws, read at a flat index. *)
  qr_orthogonal : nat -> nat -> list R -> nat -> R;
  (** [scipy.stats.truncnorm.std(a, b, loc=0, scale=1)]. *)
  truncnorm_std : R -> R -> R;
  (** The standard truncated normal on [[a, b]] as a function of one
      random number: [truncnorm.rvs] is [loc + scale * ] this. *)
  truncnorm_standard : R -> R -> R -> R;
  (** [torch.nn.init.xavier_uniform_(w, gain=1)] and
      [torch.nn.init.kaiming_normal_(w, nonlinearity="linear")]. *)
  xavier_uniform_ : tensor -> M tensor;
  kaiming_normal_ : tensor -> M tensor;
  (** Whether dropout with probability [p] keeps an element, from one
      random number. *)
  dropout_keep : R -> R -> bool;
  (** [torch.finfo(dtype).max] of the dtype of the attention logits. *)
  finfo_max : R
}.

Section Layers.

Variable L : library.

Open Scope m_scope.

(** Drawing [n] random numbers advances the cursor by [n]. *)
Definition draw (n : nat) : M (list R) :=
  fun pos => Ok (map (noise L) (seq pos n), (pos + n)%nat).

(** [torch.empty(shape)]: the elements are whatever the memory holds,
    taken here from the stream as well. *)
Definition torch_empty (s : list nat) : M tensor :=
  v <~ draw (numel s) ;; ret (mkTensor s v).

(** ** Initialisers *)

(** [torch.nn.init.orthogonal_]: refuses a tensor of fewer than two axes,
    leaves a tensor without elements alone, and otherwise overwrites the
    elements with the orthogonal factor of fresh normal draws. *)
Definition orthogonal_ (t : tensor) : M tensor :=
  if rank t <? 2 then
    raise (ValueError "Only tensors with 2 or more dimensions are supported")
  else if numel (shape t) =? 0 then ret t
  else
    let rows := nth 0 (shape t) 0%nat in
    let cols := (numel (shape t) / rows)%nat in
    g <~ draw (rows * cols) ;;
    ret (mkTensor (shape t) (tab (numel (shape t)) (qr_orthogonal L rows cols g))).

(** The axes [_standardize] reduces over. *)
Definition standardize_axis (kernel : tensor) : list nat :=
  if length (shape kernel) =? 3 then [0%nat; 1%nat] else [1%nat].

(** Two coordinate lists lie in one slice of a reduction over [axes] when
    they agree on every other axis. *)
Definition same_slice (axes c1 c2 : list nat) : bool :=
  forallb (fun a => existsb (Nat.eqb a) axes
                    || (nth a c1 0%nat =? nth a c2 0%nat)%nat)
          (seq 0 (length c1)).

(** The flat positions reduced together with position [p]. *)
Definition slice_of (s axes : list nat) (p : nat) : list nat :=
  filter (fun q => same_slice axes (unravel s p) (unravel s q))
         (seq 0 (numel s)).

Definition mean_over (t : tensor) (idx : list nat) : R :=
  Rsum (map (get t) idx) / INR (length idx).

(** The unbiased variance: the divisor is the count less one.  On a slice
    of one element the divisor is 0 and torch gives NaN, which a real
    number cannot hold; the properties of the values below are stated for
    slices of at least two elements. *)
Definition var_over (t : tensor) (idx : list nat) : R :=
  Rsum (map (fun q => (get t q - mean_over t idx) ^ 2) idx)
  / (INR (length idx) - 1).

Definition _standardize (kernel : tensor) : result tensor :=
  let eps := 1 / 1000000 in
  let axis := standardize_axis kernel in
  if forallb (fun a => a <? rank kernel) axis then
    Ok (mkTensor (shape kernel)
          (tab (numel (shape kernel))
               (fun p =>
                  let g := slice_of (shape kernel) axis p in
                  (get kernel p - mean_over kernel g)
                  / sqrt (var_over kernel g + eps))))
  else Raise IndexError.

(** The fan-in [he_orthogonal_init] scales by. *)
Definition he_fan_in (s : list nat) : nat :=
  if length s =? 3 then numel (removelast s) else nth 1 s 0%nat.

(** [(1 / fan_in) ** 0.5] on a Python integer [fan_in]. *)
Definition inv_sqrt_fan (fan_in : nat) : result R :=
  if fan_in =? 0 then Raise ZeroDivisionError
  else Ok (sqrt (1 / INR fan_in)).

Definition he_orthogonal_init (t : tensor) : M tensor :=
  t1 <~ orthogonal_ t ;;
  let fan_in := he_fan_in (shape t1) in
  t2 <~ lift (_standardize t1) ;;
  c <~ lift (inv_sqrt_fan fan_in) ;;
  ret (scale_by t2 c).

Definition _calculate_fan (linear_weight_shape : list nat) (fan : string)
  : result R :=
  match linear_weight_shape with
  | [fan_out; fan_in] =>
      if String.eqb fan "fan_in" then Ok (INR fan_in)
      else if String.eqb fan "fan_out" then Ok (INR fan_out)
      else if String.eqb fan "fan_avg" then Ok ((INR fan_in + INR fan_out) / 2)
      else Raise (ValueError "Invalid fan option")
  | _ => Raise (ValueError "wrong number of values to unpack")
  end.

(** [math.sqrt]: a negative argument is a domain error. *)
Definition math_sqrt (x : R) : result R :=
  if Rlt_dec x 0 then Raise (ValueError "math domain error") else Ok (sqrt x).

(** [truncnorm.rvs(a, b, loc=0, scale=scale, size=size)]: a negative scale
    is refused, a zero scale gives the location, and otherwise every sample
    is the location plus the scale times a standard sample. *)
Definition truncnorm_rvs (a b scale : R) (size : nat) : M (list R) :=
  if Rlt_dec scale 0 then raise (ValueError "Domain error in arguments")
  else if Req_dec_T scale 0 then ret (repeat 0 size)
  else
    u <~ draw size ;;
    ret (map (fun x => 0 + scale * truncnorm_standard L a b x) u).

(** The standard deviation [trunc_normal_init_] asks the sampler for. *)
Definition trunc_normal_std (s : list nat) (scale : R) (fan : string)
  : result R :=
  (f <- _calculate_fan s fan ;;
   r <- math_sqrt (scale / Rmax 1 f) ;;
   Ok (r / truncnorm_std L (-2) 2))%py.

Definition trunc_normal_init_ (weights : tensor) (scale : R) (fan : string)
  : M tensor :=
  let s := shape weights in
  std <~ lift (trunc_normal_std s scale fan) ;;
  let a := -2 in
  let b := 2 in
  let size := _prod s in
  samples <~ truncnorm_rvs a b std size ;;
  ret (mkTensor s samples).

Definition lecun_normal_init_ (weights : tensor) : M tensor :=
  trunc_normal_init_ weights 1 "fan_in".

Definition he_normal_init_ (weights : tensor) : M tensor :=
  trunc_normal_init_ weights 2 "fan_in".

Definition glorot_uniform_init_ (weights : tensor) : M tensor :=
  xavier_uniform_ L weights.

Definition final_init_ (weights : tensor) : tensor := fill_ weights 0.

Definition gating_init_ (weights : tensor) : tensor := fill_ weights 0.

Definition normal_init_ (weights : tensor) : M tensor :=
  kaiming_normal_ L weights.

(** ** [torch.nn.Linear] *)

Record nn_Linear : Type := mk_nn_Linear {
  in_features : nat;
  out_features : nat;
  weight : tensor;
  bias : option tensor
}.

(** The constructor allocates the weight of shape [(out, in)] and, when
    asked, the bias of shape [(out)], and fills both at random. *)
Definition nn_Linear_init (n_in n_out : nat) (with_bias : bool) : M nn_Linear :=
  w <~ draw (n_out * n_in) ;;
  let wt := mkTensor [n_out; n_in] (map (linear_reset_sample L n_in) w) in
  if with_bias then
    b <~ draw n_out ;;
    ret (mk_nn_Linear n_in n_out wt
           (Some (mkTensor [n_out] (map (linear_reset_sample L n_in) b))))
  else ret (mk_nn_Linear n_in n_out wt None).

Definition nn_Linear_forward (l : nn_Linear) (x : tensor) : result tensor :=
  F_linear x (weight l) (bias l).

(** ** [Dense] and [ScaledSiLU] *)

(** An activation argument: [None], a string, or any other object. *)
Inductive activation_arg : Type :=
| ActNone
| ActStr (s : string)
| ActOther.

(** The activation module a constructed [Dense] holds. *)
Inductive activation_module : Type :=
| ScaledSiLU
| Identity.

Record Dense : Type := mkDense {
  linear : nn_Linear;
  _activation : activation_module
}.

(** [Dense.reset_parameters]. *)
Definition Dense_reset_parameters (l : nn_Linear) : M nn_Linear :=
  w <~ he_orthogonal_init (weight l) ;;
  ret (mk_nn_Linear (in_features l) (out_features l) w
         (match bias l with
          | Some b => Some (fill_ b 0)
          | None => None
          end)).

(** [isinstance(activation, str)] lowers the name; then the name is looked
    up in [["swish", "silu"]], then compared with [None]. *)
Definition select_activation (activation : activation_arg)
  : result activation_module :=
  let activation :=
    match activation with
    | ActStr s => ActStr (lower s)
    | other => other
    end in
  match activation with
  | ActStr s =>
      if String.eqb s "swish" || String.eqb s "silu" then Ok ScaledSiLU
      else Raise (NotImplementedError
                    "Activation function not implemented for GemNet (yet).")
  | ActNone => Ok Identity
  | ActOther => Raise (NotImplementedError
                    "Activation function not implemented for GemNet (yet).")
  end.

Definition Dense_init (in_f out_f : nat) (with_bias : bool)
  (activation : activation_arg) : M Dense :=
  l <~ nn_Linear_init in_f out_f with_bias ;;
  l <~ Dense_reset_parameters l ;;
  act <~ lift (select_activation activation) ;;
  ret (mkDense l act).

(** [torch.nn.SiLU]: [x * sigmoid(x)], over the reals: the sigmoid is
    never exactly 0 or 1 here, whereas a float sigmoid saturates. *)
Definition SiLU (x : R) : R := x * (1 / (1 + exp (- x))).

Definition ScaledSiLU_scale_factor : R := 1 / (6 / 10).

Definition ScaledSiLU_forward (x : tensor) : tensor :=
  mkTensor (shape x) (map (fun v => SiLU v * ScaledSiLU_scale_factor) (data x)).

Definition apply_activation (a : activation_module) (x : tensor) : tensor :=
  match a with
  | ScaledSiLU => ScaledSiLU_forward x
  | Identity => x
  end.

Definition Dense_forward (d : Dense) (x : tensor) : result tensor :=
  (x <- nn_Linear_forward (linear d) x ;;
   Ok (apply_activation (_activation d) x))%py.

(** ** [ResidualLayer]

    The module defines the class twice, with the same text; the second
    definition is the one bound to the name. *)

Record ResidualLayer : Type := mkResidualLayer {
  dense_mlp : list Dense;
  inv_sqrt_2 : R
}.

(** The list comprehension of the constructor: [nLayers] layers built one
    after the other. *)
Fixpoint Dense_stack (units nLayers : nat) (activation : activation_arg)
  : M (list Dense) :=
  match nLayers with
  | O => ret []
  | S n =>
      d <~ Dense_init units units false activation ;;
      rest <~ Dense_stack units n activation ;;
      ret (d :: rest)
  end.

Definition ResidualLayer_init (units nLayers : nat)
  (activation : activation_arg) : M ResidualLayer :=
  ds <~ Dense_stack units nLayers activation ;;
  ret (mkResidualLayer ds (1 / sqrt 2)).

(** [torch.nn.Sequential]: the modules applied in order. *)
Fixpoint Sequential_forward (ds : list Dense) (x : tensor) : result tensor :=
  match ds with
  | [] => Ok x
  | d :: rest => (y <- Dense_forward d x ;; Sequential_forward rest y)%py
  end.

Definition ResidualLayer_forward (r : ResidualLayer) (inputs : tensor)
  : result tensor :=
  (x <- Sequential_forward (dense_mlp r) inputs ;;
   x <- tensor_add inputs x ;;
   Ok (scale_by x (inv_sqrt_2 r)))%py.

(** ** [EfficientInteractionDownProjection] *)

Record EfficientInteractionDownProjection : Type := mkDownProjection {
  num_spherical : nat;
  num_radial : nat;
  emb_size_interm : nat;
  down_weight : tensor
}.

Definition DownProjection_init (n_sph n_rad n_emb : nat)
  : M EfficientInteractionDownProjection :=
  w <~ torch_empty [n_sph; n_rad; n_emb] ;;
  w <~ he_orthogonal_init w ;;
  ret (mkDownProjection n_sph n_rad n_emb w).

Definition DownProjection_forward (m : EfficientInteractionDownProjection)
  (tbf : tensor * tensor) : result (tensor * tensor) :=
  let (rbf_env, sph) := tbf in
  (rbf_W1 <- matmul rbf_env (down_weight m) ;;
   rbf_W1 <- permute [1; 2; 0]%nat rbf_W1 ;;
   sph <- transpose sph 1 2 ;;
   Ok (rbf_W1, sph))%py.

(** ** [Linear] *)

Record Linear : Type := mkLinear {
  lin : nn_Linear
}.

(** A custom initialiser mutates the weight and the bias it is given. *)
Definition init_fn_t : Type := tensor -> option tensor -> M (tensor * option tensor).

Definition Linear_init (in_dim out_dim : nat) (with_bias : bool)
  (init : string) (init_fn : option init_fn_t) : M Linear :=
  l <~ nn_Linear_init in_dim out_dim with_bias ;;
  let b := if with_bias then option_map (fun t => fill_ t 0) (bias l)
           else bias l in
  let w := weight l in
  wb <~
    match init_fn with
    | Some f => f w b
    | None =>
        if String.eqb init "default" then
          w <~ lecun_normal_init_ w ;; ret (w, b)
        else if String.eqb init "relu" then
          w <~ he_normal_init_ w ;; ret (w, b)
        else if String.eqb init "glorot" then
          w <~ glorot_uniform_init_ w ;; ret (w, b)
        else if String.eqb init "gating" then
          let w := gating_init_ w in
          ret (w, if with_bias then option_map (fun t => fill_ t 1) b else b)
        else if String.eqb init "normal" then
          w <~ normal_init_ w ;; ret (w, b)
        else if String.eqb init "final" then
          ret (final_init_ w, b)
        else raise (ValueError "Invalid init string.")
    end ;;
  ret (mkLinear (mk_nn_Linear in_dim out_dim (fst wb) (snd wb))).

(** ** [torch.nn.Dropout] *)

Definition nn_Dropout_init (p : R) : result R :=
  if Rlt_dec p 0 then
    Raise (ValueError "dropout probability has to be between 0 and 1")
  else if Rlt_dec 1 p then
    Raise (ValueError "dropout probability has to be between 0 and 1")
  else Ok p.

(** In evaluation mode and for [p = 0] dropout is the identity, for
    [p = 1] it zeroes everything; otherwise the kept elements are scaled
    by [1 / (1 - p)]. *)
Definition nn_Dropout_forward (p : R) (training : bool) (x : tensor) : M tensor :=
  if negb training then ret x
  else if Req_dec_T p 0 then ret x
  else if Req_dec_T p 1 then ret (fill_ x 0)
  else
    u <~ draw (length (data x)) ;;
    ret (mkTensor (shape x)
           (map (fun xu => if dropout_keep L p (snd xu)
                           then fst xu * (1 / (1 - p)) else 0)
                (combine (data x) u))).

(** ** [exists], [default] *)

Definition exists_ {A} (val : option A) : bool :=
  match val with
  | Some _ => true
  | None => false
  end.

(** A value that exists is returned.  Otherwise [default] evaluates
    [isfunction(d)], and the module neither defines nor imports the name
    [isfunction]: the lookup raises before [d] is used.  (Under
    [exists_ val] the value is a [Some], so the [None] branch of the match
    is never taken.) *)
Definition default {A} (val : option A) (d : A) : result A :=
  if exists_ val then
    match val with
    | Some v => Ok v
    | None => Ok d
    end
  else Raise (NameError "isfunction").

(** ** [CrossAttention] *)

Record CrossAttention : Type := mkCrossAttention {
  scale : R;
  heads : nat;
  to_q : nn_Linear;
  to_k : nn_Linear;
  to_v : nn_Linear;
  to_out_linear : nn_Linear;
  to_out_dropout : R;
  training : bool
}.

(** [dim_head ** -0.5] on a Python integer. *)
Definition pow_neg_half (dim_head : nat) : result R :=
  if dim_head =? 0 then Raise ZeroDivisionError
  else Ok (1 / sqrt (INR dim_head)).

Definition CrossAttention_init (query_dim : nat) (context_dim : option nat)
  (n_heads dim_head : nat) (dropout : R) : M CrossAttention :=
  let inner_dim := (dim_head * n_heads)%nat in
  context_dim <~ lift (default context_dim query_dim) ;;
  sc <~ lift (pow_neg_half dim_head) ;;
  q <~ nn_Linear_init query_dim inner_dim false ;;
  k <~ nn_Linear_init context_dim inner_dim false ;;
  v <~ nn_Linear_init context_dim inner_dim false ;;
  o <~ nn_Linear_init inner_dim query_dim true ;;
  p <~ lift (nn_Dropout_init dropout) ;;
  ret (mkCrossAttention sc n_heads q k v o p true).

(** [rearrange(t, "b n (h d) -> (b h) n d", h=h)]. *)
Definition split_heads (h : nat) (t : tensor) : result tensor :=
  match shape t with
  | [b; n; hd] =>
      if (h =? 0) || negb (hd mod h =? 0) then Raise EinopsError
      else
        (t4 <- reshape t [b; n; h; (hd / h)%nat] ;;
         t4 <- permute [0; 2; 1; 3]%nat t4 ;;
         reshape t4 [(b * h)%nat; n; (hd / h)%nat])%py
  | _ => Raise EinopsError
  end.

(** [rearrange(t, "(b h) n d -> b n (h d)", h=h)]. *)
Definition merge_heads (h : nat) (t : tensor) : result tensor :=
  match shape t with
  | [bh; n; d] =>
      if (h =? 0) || negb (bh mod h =? 0) then Raise EinopsError
      else
        (t4 <- reshape t [(bh / h)%nat; h; n; d] ;;
         t4 <- permute [0; 2; 1; 3]%nat t4 ;;
         reshape t4 [(bh / h)%nat; n; (h * d)%nat])%py
  | _ => Raise EinopsError
  end.

(** [einsum("b i d, b j d -> b i j", q, k)]. *)
Definition einsum_bid_bjd (q k : tensor) : result tensor :=
  match shape q, shape k with
  | [b1; i; d1], [b2; j; d2] =>
      (b <- bdim b1 b2 ;;
       d <- bdim d1 d2 ;;
       Ok (mkTensor [b; i; j]
             (tab (b * i * j)
                  (fun p =>
                     let c := unravel [b; i; j] p in
                     let bi := nth 0 c 0%nat in
                     let ii := nth 1 c 0%nat in
                     let ji := nth 2 c 0%nat in
                     Rsum (tab d (fun di =>
                       get q (ravel [b1; i; d1] [bidx b1 bi; ii; bidx d1 di]) *
                       get k (ravel [b2; j; d2] [bidx b2 bi; ji; bidx d2 di])))))))%py
  | _, _ => Raise (RuntimeError "einsum: operand rank does not match")
  end.

(** [einsum("b i j, b j d -> b i d", attn, v)]. *)
Definition einsum_bij_bjd (attn v : tensor) : result tensor :=
  match shape attn, shape v with
  | [b1; i; j1], [b2; j2; d] =>
      (b <- bdim b1 b2 ;;
       j <- bdim j1 j2 ;;
       Ok (mkTensor [b; i; d]
             (tab (b * i * d)
                  (fun p =>
                     let c := unravel [b; i; d] p in
                     let bi := nth 0 c 0%nat in
                     let ii := nth 1 c 0%nat in
                     let di := nth 2 c 0%nat in
                     Rsum (tab j (fun ji =>
                       get attn (ravel [b1; i; j1] [bidx b1 bi; ii; bidx j1 ji]) *
                       get v (ravel [b2; j2; d] [bidx b2 bi; bidx j2 ji; di])))))))%py
  | _, _ => Raise (RuntimeError "einsum: operand rank does not match")
  end.

(** A boolean tensor. *)
Record mask_tensor : Type := mkMask {
  mshape : list nat;
  mdata : list bool
}.

Definition mget (m : mask_tensor) (p : nat) : bool := nth p (mdata m) false.

(** [rearrange(mask, "b ... -> b (...)")]. *)
Definition flatten_mask (m : mask_tensor) : result mask_tensor :=
  match mshape m with
  | b :: rest => Ok (mkMask [b; numel rest] (mdata m))
  | [] => Raise EinopsError
  end.

(** [repeat(mask, "b j -> (b h) () j", h=h)]. *)
Definition repeat_mask (h : nat) (m : mask_tensor) : result mask_tensor :=
  match mshape m with
  | [b; j] =>
      Ok (mkMask [(b * h)%nat; 1%nat; j]
            (tab (b * h * 1 * j)
                 (fun p =>
                    let c := unravel [(b * h)%nat; 1%nat; j] p in
                    mget m (ravel [b; j] [(nth 0 c 0 / h)%nat; nth 2 c 0%nat]))))
  | _ => Raise EinopsError
  end.

(** [sim.masked_fill_(~mask, value)]: in place, so the mask is broadcast
    to the shape of [sim] and never the other way round. *)
Definition masked_fill_not (sim : tensor) (m : mask_tensor) (v : R)
  : result tensor :=
  match shape sim, mshape m with
  | [b; i; j], [mb; mi; mj] =>
      if ((mb =? b) || (mb =? 1)) && ((mi =? i) || (mi =? 1))
         && ((mj =? j) || (mj =? 1)) then
        Ok (mkTensor [b; i; j]
              (tab (b * i * j)
                   (fun p =>
                      let c := unravel [b; i; j] p in
                      if negb (mget m (ravel [mb; mi; mj]
                                         [bidx mb (nth 0 c 0%nat);
                                          bidx mi (nth 1 c 0%nat);
                                          bidx mj (nth 2 c 0%nat)]))
                      then v else get sim p)))
      else Raise (RuntimeError "mask is not broadcastable to the tensor")
  | _, _ => Raise (RuntimeError "mask is not broadcastable to the tensor")
  end.

(** [t.softmax(dim=-1)] over the reals: the quotient of [exp] by the sum
    of the row.  Subtracting the maximum of the row first, as torch does,
    changes nothing in exact arithmetic; [softmax_last_f] below has it,
    with the special values of floating point. *)
Definition softmax_last (t : tensor) : tensor :=
  let j := last (shape t) 1%nat in
  mkTensor (shape t)
    (tab (numel (shape t))
         (fun p =>
            exp (get t p)
            / Rsum (tab j (fun ji => exp (get t ((p / j) * j + ji)%nat))))).

(** The projections of [forward], split into heads. *)
Definition CrossAttention_qkv (m : CrossAttention) (x : tensor)
  (context : option tensor) : result (tensor * tensor * tensor) :=
  (let h := heads m in
   q <- nn_Linear_forward (to_q m) x ;;
   context <- default context x ;;
   k <- nn_Linear_forward (to_k m) context ;;
   v <- nn_Linear_forward (to_v m) context ;;
   q <- split_heads h q ;;
   k <- split_heads h k ;;
   v <- split_heads h v ;;
   Ok (q, k, v))%py.

(** The similarity of [forward] after the mask, when there is one. *)
Definition CrossAttention_masked_sim (m : CrossAttention) (sim : tensor)
  (mask : option mask_tensor) : result tensor :=
  match mask with
  | Some mk =>
      (mk <- flatten_mask mk ;;
       let max_neg_value := - finfo_max L in
       mk <- repeat_mask (heads m) mk ;;
       masked_fill_not sim mk max_neg_value)%py
  | None => Ok sim
  end.

(** The attention weights of [forward], with the values they are applied
    to. *)
Definition CrossAttention_attn (m : CrossAttention) (x : tensor)
  (context : option tensor) (mask : option mask_tensor)
  : result (tensor * tensor) :=
  (qkv <- CrossAttention_qkv m x context ;;
   let q := fst (fst qkv) in
   let k := snd (fst qkv) in
   let v := snd qkv in
   sim <- einsum_bid_bjd q k ;;
   let sim := scale_by sim (scale m) in
   sim <- CrossAttention_masked_sim m sim mask ;;
   Ok (softmax_last sim, v))%py.

Definition CrossAttention_forward (m : CrossAttention) (x : tensor)
  (context : option tensor) (mask : option mask_tensor) : M tensor :=
  av <~ lift (CrossAttention_attn m x context mask) ;;
  out <~ lift (einsum_bij_bjd (fst av) (snd av)) ;;
  out <~ lift (merge_heads (heads m) out) ;;
  out <~ lift (nn_Linear_forward (to_out_linear m) out) ;;
  nn_Dropout_forward (to_out_dropout m) (training m) out.

(** ** [CrossAttentionTransformerEncoderLayer] *)

(** The activation argument of the encoder layer: a name or a callable. *)
Inductive activation_value : Type :=
| ActName (s : string)
| F_relu
| F_gelu
| ReLU_module
| GELU_module
| Callable (id : nat).

(** [torch.nn.modules.transformer._get_activation_fn], which the base
    class applies to an activation given by name. *)
Definition torch_get_activation_fn (s : string) : result activation_value :=
  if String.eqb s "relu" then Ok F_relu
  else if String.eqb s "gelu" then Ok F_gelu
  else Raise (RuntimeError "activation should be relu/gelu").

(** What the constructor of [torch.nn.TransformerEncoderLayer] leaves in
    the object, as far as the subclass reads it. *)
Record TransformerEncoderLayer : Type := mkBase {
  self_attn_out_proj : nn_Linear;
  linear1 : nn_Linear;
  linear2 : nn_Linear;
  norm_first : bool;
  base_activation : activation_value
}.

(** [torch.nn.TransformerEncoderLayer.__init__(d_model, nhead,
    dim_feedforward, dropout, activation)]: the multi-head attention of
    the base class wants positive sizes and an embedding dimension the
    head count divides; then come the feed-forward layers, the dropout
    and the activation looked up by name. *)
Definition TransformerEncoderLayer_init (d_model nhead dim_feedforward : nat)
  (dropout : R) (activation : activation_value) : M TransformerEncoderLayer :=
  if (d_model =? 0) || (nhead =? 0) then
    raise (ValueError "embed_dim and num_heads must be greater than 0")
  else if negb ((d_model / nhead) * nhead =? d_model) then
    raise (AssertionError "embed_dim must be divisible by num_heads")
  else
    _ <~ draw (3 * d_model * d_model) ;;
    o <~ nn_Linear_init d_model d_model true ;;
    l1 <~ nn_Linear_init d_model dim_feedforward true ;;
    _ <~ lift (nn_Dropout_init dropout) ;;
    l2 <~ nn_Linear_init dim_feedforward d_model true ;;
    act <~ lift (match activation with
                 | ActName s => torch_get_activation_fn s
                 | other => Ok other
                 end) ;;
    ret (mkBase o l1 l2 false act).

Record CrossAttentionTransformerEncoderLayer : Type := mkEncoderLayer {
  base : TransformerEncoderLayer;
  attn : CrossAttention;
  dropout_p : R;
  activation : activation_value;
  activation_relu_or_gelu : nat
}.

(** The attention module the constructor builds:
    [CrossAttention(d_model, nhead, dropout=dropout)].  The second
    positional parameter of [CrossAttention.__init__] is [context_dim];
    [heads] and [dim_head] keep their defaults 8 and 64. *)
Definition encoder_attn (d_model nhead : nat) (dropout : R) : M CrossAttention :=
  CrossAttention_init d_model (Some nhead) 8 64 dropout.

(** The module has no binding for the name [_get_activation_fn]. *)
Definition _get_activation_fn (a : activation_value) : result activation_value :=
  Raise (NameError "_get_activation_fn").

Definition relu_or_gelu_flag (a : activation_value) : nat :=
  match a with
  | F_relu | ReLU_module => 1%nat
  | F_gelu | GELU_module => 2%nat
  | _ => 0%nat
  end.

Definition CrossAttentionTransformerEncoderLayer_init
  (d_model nhead dim_feedforward : nat) (dropout : R)
  (act : activation_value) : M CrossAttentionTransformerEncoderLayer :=
  b <~ TransformerEncoderLayer_init d_model nhead dim_feedforward dropout act ;;
  a <~ encoder_attn d_model nhead dropout ;;
  p <~ lift (nn_Dropout_init dropout) ;;
  _ <~ lift (_get_activation_fn act) ;;
  _ <~ lift (nn_Dropout_init dropout) ;;
  _ <~ lift (nn_Dropout_init dropout) ;;
  _ <~ lift (nn_Dropout_init dropout) ;;
  ret (mkEncoderLayer b a p act (relu_or_gelu_flag act)).

End Layers.

(** The signatures' defaults. *)
Definition CrossAttention_default_heads : nat := 8.
Definition CrossAttention_default_dim_head : nat := 64.

(** ** A deterministic instance of the libraries

    Used to run the model on concrete inputs.  Every draw is 0; the
    orthogonal factor is the matrix with ones on its diagonal; a standard
    truncated normal sample is the lower bound; the largest finite value is
    that of single precision. *)

Definition sample_library : library := {|
  noise := fun _ => 0;
  linear_reset_sample := fun _ x => x;
  qr_orthogonal := fun _ cols _ i =>
    if (i / cols =? i mod cols)%nat then 1 else 0;
  truncnorm_std := fun _ _ => 22 / 25;
  truncnorm_standard := fun a _ _ => a;
  xavier_uniform_ := fun t => ret t;
  kaiming_normal_ := fun t => ret t;
  dropout_keep := fun _ _ => true;
  finfo_max := (2 - / 2 ^ 23) * 2 ^ 127
|}.

(** An attention module with one head of dimension one whose projections
    are the identity. *)
Definition example_attention : CrossAttention :=
  mkCrossAttention 1 1
    (mk_nn_Linear 1 1 (mkTensor [1; 1]%nat [1]) None)
    (mk_nn_Linear 1 1 (mkTensor [1; 1]%nat [1]) None)
    (mk_nn_Linear 1 1 (mkTensor [1; 1]%nat [1]) None)
    (mk_nn_Linear 1 1 (mkTensor [1; 1]%nat [1]) (Some (mkTensor [1%nat] [0])))
    0 true.

(** The activation names [Dense] recognises, as its description lists
    them: "swish" or "silu" in any case, or no activation. *)
Definition recognised_activation (a : activation_arg) : bool :=
  match a with
  | ActNone => true
  | ActStr s => String.eqb (lower s) "swish" || String.eqb (lower s) "silu"
  | ActOther => false
  end.

(** The fan value of a fan mode, as the description of the truncated
    normal initialisers gives it: the fan-in, the fan-out, or the
    arithmetic mean of the two. *)
Definition fan_value (fan_out fan_in : nat) (fan : string) : R :=
  if String.eqb fan "fan_in" then INR fan_in
  else if String.eqb fan "fan_out" then INR fan_out
  else (INR fan_in + INR fan_out) / 2.

(** A [Dense] layer of the given width without bias whose weight is all
    zero. *)
Definition zero_dense (units : nat) (d : Dense) : Prop :=
  shape (weight (linear d)) = [units; units] /\
  Forall (fun v => v = 0) (data (weight (linear d))) /\
  bias (linear d) = None.

(** The element of the mask that [forward] consults for the entry of the
    similarity at batch-and-head index [bh] and context position [j]: the
    mask is flattened to [(b, j)], repeated over the heads and broadcast to
    the similarity. *)
Definition mask_at (h : nat) (mask : mask_tensor) (bh j : nat) : bool :=
  match mshape mask with
  | b :: rest =>
      mget mask (ravel [b; numel rest]
                       [(bidx (b * h) bh / h)%nat; bidx (numel rest) j])
  | [] => false
  end.

(** ** [permute_final_dims] and [flatten_final_dims] *)

(** The Python slice [l[:stop]]: a negative [stop] counts from the end,
    and a slice that would start before the list is empty. *)
Definition py_slice_to {A} (stop : Z) (l : list A) : list A :=
  if (stop <? 0)%Z then firstn (Z.to_nat (Z.of_nat (length l) + stop)) l
  else firstn (Z.to_nat stop) l.

(** An axis given as a Python integer, for a tensor of rank [r]: a negative
    one counts from the last axis, and one outside [[-r, r)] is an
    [IndexError]. *)
Definition wrap_dim (r : nat) (d : Z) : result nat :=
  if ((d <? - Z.of_nat r) || (Z.of_nat r <=? d))%Z then Raise IndexError
  else Ok (Z.to_nat (if (d <? 0)%Z then d + Z.of_nat r else d)).

Fixpoint wrap_dims (r : nat) (ds : list Z) : result (list nat) :=
  match ds with
  | [] => Ok []
  | d :: rest =>
      (a <- wrap_dim r d ;; l <- wrap_dims r rest ;; Ok (a :: l))%py
  end.

(** [tensor.permute(dims)] for axes given as Python integers: as many axes
    as the tensor has, each in range, none repeated. *)
Definition tensor_permute (dims : list Z) (t : tensor) : result tensor :=
  if length dims =? rank t then
    (ds <- wrap_dims (rank t) dims ;; permute ds t)%py
  else Raise (RuntimeError "permute: dims do not match the tensor").

Definition permute_final_dims (t : tensor) (inds : list Z) : result tensor :=
  let zero_index := (-1 * Z.of_nat (length inds))%Z in
  let first_inds :=
    map Z.of_nat (seq 0 (length (py_slice_to zero_index (shape t)))) in
  tensor_permute (first_inds ++ map (fun i => (zero_index + i)%Z) inds) t.

(** [t.reshape(prefix + (-1,))]: the last dimension is inferred from the
    number of elements, which the product of the others must divide; with
    a product of 0 nothing can be inferred. *)
Definition reshape_infer_last (t : tensor) (prefix : list nat) : result tensor :=
  if numel prefix =? 0 then
    Raise (RuntimeError "cannot infer the unspecified dimension")
  else if numel (shape t) mod numel prefix =? 0 then
    Ok (mkTensor (prefix ++ [(numel (shape t) / numel prefix)%nat]) (data t))
  else Raise (RuntimeError "shape is invalid for input size").

Definition flatten_final_dims (t : tensor) (no_dims : Z) : result tensor :=
  reshape_infer_last t (py_slice_to (- no_dims)%Z (shape t)).

(** ** [uniq]

    A dictionary is its items in insertion order: setting a key that is
    present replaces the value where the key stands, setting a new key puts
    the item last. *)

Section Uniq.

Variable A : Type.
Variable A_eq_dec : forall x y : A, {x = y} + {x <> y}.

Fixpoint dict_setitem (d : list (A * bool)) (k : A) (v : bool)
  : list (A * bool) :=
  match d with
  | [] => [(k, v)]
  | (k', v') :: d' =>
      if A_eq_dec k k' then (k', v) :: d'
      else (k', v') :: dict_setitem d' k v
  end.

(** [{el: True for el in arr}.keys()]. *)
Definition uniq (arr : list A) : list A :=
  map fst (fold_left (fun d el => dict_setitem d el true) arr []).

End Uniq.

(** The shapes of the four projections of an attention module for queries
    of width [query_dim], contexts of width [context_dim] and heads of
    dimension [dim_head]. *)
Definition CrossAttention_shapes (query_dim context_dim dim_head : nat)
  (m : CrossAttention) : Prop :=
  shape (weight (to_q m)) = [(dim_head * heads m)%nat; query_dim] /\
  shape (weight (to_k m)) = [(dim_head * heads m)%nat; context_dim] /\
  shape (weight (to_v m)) = [(dim_head * heads m)%nat; context_dim] /\
  shape (weight (to_out_linear m)) = [query_dim; (dim_head * heads m)%nat].

(** ** The masked softmax with the special values of floating point

    The real numbers above stand for the finite values of a tensor.  Where
    [forward] fills the similarity under the mask and takes the softmax,
    the special values matter, so this part of [forward] is also given on
    elements that are a finite number, an infinity or NaN.  Finite
    arithmetic stays exact and the sign of zero is not kept; [exp]
    saturates as it does in floating point: above one threshold it is
    [+inf], below another it is 0. *)

Inductive fval : Type :=
| Finite (r : R)
| PosInf
| NegInf
| NaN.

(** The thresholds of [exp] of a float format: [exp x] overflows for
    [x > exp_overflow] and is 0 for [x < - exp_underflow]. *)
Record float_exp : Type := mkFloatExp {
  exp_overflow : R;
  exp_underflow : R
}.

Definition fadd (a b : fval) : fval :=
  match a, b with
  | NaN, _ | _, NaN => NaN
  | Finite x, Finite y => Finite (x + y)
  | PosInf, NegInf | NegInf, PosInf => NaN
  | PosInf, _ | _, PosInf => PosInf
  | NegInf, _ | _, NegInf => NegInf
  end.

Definition fsub (a b : fval) : fval :=
  match a, b with
  | NaN, _ | _, NaN => NaN
  | Finite x, Finite y => Finite (x - y)
  | PosInf, PosInf | NegInf, NegInf => NaN
  | PosInf, _ | _, NegInf => PosInf
  | NegInf, _ | _, PosInf => NegInf
  end.

Definition fdiv (a b : fval) : fval :=
  match a, b with
  | NaN, _ | _, NaN => NaN
  | Finite x, Finite y =>
      if Req_dec_T y 0 then
        if Req_dec_T x 0 then NaN
        else if Rlt_dec 0 x then PosInf else NegInf
      else Finite (x / y)
  | Finite _, _ => Finite 0
  | _, PosInf | _, NegInf => NaN
  | PosInf, Finite y => if Rlt_dec y 0 then NegInf else PosInf
  | NegInf, Finite y => if Rlt_dec y 0 then PosInf else NegInf
  end.

(** The maximum as torch reduces it: NaN wins. *)
Definition fmax (a b : fval) : fval :=
  match a, b with
  | NaN, _ | _, NaN => NaN
  | PosInf, _ | _, PosInf => PosInf
  | NegInf, y => y
  | x, NegInf => x
  | Finite x, Finite y => Finite (Rmax x y)
  end.

Definition fexp (E : float_exp) (a : fval) : fval :=
  match a with
  | NaN => NaN
  | PosInf => PosInf
  | NegInf => Finite 0
  | Finite x =>
      if Rlt_dec (exp_overflow E) x then PosInf
      else if Rlt_dec x (- exp_underflow E) then Finite 0
      else Finite (exp x)
  end.

Definition fsum (l : list fval) : fval := fold_right fadd (Finite 0) l.

Record ftensor : Type := mkFTensor {
  fshape : list nat;
  fdata : list fval
}.

Definition fget (t : ftensor) (p : nat) : fval := nth p (fdata t) (Finite 0).

(** A tensor of finite values. *)
Definition to_float (t : tensor) : ftensor :=
  mkFTensor (shape t) (map Finite (data t)).

(** [sim.masked_fill_(~mask, value)], as [masked_fill_not]. *)
Definition masked_fill_not_f (sim : ftensor) (m : mask_tensor) (v : fval)
  : result ftensor :=
  match fshape sim, mshape m with
  | [b; i; j], [mb; mi; mj] =>
      if ((mb =? b) || (mb =? 1)) && ((mi =? i) || (mi =? 1))
         && ((mj =? j) || (mj =? 1)) then
        Ok (mkFTensor [b; i; j]
              (tab (b * i * j)
                   (fun p =>
                      let c := unravel [b; i; j] p in
                      if negb (mget m (ravel [mb; mi; mj]
                                         [bidx mb (nth 0 c 0%nat);
                                          bidx mi (nth 1 c 0%nat);
                                          bidx mj (nth 2 c 0%nat)]))
                      then v else fget sim p)))
      else Raise (RuntimeError "mask is not broadcastable to the tensor")
  | _, _ => Raise (RuntimeError "mask is not broadcastable to the tensor")
  end.

(** [t.softmax(dim=-1)] as torch computes it: the maximum of the row is
    subtracted before [exp], and the result is divided by the sum of the
    row. *)
Definition softmax_last_f (E : float_exp) (t : ftensor) : ftensor :=
  let j := last (fshape t) 1%nat in
  mkFTensor (fshape t)
    (tab (numel (fshape t))
         (fun p =>
            let row := tab j (fun ji => fget t ((p / j) * j + ji)%nat) in
            let m := fold_right fmax NegInf row in
            fdiv (fexp E (fsub (fget t p) m))
                 (fsum (map (fun x => fexp E (fsub x m)) row)))).

(** The similarity of [forward] before the mask. *)
Definition CrossAttention_sim (m : CrossAttention) (x : tensor)
  (context : option tensor) : result tensor :=
  (qkv <- CrossAttention_qkv m x context ;;
   let q := fst (fst qkv) in
   let k := snd (fst qkv) in
   sim <- einsum_bid_bjd q k ;;
   Ok (scale_by sim (scale m)))%py.

(** The mask step of [forward] with the fill value [fill]. *)
Definition CrossAttention_masked_sim_with (fill : fval) (m : CrossAttention)
  (sim : tensor) (mask : option mask_tensor) : result ftensor :=
  match mask with
  | Some mk =>
      (mk <- flatten_mask mk ;;
       mk <- repeat_mask (heads m) mk ;;
       masked_fill_not_f (to_float sim) mk fill)%py
  | None => Ok (to_float sim)
  end.

(** The mask step as [forward] has it: the fill value is
    [-torch.finfo(sim.dtype).max], a finite number. *)
Definition CrossAttention_masked_sim_f (L : library) (m : CrossAttention)
  (sim : tensor) (mask : option mask_tensor) : result ftensor :=
  let max_neg_value := Finite (- finfo_max L) in
  CrossAttention_masked_sim_with max_neg_value m sim mask.

(** The attention weights of [forward]. *)
Definition CrossAttention_attn_f (L : library) (E : float_exp)
  (m : CrossAttention) (x : tensor) (context : option tensor)
  (mask : option mask_tensor) : result ftensor :=
  (sim <- CrossAttention_sim m x context ;;
   sim <- CrossAttention_masked_sim_f L m sim mask ;;
   Ok (softmax_last_f E sim))%py.

(** Thresholds of the size of those of single precision. *)
Definition sample_float_exp : float_exp := mkFloatExp 89 104.

(** Two coordinate lists of rank [n] agree outside the axes [axes]. *)
Definition slice_agree (n : nat) (axes c1 c2 : list nat) : Prop :=
  forall a, (a < n)%nat -> ~ In a axes -> nth a c1 0%nat = nth a c2 0%nat.

(** * Properties *)

(** ** The monads *)

Lemma bind_Ok {A B} (m : M A) (k : A -> M B) pos a pos' :
  m pos = Ok (a, pos') -> bind m k pos = k a pos'.
Proof. intros H. unfold bind. rewrite H. reflexivity. Qed.

Lemma bind_Raise {A B} (m : M A) (k : A -> M B) pos e :
  m pos = Raise e -> bind m k pos = Raise e.
Proof. intros H. unfold bind. rewrite H. reflexivity. Qed.

Lemma bind_inv {A B} (m : M A) (k : A -> M B) pos b pos2 :
  bind m k pos = Ok (b, pos2) ->
  exists a pos1, m pos = Ok (a, pos1) /\ k a pos1 = Ok (b, pos2).
Proof.
  unfold bind. destruct (m pos) as [[a pos1]|e]; intros H.
  - exists a, pos1. split; [reflexivity | exact H].
  - discriminate H.
Qed.

Lemma lift_inv {A} (r : result A) pos a pos' :
  lift r pos = Ok (a, pos') -> r = Ok a /\ pos' = pos.
Proof.
  unfold lift. destruct r; intros H; inversion H; subst. split; reflexivity.
Qed.

Lemma rbind_inv {A B} (r : result A) (k : A -> result B) b :
  rbind r k = Ok b -> exists a, r = Ok a /\ k a = Ok b.
Proof.
  destruct r as [a|e]; simpl; intros H.
  - exists a. split; [reflexivity | exact H].
  - discriminate H.
Qed.

Ltac inv_bind H :=
  let a := fresh "a" in
  let p := fresh "pos" in
  let H1 := fresh "Hm" in
  let H2 := fresh "Hk" in
  apply bind_inv in H; destruct H as (a & p & H1 & H2).

Lemma draw_Ok L n pos :
  draw L n pos = Ok (map (noise L) (seq pos n), (pos + n)%nat).
Proof. reflexivity. Qed.

Lemma nn_Linear_init_Ok L n_in n_out b pos :
  exists l pos',
    nn_Linear_init L n_in n_out b pos = Ok (l, pos') /\
    in_features l = n_in /\ out_features l = n_out /\
    shape (weight l) = [n_out; n_in] /\
    length (data (weight l)) = (n_out * n_in)%nat /\
    match bias l with
    | Some bt => b = true /\ shape bt = [n_out] /\ length (data bt) = n_out
    | None => b = false
    end.
Proof.
  unfold nn_Linear_init, bind. rewrite draw_Ok.
  destruct b.
  - rewrite draw_Ok. eexists. eexists. split; [reflexivity|]. simpl.
    repeat split; rewrite ?length_map, ?length_seq; reflexivity.
  - eexists. eexists. split; [reflexivity|]. simpl.
    repeat split; rewrite ?length_map, ?length_seq; reflexivity.
Qed.

(** ** [Linear]: the gating initialiser *)

Lemma fill_all t v : Forall (fun x => x = v) (data (fill_ t v)).
Proof.
  unfold fill_. simpl. induction (data t) as [|x l IH]; simpl; constructor; auto.
Qed.

Lemma fill_length t v : length (data (fill_ t v)) = length (data t).
Proof. unfold fill_. simpl. apply length_map. Qed.

(** C9.  A [Linear] layer built with [init="gating"] and [bias=True] (and
    no custom initialiser) has, right after construction, a weight of shape
    [(out_dim, in_dim)] whose every entry is 0 and a bias of shape
    [(out_dim)] whose every entry is 1, whatever the two dimensions and
    whatever the libraries drew. *)
Theorem Linear_gating_weight_zero_bias_one :
  forall L in_dim out_dim pos,
  exists w b pos',
    Linear_init L in_dim out_dim true "gating" None pos
      = Ok (mkLinear (mk_nn_Linear in_dim out_dim w (Some b)), pos') /\
    shape w = [out_dim; in_dim] /\
    length (data w) = (out_dim * in_dim)%nat /\
    shape b = [out_dim] /\
    length (data b) = out_dim /\
    Forall (fun v => v = 0) (data w) /\
    Forall (fun v => v = 1) (data b).
Proof.
  intros L in_dim out_dim pos.
  destruct (nn_Linear_init_Ok L in_dim out_dim true pos)
    as (l & pos' & Hinit & _ & _ & Hws & Hwl & Hb).
  destruct (bias l) as [bt|] eqn:Hbias; [|discriminate Hb].
  destruct Hb as (_ & Hbs & Hbl).
  exists (gating_init_ (weight l)), (fill_ (fill_ bt 0) 1), pos'.
  split.
  - unfold Linear_init. rewrite (bind_Ok _ _ _ Hinit). rewrite Hbias.
    reflexivity.
  - unfold gating_init_. repeat split.
    + exact Hws.
    + rewrite fill_length. exact Hwl.
    + exact Hbs.
    + rewrite !fill_length. exact Hbl.
    + apply fill_all.
    + apply fill_all.
Qed.

(** ** [Dense]: the activation name *)

Lemma select_activation_recognised act :
  recognised_activation act = true ->
  exists a, select_activation act = Ok a.
Proof.
  destruct act as [|s|]; unfold recognised_activation, select_activation;
    intros H.
  - exists Identity. reflexivity.
  - rewrite H. exists ScaledSiLU. reflexivity.
  - discriminate H.
Qed.

Lemma select_activation_unrecognised act :
  recognised_activation act = false ->
  select_activation act
  = Raise (NotImplementedError
             "Activation function not implemented for GemNet (yet).").
Proof.
  destruct act as [|s|]; unfold recognised_activation, select_activation;
    intros H.
  - discriminate H.
  - rewrite H. reflexivity.
  - reflexivity.
Qed.

Lemma F_linear_raises x w b e :
  F_linear x w b = Raise e -> exists msg, e = RuntimeError msg.
Proof.
  unfold F_linear.
  destruct (shape w) as [|n_out [|n_in [|? ?]]];
    try (intros H; inversion H; eexists; reflexivity).
  destruct (rev (shape x)) as [|last_dim ?];
    try (intros H; inversion H; eexists; reflexivity).
  destruct (last_dim =? n_in); intros H; inversion H.
  eexists; reflexivity.
Qed.

Lemma Dense_forward_raises d x e :
  Dense_forward d x = Raise e -> exists msg, e = RuntimeError msg.
Proof.
  unfold Dense_forward, nn_Linear_forward.
  destruct (F_linear x (weight (linear d)) (bias (linear d))) as [y|e'] eqn:H;
    simpl; intros H'; inversion H'; subst.
  eapply F_linear_raises; eassumption.
Qed.

(** C8.  An activation argument other than the recognised ones ("swish"
    or "silu" in any case, or none) makes the construction of a [Dense]
    layer raise; and a [Dense] layer that was constructed holds a resolved
    activation, so that its forward pass never raises the
    unknown-activation error. *)
Theorem Dense_activation_checked_at_construction :
  forall L in_f out_f with_bias act pos,
    (recognised_activation act = false ->
     exists e, Dense_init L in_f out_f with_bias act pos = Raise e) /\
    (forall d pos',
        Dense_init L in_f out_f with_bias act pos = Ok (d, pos') ->
        recognised_activation act = true /\
        forall x msg, Dense_forward d x <> Raise (NotImplementedError msg)).
Proof.
  intros L in_f out_f with_bias act pos. split.
  - intros Hact. unfold Dense_init, bind.
    destruct (nn_Linear_init L in_f out_f with_bias pos) as [[l p1]|e];
      [|exists e; reflexivity].
    destruct (Dense_reset_parameters L l p1) as [[l' p2]|e];
      [|exists e; reflexivity].
    rewrite (select_activation_unrecognised _ Hact). simpl.
    eexists; reflexivity.
  - intros d pos' H. split.
    + destruct (recognised_activation act) eqn:Hact; [reflexivity|].
      exfalso. unfold Dense_init in H.
      inv_bind H. inv_bind Hk. inv_bind Hk0.
      apply lift_inv in Hm1. destruct Hm1 as [Hsel _].
      rewrite (select_activation_unrecognised _ Hact) in Hsel.
      discriminate Hsel.
    + intros x msg Hf. apply Dense_forward_raises in Hf.
      destruct Hf as [m Hm]. discriminate Hm.
Qed.

Lemma Dense_activation_checked_at_construction_witness :
  (exists e, Dense_init sample_library 2 2 false (ActStr "relu") 0%nat = Raise e) /\
  (exists d pos',
      Dense_init sample_library 2 2 false (ActStr "SiLU") 0%nat = Ok (d, pos') /\
      recognised_activation (ActStr "SiLU") = true /\
      forall x msg, Dense_forward d x <> Raise (NotImplementedError msg)).
Proof.
  split.
  - apply (proj1 (Dense_activation_checked_at_construction
                    sample_library 2 2 false (ActStr "relu") 0%nat)).
    reflexivity.
  - eexists. eexists. split; [reflexivity|].
    eapply (proj2 (Dense_activation_checked_at_construction
                     sample_library 2 2 false (ActStr "SiLU") 0%nat)).
    reflexivity.
Defined.

(** ** [CrossAttention]: the absent arguments *)

Lemma nn_Dropout_init_Ok p : 0 <= p <= 1 -> nn_Dropout_init p = Ok p.
Proof.
  intros [H0 H1]. unfold nn_Dropout_init.
  destruct (Rlt_dec p 0); [lra|].
  destruct (Rlt_dec 1 p); [lra|]. reflexivity.
Qed.

Lemma nn_Dropout_init_inv p q : nn_Dropout_init p = Ok q -> 0 <= p <= 1.
Proof.
  unfold nn_Dropout_init.
  destruct (Rlt_dec p 0); [discriminate|].
  destruct (Rlt_dec 1 p); [discriminate|]. intros _. lra.
Qed.

(** C1.  What the code does where the description promises that an absent
    argument resolves to the query side: with [context_dim] absent the
    constructor raises [NameError], and with [context] absent so does
    [forward] as soon as the query projection has gone through, because
    [default] reaches the unbound name [isfunction]; with the query side
    passed explicitly [default] returns it. *)
Theorem CrossAttention_absent_context_raises :
  forall L query_dim n_heads dim_head dropout (m : CrossAttention) x mask pos,
    CrossAttention_init L query_dim None n_heads dim_head dropout pos
      = Raise (NameError "isfunction") /\
    match nn_Linear_forward (to_q m) x with
    | Ok _ => CrossAttention_forward L m x None mask pos
              = Raise (NameError "isfunction")
    | Raise e => CrossAttention_forward L m x None mask pos = Raise e
    end /\
    default (Some query_dim) query_dim = Ok query_dim /\
    default (Some x) x = Ok x.
Proof.
  intros. split; [reflexivity|]. split; [|split; reflexivity].
  unfold CrossAttention_forward, CrossAttention_attn, CrossAttention_qkv, bind, lift.
  destruct (nn_Linear_forward (to_q m) x); reflexivity.
Qed.

(** ** [CrossAttentionTransformerEncoderLayer]: the constructor *)

Lemma CrossAttention_init_Some L query_dim c n_heads dim_head dropout pos :
  dim_head <> 0%nat -> 0 <= dropout <= 1 ->
  exists m pos',
    CrossAttention_init L query_dim (Some c) n_heads dim_head dropout pos
      = Ok (m, pos') /\
    heads m = n_heads /\
    in_features (to_q m) = query_dim /\
    in_features (to_k m) = c /\
    in_features (to_v m) = c /\
    shape (weight (to_q m)) = [(dim_head * n_heads)%nat; query_dim] /\
    shape (weight (to_k m)) = [(dim_head * n_heads)%nat; c] /\
    shape (weight (to_v m)) = [(dim_head * n_heads)%nat; c].
Proof.
  intros Hd Hp. unfold CrossAttention_init.
  unfold bind at 1. simpl lift.
  unfold bind at 1. unfold pow_neg_half.
  destruct (Nat.eqb_spec dim_head 0) as [E|_]; [contradiction|]. simpl lift.
  destruct (nn_Linear_init_Ok L query_dim (dim_head * n_heads) false pos)
    as (q & p1 & Hq & Hq1 & _ & Hq2 & _).
  rewrite (bind_Ok _ _ _ Hq).
  destruct (nn_Linear_init_Ok L c (dim_head * n_heads) false p1)
    as (k & p2 & Hk & Hk1 & _ & Hk2 & _).
  rewrite (bind_Ok _ _ _ Hk).
  destruct (nn_Linear_init_Ok L c (dim_head * n_heads) false p2)
    as (v & p3 & Hv & Hv1 & _ & Hv2 & _).
  rewrite (bind_Ok _ _ _ Hv).
  destruct (nn_Linear_init_Ok L (dim_head * n_heads) query_dim true p3)
    as (o & p4 & Ho & _).
  rewrite (bind_Ok _ _ _ Ho).
  unfold bind. rewrite (nn_Dropout_init_Ok Hp). simpl.
  eexists. eexists. split; [reflexivity|]. simpl.
  repeat split; assumption.
Qed.

Lemma F_linear_mismatch x w b n_out n_in s d :
  shape w = [n_out; n_in] -> shape x = s ++ [d] -> d <> n_in ->
  raises (F_linear x w b).
Proof.
  intros Hw Hx Hd. unfold F_linear. rewrite Hw, Hx, rev_app_distr.
  cbn [rev app].
  destruct (Nat.eqb_spec d n_in); [contradiction|].
  eexists; reflexivity.
Qed.

(** C2.  The constructor of the encoder layer builds its attention module
    as [CrossAttention(d_model, nhead, dropout=dropout)], so [nhead] lands
    in the parameter [context_dim]: the module is built, its query
    projection takes inputs of dimension [d_model], and its key and value
    projections take inputs of dimension [nhead], which a context of last
    dimension [d_model] other than [nhead] does not fit. *)
Theorem encoder_attn_context_dim_is_nhead :
  forall L d_model nhead dropout pos,
    0 <= dropout <= 1 ->
    encoder_attn L d_model nhead dropout
      = CrossAttention_init L d_model (Some nhead)
          CrossAttention_default_heads CrossAttention_default_dim_head dropout /\
    exists m pos',
      encoder_attn L d_model nhead dropout pos = Ok (m, pos') /\
      in_features (to_q m) = d_model /\
      in_features (to_k m) = nhead /\
      in_features (to_v m) = nhead /\
      shape (weight (to_k m)) = [512%nat; nhead] /\
      shape (weight (to_v m)) = [512%nat; nhead] /\
      forall b n (context : tensor),
        shape context = [b; n; d_model] -> d_model <> nhead ->
        raises (nn_Linear_forward (to_k m) context) /\
        raises (nn_Linear_forward (to_v m) context).
Proof.
  intros L d_model nhead dropout pos Hp. split; [reflexivity|].
  destruct (@CrossAttention_init_Some L d_model nhead 8 64 dropout pos)
    as (m & pos' & Hm & _ & Hq & Hk & Hv & _ & Hks & Hvs); [discriminate|exact Hp|].
  exists m, pos'. split; [exact Hm|].
  repeat split; try assumption.
  - unfold nn_Linear_forward.
    apply F_linear_mismatch with (n_out := 512%nat) (n_in := nhead)
                                 (s := [b; n]) (d := d_model); assumption.
  - unfold nn_Linear_forward.
    apply F_linear_mismatch with (n_out := 512%nat) (n_in := nhead)
                                 (s := [b; n]) (d := d_model); assumption.
Qed.

Lemma encoder_attn_context_dim_is_nhead_witness :
  exists m pos',
    encoder_attn sample_library 16 4 (1 / 10) 0%nat = Ok (m, pos') /\
    in_features (to_q m) = 16%nat /\
    in_features (to_k m) = 4%nat /\
    in_features (to_v m) = 4%nat /\
    shape (weight (to_k m)) = [512%nat; 4%nat] /\
    shape (weight (to_v m)) = [512%nat; 4%nat] /\
    forall b n (context : tensor),
      shape context = [b; n; 16%nat] -> 16%nat <> 4%nat ->
      raises (nn_Linear_forward (to_k m) context) /\
      raises (nn_Linear_forward (to_v m) context).
Proof.
  assert (Hp : 0 <= 1 / 10 <= 1) by lra.
  exact (proj2 (@encoder_attn_context_dim_is_nhead
                  sample_library 16 4 (1 / 10) 0%nat Hp)).
Defined.

Lemma TransformerEncoderLayer_init_inv L d_model nhead ff dropout act pos b pos' :
  TransformerEncoderLayer_init L d_model nhead ff dropout act pos = Ok (b, pos') ->
  0 <= dropout <= 1 /\ (d_model / nhead * nhead)%nat = d_model /\ nhead <> 0%nat.
Proof.
  unfold TransformerEncoderLayer_init.
  destruct ((d_model =? 0) || (nhead =? 0)) eqn:Hz; [discriminate|].
  destruct (Nat.eqb_spec (d_model / nhead * nhead) d_model) as [Hdiv|]; [|discriminate].
  simpl negb. cbv iota. intros H.
  inv_bind H. inv_bind Hk. inv_bind Hk0. inv_bind Hk.
  apply lift_inv in Hm2. destruct Hm2 as [Hdrop _].
  apply nn_Dropout_init_inv in Hdrop.
  apply orb_false_iff in Hz. destruct Hz as [_ Hn].
  apply Nat.eqb_neq in Hn. auto.
Qed.

(** C10, as the code has it.  The constructor of the encoder layer never
    returns a layer, for any arguments; whenever the constructor of the base
    class returns, the error is the [NameError] of the unbound name
    [_get_activation_fn], and otherwise it is the error the base class
    raised. *)
Theorem encoder_layer_init_never_returns :
  forall L d_model nhead ff dropout act pos,
    (exists e,
        CrossAttentionTransformerEncoderLayer_init L d_model nhead ff dropout act pos
        = Raise e) /\
    (forall b pos',
        TransformerEncoderLayer_init L d_model nhead ff dropout act pos = Ok (b, pos') ->
        CrossAttentionTransformerEncoderLayer_init L d_model nhead ff dropout act pos
        = Raise (NameError "_get_activation_fn")) /\
    (forall e,
        TransformerEncoderLayer_init L d_model nhead ff dropout act pos = Raise e ->
        CrossAttentionTransformerEncoderLayer_init L d_model nhead ff dropout act pos
        = Raise e).
Proof.
  intros L d_model nhead ff dropout act pos.
  assert (Hok : forall b pos',
    TransformerEncoderLayer_init L d_model nhead ff dropout act pos = Ok (b, pos') ->
    CrossAttentionTransformerEncoderLayer_init L d_model nhead ff dropout act pos
    = Raise (NameError "_get_activation_fn")).
  { intros b pos' Hb.
    destruct (TransformerEncoderLayer_init_inv _ _ _ _ _ _ _ Hb) as (Hp & _ & _).
    unfold CrossAttentionTransformerEncoderLayer_init.
    rewrite (bind_Ok _ _ _ Hb).
    destruct (@CrossAttention_init_Some L d_model nhead 8 64 dropout pos')
      as (m & p2 & Hm & _); [discriminate|exact Hp|].
    unfold encoder_attn. rewrite (bind_Ok _ _ _ Hm).
    unfold bind, lift. rewrite (nn_Dropout_init_Ok Hp). reflexivity. }
  assert (Herr : forall e,
    TransformerEncoderLayer_init L d_model nhead ff dropout act pos = Raise e ->
    CrossAttentionTransformerEncoderLayer_init L d_model nhead ff dropout act pos
    = Raise e).
  { intros e He. unfold CrossAttentionTransformerEncoderLayer_init.
    apply bind_Raise. exact He. }
  split; [|split; assumption].
  destruct (TransformerEncoderLayer_init L d_model nhead ff dropout act pos)
    as [[b pos']|e] eqn:Hb.
  - eexists. eapply Hok. reflexivity.
  - exists e. apply Herr. reflexivity.
Qed.

Lemma TransformerEncoderLayer_init_Ok L d_model nhead ff dropout s pos :
  d_model <> 0%nat -> nhead <> 0%nat ->
  (d_model / nhead * nhead)%nat = d_model ->
  0 <= dropout <= 1 ->
  is_ok (torch_get_activation_fn s) = true ->
  exists b pos',
    TransformerEncoderLayer_init L d_model nhead ff dropout (ActName s) pos
    = Ok (b, pos').
Proof.
  intros Hd Hn Hdiv Hp Hs. unfold TransformerEncoderLayer_init.
  destruct (Nat.eqb_spec d_model 0); [contradiction|].
  destruct (Nat.eqb_spec nhead 0); [contradiction|].
  rewrite Hdiv, Nat.eqb_refl. cbn [orb negb].
  unfold bind at 1. rewrite draw_Ok.
  destruct (nn_Linear_init_Ok L d_model d_model true (pos + 3 * d_model * d_model))
    as (o & p1 & Ho & _).
  rewrite (bind_Ok _ _ _ Ho).
  destruct (nn_Linear_init_Ok L d_model ff true p1) as (l1 & p2 & Hl1 & _).
  rewrite (bind_Ok _ _ _ Hl1).
  unfold bind at 1. unfold lift at 1. rewrite (nn_Dropout_init_Ok Hp).
  destruct (nn_Linear_init_Ok L ff d_model true p2) as (l2 & p3 & Hl2 & _).
  rewrite (bind_Ok _ _ _ Hl2).
  unfold bind, lift, ret.
  destruct (torch_get_activation_fn s) as [a|e]; [|discriminate Hs].
  eexists. eexists. reflexivity.
Qed.

Lemma encoder_layer_init_never_returns_witness :
  CrossAttentionTransformerEncoderLayer_init
    sample_library 4 2 8 (1 / 10) (ActName "relu") 0%nat
  = Raise (NameError "_get_activation_fn").
Proof.
  assert (Hp : 0 <= 1 / 10 <= 1) by lra.
  destruct (@TransformerEncoderLayer_init_Ok
              sample_library 4 2 8 (1 / 10) "relu" 0%nat
              ltac:(discriminate) ltac:(discriminate) eq_refl Hp eq_refl)
    as (b & pos' & Hb).
  exact (proj1 (proj2 (encoder_layer_init_never_returns
                         sample_library 4 2 8 (1 / 10) (ActName "relu") 0%nat))
               b pos' Hb).
Defined.

(** C10 as stated fails: with an embedding dimension the head count does
    not divide, the constructor of the base class raises first, and the
    error is not a [NameError]. *)
Lemma encoder_layer_init_not_always_NameError :
  CrossAttentionTransformerEncoderLayer_init
    sample_library 5 2 2048 (1 / 10) (ActName "relu") 0%nat
  = Raise (AssertionError "embed_dim must be divisible by num_heads") /\
  ~ exists name,
      CrossAttentionTransformerEncoderLayer_init
        sample_library 5 2 2048 (1 / 10) (ActName "relu") 0%nat
      = Raise (NameError name).
Proof.
  assert (H : CrossAttentionTransformerEncoderLayer_init
                sample_library 5 2 2048 (1 / 10) (ActName "relu") 0%nat
              = Raise (AssertionError "embed_dim must be divisible by num_heads"))
    by reflexivity.
  split; [exact H|].
  intros [name Hn]. rewrite H in Hn. discriminate Hn.
Qed.

(** ** [he_orthogonal_init] *)

Lemma length_tab {A} n (f : nat -> A) : length (tab n f) = n.
Proof. unfold tab. rewrite length_map, length_seq. reflexivity. Qed.

Lemma nth_tab n (f : nat -> R) p : (p < n)%nat -> nth p (tab n f) 0 = f p.
Proof.
  intros Hp. unfold tab.
  rewrite (nth_indep _ 0 (f 0%nat)) by (rewrite length_map, length_seq; exact Hp).
  rewrite map_nth, seq_nth by exact Hp. reflexivity.
Qed.

Lemma orthogonal_Ok L t pos :
  (2 <= rank t)%nat ->
  exists t1 pos',
    orthogonal_ L t pos = Ok (t1, pos') /\ shape t1 = shape t /\
    (well_formed t -> well_formed t1).
Proof.
  intros Hr. unfold orthogonal_.
  destruct (Nat.ltb_spec (rank t) 2) as [Hlt|_]; [lia|].
  destruct (numel (shape t) =? 0).
  - exists t, pos. repeat split; auto.
  - unfold bind. rewrite draw_Ok. eexists. eexists.
    split; [reflexivity|]. split; [reflexivity|].
    intros _. unfold well_formed. simpl. apply length_tab.
Qed.

Lemma orthogonal_rank_lt_2 L t pos :
  (rank t < 2)%nat -> exists e, orthogonal_ L t pos = Raise e.
Proof.
  intros Hr. unfold orthogonal_.
  destruct (Nat.ltb_spec (rank t) 2) as [_|Hge]; [|lia].
  eexists; reflexivity.
Qed.

Lemma _standardize_Ok kernel :
  (2 <= rank kernel)%nat ->
  exists t2,
    _standardize kernel = Ok t2 /\ shape t2 = shape kernel /\ well_formed t2.
Proof.
  intros Hr. unfold _standardize, standardize_axis. unfold rank in *.
  destruct (Nat.eqb_spec (length (shape kernel)) 3) as [E|NE].
  - cbn [forallb]. rewrite E. cbn.
    eexists. split; [reflexivity|]. split; [reflexivity|].
    unfold well_formed. simpl. apply length_tab.
  - cbn [forallb].
    destruct (Nat.ltb_spec 1 (length (shape kernel))) as [_|H]; [|lia].
    cbn [andb].
    eexists. split; [reflexivity|]. split; [reflexivity|].
    unfold well_formed. simpl. apply length_tab.
Qed.

(** What [he_orthogonal_init] returns on a tensor of at least two axes:
    the standardised orthogonal factor, every element multiplied by
    [sqrt (1 / fan_in)] for the fan-in the code selects. *)
Lemma he_orthogonal_init_run L t pos :
  (2 <= rank t)%nat ->
  exists t1 t2 pos',
    orthogonal_ L t pos = Ok (t1, pos') /\
    shape t1 = shape t /\
    _standardize t1 = Ok t2 /\
    shape t2 = shape t /\
    well_formed t2 /\
    he_orthogonal_init L t pos
    = match inv_sqrt_fan (he_fan_in (shape t)) with
      | Ok c => Ok (scale_by t2 c, pos')
      | Raise e => Raise e
      end.
Proof.
  intros Hr.
  destruct (orthogonal_Ok L t pos Hr) as (t1 & pos' & H1 & Hs1 & _).
  destruct (@_standardize_Ok t1) as (t2 & H2 & Hs2 & Hw2).
  { unfold rank in *. rewrite Hs1. exact Hr. }
  exists t1, t2, pos'. repeat split; try assumption.
  - congruence.
  - unfold he_orthogonal_init. rewrite (bind_Ok _ _ _ H1).
    unfold bind, lift, ret. rewrite H2, Hs1.
    destruct (inv_sqrt_fan (he_fan_in (shape t))); reflexivity.
Qed.

(** C3, as the code has it.  On a weight of rank 2 shaped
    [(fan_out, fan_in)] the last step of [he_orthogonal_init] multiplies
    every element of the standardised orthogonal factor by
    [sqrt (1 / fan_in)], the fan-in being the second (that is, the last)
    dimension; on a weight of rank 3 shaped [(d0, d1, fan_out)] the fan-in
    is [d0 * d1], the product of all dimensions except the last.  The shape
    is kept, and a fan-in of 0 is a division by zero. *)
Theorem he_orthogonal_init_scaling :
  forall L t pos,
    (forall fan_out fan_in,
        shape t = [fan_out; fan_in] ->
        exists t1 t2 pos',
          orthogonal_ L t pos = Ok (t1, pos') /\
          _standardize t1 = Ok t2 /\
          length (data t2) = (fan_out * fan_in)%nat /\
          he_orthogonal_init L t pos
          = if (fan_in =? 0)%nat then Raise ZeroDivisionError
            else Ok (mkTensor [fan_out; fan_in]
                       (map (fun x => x * sqrt (1 / INR fan_in)) (data t2)),
                     pos')) /\
    (forall d0 d1 fan_out,
        shape t = [d0; d1; fan_out] ->
        exists t1 t2 pos',
          orthogonal_ L t pos = Ok (t1, pos') /\
          _standardize t1 = Ok t2 /\
          length (data t2) = (d0 * d1 * fan_out)%nat /\
          he_orthogonal_init L t pos
          = if (d0 * d1 =? 0)%nat then Raise ZeroDivisionError
            else Ok (mkTensor [d0; d1; fan_out]
                       (map (fun x => x * sqrt (1 / INR (d0 * d1))) (data t2)),
                     pos')).
Proof.
  intros L t pos. split.
  - intros fan_out fan_in Hs.
    destruct (@he_orthogonal_init_run L t pos) as
      (t1 & t2 & pos' & H1 & _ & H2 & Hs2 & Hw2 & Hrun).
    { unfold rank. rewrite Hs. simpl. lia. }
    exists t1, t2, pos'. split; [exact H1|]. split; [exact H2|]. split.
    + unfold well_formed in Hw2. rewrite Hw2, Hs2, Hs. simpl. lia.
    + rewrite Hrun, Hs. unfold he_fan_in, inv_sqrt_fan. cbn [length Nat.eqb nth].
      destruct (fan_in =? 0)%nat; [reflexivity|].
      unfold scale_by. rewrite Hs2, Hs. reflexivity.
  - intros d0 d1 fan_out Hs.
    destruct (@he_orthogonal_init_run L t pos) as
      (t1 & t2 & pos' & H1 & _ & H2 & Hs2 & Hw2 & Hrun).
    { unfold rank. rewrite Hs. simpl. lia. }
    exists t1, t2, pos'. split; [exact H1|]. split; [exact H2|]. split.
    + unfold well_formed in Hw2. rewrite Hw2, Hs2, Hs. simpl. lia.
    + rewrite Hrun, Hs. unfold he_fan_in, inv_sqrt_fan.
      cbn [length Nat.eqb removelast numel fold_right].
      replace (d0 * (d1 * 1))%nat with (d0 * d1)%nat by lia.
      destruct (d0 * d1 =? 0)%nat; [reflexivity|].
      unfold scale_by. rewrite Hs2, Hs. reflexivity.
Qed.

Lemma he_orthogonal_init_scaling_witness :
  (exists t1 t2 pos',
      orthogonal_ sample_library (mkTensor [2; 3]%nat [0; 0; 0; 0; 0; 0]) 0%nat
        = Ok (t1, pos') /\
      _standardize t1 = Ok t2 /\
      length (data t2) = (2 * 3)%nat /\
      he_orthogonal_init sample_library
        (mkTensor [2; 3]%nat [0; 0; 0; 0; 0; 0]) 0%nat
      = if (3 =? 0)%nat then Raise ZeroDivisionError
        else Ok (mkTensor [2; 3]%nat
                   (map (fun x => x * sqrt (1 / INR 3)) (data t2)), pos')) /\
  (exists t1 t2 pos',
      orthogonal_ sample_library (mkTensor [2; 1; 2]%nat [0; 0; 0; 0]) 0%nat
        = Ok (t1, pos') /\
      _standardize t1 = Ok t2 /\
      length (data t2) = (2 * 1 * 2)%nat /\
      he_orthogonal_init sample_library
        (mkTensor [2; 1; 2]%nat [0; 0; 0; 0]) 0%nat
      = if (2 * 1 =? 0)%nat then Raise ZeroDivisionError
        else Ok (mkTensor [2; 1; 2]%nat
                   (map (fun x => x * sqrt (1 / INR (2 * 1))) (data t2)), pos')).
Proof.
  split.
  - exact (proj1 (he_orthogonal_init_scaling sample_library
                    (mkTensor [2; 3]%nat [0; 0; 0; 0; 0; 0]) 0%nat)
                 2%nat 3%nat eq_refl).
  - exact (proj2 (he_orthogonal_init_scaling sample_library
                    (mkTensor [2; 1; 2]%nat [0; 0; 0; 0]) 0%nat)
                 2%nat 1%nat 2%nat eq_refl).
Defined.

Lemma sqrt_third_neq_half : sqrt (1 / INR 3) <> sqrt (1 / INR 2).
Proof.
  replace (INR 3) with 3 by (simpl; lra).
  replace (INR 2) with 2 by (simpl; lra).
  intros H. apply sqrt_inj in H; lra.
Qed.

Lemma standardized_diagonal_entry :
  let t1 := mkTensor [2; 3]%nat [1; 0; 0; 0; 1; 0] in
  (get t1 0 - mean_over t1 [0; 1; 2]%nat)
  / sqrt (var_over t1 [0; 1; 2]%nat + 1 / 1000000) <> 0.
Proof.
  intros t1.
  assert (Hm : mean_over t1 [0; 1; 2]%nat = 1 / 3).
  { unfold mean_over, Rsum, get. cbn. lra. }
  assert (Hv : var_over t1 [0; 1; 2]%nat = 1 / 3).
  { unfold var_over. rewrite Hm. unfold Rsum, get. cbn. lra. }
  rewrite Hm, Hv. unfold get. cbn [nth data t1].
  unfold Rdiv at 1. apply Rmult_integral_contrapositive_currified; [lra|].
  apply Rinv_neq_0_compat, Rgt_not_eq, sqrt_lt_R0. lra.
Qed.

(** C3 as stated fails on a weight of rank 2 that is not square: on the
    shape [(2, 3)] the product of all dimensions except the last is 2, and
    the code multiplies by [sqrt (1 / 3)]. *)
Lemma he_orthogonal_init_rank2_fan_in_counterexample :
  exists t1 t2 pos',
    orthogonal_ sample_library (mkTensor [2; 3]%nat [0; 0; 0; 0; 0; 0]) 0%nat
      = Ok (t1, pos') /\
    _standardize t1 = Ok t2 /\
    he_orthogonal_init sample_library (mkTensor [2; 3]%nat [0; 0; 0; 0; 0; 0]) 0%nat
      = Ok (scale_by t2 (sqrt (1 / INR 3)), pos') /\
    he_orthogonal_init sample_library (mkTensor [2; 3]%nat [0; 0; 0; 0; 0; 0]) 0%nat
      <> Ok (scale_by t2 (sqrt (1 / INR (numel (removelast [2; 3]%nat)))), pos').
Proof.
  exists (mkTensor [2; 3]%nat [1; 0; 0; 0; 1; 0]).
  eexists. exists 6%nat.
  split; [reflexivity|]. split; [reflexivity|].
  assert (Hrun : he_orthogonal_init sample_library
                   (mkTensor [2; 3]%nat [0; 0; 0; 0; 0; 0]) 0%nat
                 = Ok (scale_by
                         (mkTensor [2; 3]%nat
                            (tab 6 (fun p =>
                               let t1 := mkTensor [2; 3]%nat [1; 0; 0; 0; 1; 0] in
                               let g := slice_of [2; 3]%nat [1%nat] p in
                               (get t1 p - mean_over t1 g)
                               / sqrt (var_over t1 g + 1 / 1000000))))
                         (sqrt (1 / INR 3)), 6%nat)) by reflexivity.
  split; [exact Hrun|].
  rewrite Hrun. intros H.
  apply (f_equal (fun r => match r with
                           | Ok (t, _) => hd 0 (data t)
                           | Raise _ => 0
                           end)) in H.
  change ((get (mkTensor [2; 3]%nat [1; 0; 0; 0; 1; 0]) 0
           - mean_over (mkTensor [2; 3]%nat [1; 0; 0; 0; 1; 0]) [0; 1; 2]%nat)
          / sqrt (var_over (mkTensor [2; 3]%nat [1; 0; 0; 0; 1; 0]) [0; 1; 2]%nat
                  + 1 / 1000000) * sqrt (1 / INR 3)
          = (get (mkTensor [2; 3]%nat [1; 0; 0; 0; 1; 0]) 0
             - mean_over (mkTensor [2; 3]%nat [1; 0; 0; 0; 1; 0]) [0; 1; 2]%nat)
            / sqrt (var_over (mkTensor [2; 3]%nat [1; 0; 0; 0; 1; 0]) [0; 1; 2]%nat
                    + 1 / 1000000) * sqrt (1 / INR 2)) in H.
  apply Rmult_eq_reg_l in H.
  - exact (sqrt_third_neq_half H).
  - exact standardized_diagonal_entry.
Qed.

(** ** [trunc_normal_init_] *)

Lemma _calculate_fan_modes fan_out fan_in fan :
  In fan ["fan_in"; "fan_out"; "fan_avg"]%string ->
  _calculate_fan [fan_out; fan_in] fan = Ok (fan_value fan_out fan_in fan).
Proof.
  intros [H|[H|[H|[]]]]; subst fan; reflexivity.
Qed.

Lemma _calculate_fan_invalid fan_out fan_in fan :
  ~ In fan ["fan_in"; "fan_out"; "fan_avg"]%string ->
  _calculate_fan [fan_out; fan_in] fan = Raise (ValueError "Invalid fan option").
Proof.
  intros H. unfold _calculate_fan.
  destruct (String.eqb_spec fan "fan_in") as [E|_]; [subst; simpl in H; tauto|].
  destruct (String.eqb_spec fan "fan_out") as [E|_]; [subst; simpl in H; tauto|].
  destruct (String.eqb_spec fan "fan_avg") as [E|_]; [subst; simpl in H; tauto|].
  reflexivity.
Qed.

Lemma Rmax_1_pos f : 0 < Rmax 1 f.
Proof. pose proof (Rmax_l 1 f). lra. Qed.

Lemma math_sqrt_nonneg x : 0 <= x -> math_sqrt x = Ok (sqrt x).
Proof.
  intros H. unfold math_sqrt. destruct (Rlt_dec x 0); [lra|reflexivity].
Qed.

Lemma math_sqrt_neg x : x < 0 -> math_sqrt x = Raise (ValueError "math domain error").
Proof.
  intros H. unfold math_sqrt. destruct (Rlt_dec x 0); [reflexivity|lra].
Qed.

Lemma _prod_numel s : _prod s = numel s.
Proof. induction s as [|n s IH]; simpl; [reflexivity|]. rewrite IH. reflexivity. Qed.

(** The samples [truncnorm.rvs] returns for a scale that is not negative:
    as many as asked for, each within the bounds times the scale. *)
Lemma truncnorm_rvs_bounds L a b sc size pos :
  a <= 0 <= b -> 0 <= sc ->
  (forall u, a <= truncnorm_standard L a b u <= b) ->
  exists samples pos',
    truncnorm_rvs L a b sc size pos = Ok (samples, pos') /\
    length samples = size /\
    Forall (fun x => a * sc <= x <= b * sc) samples.
Proof.
  intros Hab Hsc Hstd. unfold truncnorm_rvs.
  destruct (Rlt_dec sc 0); [lra|].
  destruct (Req_dec_T sc 0) as [E|NE].
  - exists (repeat 0 size), pos. split; [reflexivity|].
    split; [apply repeat_length|].
    apply Forall_forall. intros x Hx. apply repeat_spec in Hx. subst. nra.
  - unfold bind. rewrite draw_Ok. eexists. eexists.
    split; [reflexivity|]. split.
    + rewrite !length_map, length_seq. reflexivity.
    + apply Forall_forall. intros x Hx. apply in_map_iff in Hx.
      destruct Hx as (u & Hu & _). subst x.
      specialize (Hstd u). nra.
Qed.

(** The samples [truncnorm.rvs] returns for a scale that is not negative,
    one by one: the sample at position [i] is the location 0 plus the scale
    times the standard sample made from the [i]-th number drawn. *)
Lemma truncnorm_rvs_entries L a b sc size pos :
  0 <= sc ->
  exists samples pos',
    truncnorm_rvs L a b sc size pos = Ok (samples, pos') /\
    length samples = size /\
    forall i, (i < size)%nat ->
      nth i samples 0 = 0 + sc * truncnorm_standard L a b (noise L (pos + i)).
Proof.
  intros Hsc. unfold truncnorm_rvs.
  destruct (Rlt_dec sc 0); [lra|].
  destruct (Req_dec_T sc 0) as [E|NE].
  - exists (repeat 0 size), pos. split; [reflexivity|].
    split; [apply repeat_length|].
    intros i _. rewrite nth_repeat, E. lra.
  - unfold bind. rewrite draw_Ok. eexists. eexists.
    split; [reflexivity|]. split.
    + rewrite !length_map, length_seq. reflexivity.
    + intros i Hi. rewrite map_map.
      rewrite (nth_indep _ 0
                 (0 + sc * truncnorm_standard L a b (noise L 0%nat)))
        by (rewrite length_map, length_seq; exact Hi).
      rewrite (map_nth (fun x => 0 + sc * truncnorm_standard L a b (noise L x))).
      rewrite seq_nth by exact Hi. reflexivity.
Qed.

(** C4.  For a weight of shape [(fan_out, fan_in)], a scale [s] and one of
    the three fan modes with fan value [f], [trunc_normal_init_] asks the
    sampler for the standard deviation [sqrt (s / max 1 f)] divided by the
    standard deviation of the standard truncated normal on [[-2, 2]]: the
    weight it returns holds exactly the [fan_out * fan_in] samples that
    [truncnorm.rvs] gives for the bounds [-2] and [2], the location 0 and
    that standard deviation as scale, so the entry at position [i] is that
    standard deviation times the standard truncated normal sample made from
    the [i]-th number drawn, and every entry lies within [-2] and [2] times
    that standard deviation.  (A negative scale has no square root: the
    call raises and writes nothing.) *)
Theorem trunc_normal_init_std_and_bounds :
  forall L w fan_out fan_in s fan pos,
    shape w = [fan_out; fan_in] ->
    In fan ["fan_in"; "fan_out"; "fan_avg"]%string ->
    0 < truncnorm_std L (-2) 2 ->
    (forall u, -2 <= truncnorm_standard L (-2) 2 u <= 2) ->
    let f := fan_value fan_out fan_in fan in
    let std := sqrt (s / Rmax 1 f) / truncnorm_std L (-2) 2 in
    _calculate_fan (shape w) fan = Ok f /\
    (0 <= s ->
     trunc_normal_std L (shape w) s fan = Ok std /\
     exists w' pos',
       trunc_normal_init_ L w s fan pos = Ok (w', pos') /\
       shape w' = [fan_out; fan_in] /\
       length (data w') = (fan_out * fan_in)%nat /\
       truncnorm_rvs L (-2) 2 std (fan_out * fan_in) pos = Ok (data w', pos') /\
       (forall i, (i < fan_out * fan_in)%nat ->
          get w' i
          = 0 + std * truncnorm_standard L (-2) 2 (noise L (pos + i))) /\
       Forall (fun x => -2 * std <= x <= 2 * std) (data w')) /\
    (s < 0 -> exists e, trunc_normal_init_ L w s fan pos = Raise e).
Proof.
  intros L w fan_out fan_in s fan pos Hs Hfan Hstd Hz f std.
  assert (Hf : _calculate_fan (shape w) fan = Ok f).
  { rewrite Hs. apply _calculate_fan_modes. exact Hfan. }
  split; [exact Hf|]. split.
  - intros Hs0.
    assert (Hq : 0 <= s / Rmax 1 f).
    { apply Rmult_le_pos; [exact Hs0|].
      apply Rlt_le, Rinv_0_lt_compat, Rmax_1_pos. }
    assert (Hts : trunc_normal_std L (shape w) s fan = Ok std).
    { unfold trunc_normal_std. rewrite Hf. cbn [rbind].
      rewrite (math_sqrt_nonneg Hq). reflexivity. }
    split; [exact Hts|].
    assert (Hstd0 : 0 <= std).
    { unfold std. apply Rmult_le_pos; [apply sqrt_pos|].
      apply Rlt_le, Rinv_0_lt_compat. exact Hstd. }
    assert (Hsize : _prod (shape w) = (fan_out * fan_in)%nat).
    { rewrite _prod_numel, Hs. simpl. lia. }
    destruct (@truncnorm_rvs_bounds L (-2) 2 std (_prod (shape w)) pos)
      as (samples & pos' & Hrvs & Hlen & Hb); [lra|exact Hstd0|exact Hz|].
    destruct (@truncnorm_rvs_entries L (-2) 2 std (_prod (shape w)) pos Hstd0)
      as (samples2 & pos2 & Hrvs2 & _ & Hent).
    rewrite Hrvs in Hrvs2.
    assert (E1 : samples2 = samples) by congruence. subst samples2.
    exists (mkTensor (shape w) samples), pos'.
    split.
    + unfold trunc_normal_init_. unfold bind at 1. unfold lift. rewrite Hts.
      rewrite (bind_Ok _ _ _ Hrvs). reflexivity.
    + cbn [shape data]. split; [exact Hs|].
      split; [rewrite Hlen; exact Hsize|].
      split; [rewrite <- Hsize; exact Hrvs|].
      split; [|exact Hb].
      intros i Hi. unfold get. cbn [data]. apply Hent. rewrite Hsize. exact Hi.
  - intros Hneg.
    assert (Hq : s / Rmax 1 f < 0).
    { unfold Rdiv. pose proof (Rinv_0_lt_compat _ (Rmax_1_pos f)). nra. }
    exists (ValueError "math domain error").
    unfold trunc_normal_init_, bind, lift, trunc_normal_std.
    rewrite Hf. cbn [rbind]. rewrite (math_sqrt_neg Hq). reflexivity.
Qed.

Lemma trunc_normal_init_std_and_bounds_witness :
  exists w' pos',
    trunc_normal_init_ sample_library
      (mkTensor [2; 3]%nat [0; 0; 0; 0; 0; 0]) 1 "fan_in" 0%nat = Ok (w', pos') /\
    shape w' = [2; 3]%nat /\
    length (data w') = (2 * 3)%nat /\
    truncnorm_rvs sample_library (-2) 2
      (sqrt (1 / Rmax 1 (fan_value 2 3 "fan_in")) / (22 / 25)) (2 * 3) 0%nat
    = Ok (data w', pos') /\
    (forall i, (i < 2 * 3)%nat ->
       get w' i
       = 0 + sqrt (1 / Rmax 1 (fan_value 2 3 "fan_in")) / (22 / 25)
             * truncnorm_standard sample_library (-2) 2
                 (noise sample_library (0 + i))) /\
    Forall (fun x =>
              -2 * (sqrt (1 / Rmax 1 (fan_value 2 3 "fan_in")) / (22 / 25)) <= x
              <= 2 * (sqrt (1 / Rmax 1 (fan_value 2 3 "fan_in")) / (22 / 25)))
           (data w').
Proof.
  assert (H1 : 0 < truncnorm_std sample_library (-2) 2) by (simpl; lra).
  assert (H2 : forall u, -2 <= truncnorm_standard sample_library (-2) 2 u <= 2)
    by (intros u; simpl; lra).
  assert (H3 : 0 <= 1) by lra.
  exact (proj2 (proj1 (proj2
           (@trunc_normal_init_std_and_bounds sample_library
              (mkTensor [2; 3]%nat [0; 0; 0; 0; 0; 0]) 2 3 1 "fan_in" 0%nat
              eq_refl (or_introl eq_refl) H1 H2)) H3)).
Defined.

(** ** Index arithmetic on tensors of rank 3 *)

Lemma ravel3 a b c i j k :
  ravel [a; b; c] [i; j; k] = (i * (b * c) + j * c + k)%nat.
Proof. simpl. lia. Qed.

Lemma ravel3_lt a b c i j k :
  (i < a)%nat -> (j < b)%nat -> (k < c)%nat ->
  (ravel [a; b; c] [i; j; k] < a * b * c)%nat.
Proof.
  intros Hi Hj Hk. rewrite ravel3.
  assert (H1 : (j * c + k < b * c)%nat) by nia.
  assert (H2 : ((i + 1) * (b * c) <= a * (b * c))%nat)
    by (apply Nat.mul_le_mono_r; lia).
  lia.
Qed.

Lemma div_mod_unique_lt n q r : (r < n)%nat ->
  ((q * n + r) / n = q /\ (q * n + r) mod n = r)%nat.
Proof.
  intros Hr. assert (Hn : n <> 0%nat) by lia. split.
  - symmetry. apply (Nat.div_unique _ n q r); lia.
  - symmetry. apply (Nat.mod_unique _ n q r); lia.
Qed.

Lemma unravel3_ravel3 a b c i j k :
  (i < a)%nat -> (j < b)%nat -> (k < c)%nat ->
  unravel [a; b; c] (ravel [a; b; c] [i; j; k]) = [i; j; k].
Proof.
  intros Hi Hj Hk. rewrite ravel3. cbn [unravel numel fold_right].
  rewrite !Nat.mul_1_r, Nat.div_1_r.
  assert (Hjk : (j * c + k < b * c)%nat) by nia.
  replace (i * (b * c) + j * c + k)%nat with (i * (b * c) + (j * c + k))%nat by lia.
  destruct (@div_mod_unique_lt (b * c) i (j * c + k) Hjk) as [Hq Hr].
  rewrite Hq, Hr.
  destruct (@div_mod_unique_lt c j k Hk) as [Hq' Hr'].
  rewrite Hq', Hr'. reflexivity.
Qed.

Lemma get_tab s n f p : (p < n)%nat -> get (mkTensor s (tab n f)) p = f p.
Proof. intros Hp. unfold get. cbn [data]. apply nth_tab. exact Hp. Qed.

Lemma bidx_lt d i : (i < d)%nat -> bidx d i = i.
Proof.
  intros H. unfold bidx. destruct (Nat.eqb_spec d 1); [lia|reflexivity].
Qed.

Lemma bdim_refl d : bdim d d = Ok d.
Proof. unfold bdim. rewrite Nat.eqb_refl. reflexivity. Qed.

Lemma Rsum_tab_ext n f g :
  (forall i, (i < n)%nat -> f i = g i) -> Rsum (tab n f) = Rsum (tab n g).
Proof.
  intros H. unfold tab. f_equal. apply map_ext_in.
  intros i Hi. apply in_seq in Hi. apply H. lia.
Qed.

(** ** [EfficientInteractionDownProjection] *)

Lemma numel3 a b c : numel [a; b; c] = (a * b * c)%nat.
Proof. simpl. lia. Qed.

(** A permutation of the three axes of a tensor of rank 3 moves every
    element to the permuted coordinates. *)
Lemma permute3_spec t d0 d1 d2 p0 p1 p2 :
  shape t = [d0; d1; d2] ->
  is_permutation [p0; p1; p2] 3 = true ->
  let sh := [d0; d1; d2] in
  let s' := [nth p0 sh 0; nth p1 sh 0; nth p2 sh 0]%nat in
  exists t',
    permute [p0; p1; p2] t = Ok t' /\
    shape t' = s' /\
    well_formed t' /\
    forall c0 c1 c2,
      (c0 < nth 0 s' 0)%nat -> (c1 < nth 1 s' 0)%nat -> (c2 < nth 2 s' 0)%nat ->
      get t' (ravel s' [c0; c1; c2])
      = get t (c0 * nth p0 (strides sh) 0 + c1 * nth p1 (strides sh) 0
               + c2 * nth p2 (strides sh) 0)%nat.
Proof.
  intros Hs Hperm sh s'. unfold permute, rank. rewrite Hs.
  cbn [length]. rewrite Hperm. cbn [map].
  eexists. split; [reflexivity|]. split; [reflexivity|]. split.
  - unfold well_formed. cbn [data shape]. apply length_tab.
  - intros c0 c1 c2 H0 H1 H2. fold sh. fold s'.
    unfold s' in *. cbn [nth] in H0, H1, H2.
    rewrite get_tab.
    + rewrite unravel3_ravel3 by assumption.
      cbn [view_offset]. f_equal. lia.
    + rewrite numel3. apply ravel3_lt; assumption.
Qed.

Lemma matmul3_spec x w s e r i :
  shape x = [s; e; r] -> shape w = [s; r; i] ->
  exists y,
    matmul x w = Ok y /\
    shape y = [s; e; i] /\
    well_formed y /\
    forall si ei ii,
      (si < s)%nat -> (ei < e)%nat -> (ii < i)%nat ->
      get y (ravel [s; e; i] [si; ei; ii])
      = Rsum (tab r (fun ri =>
                get x (ravel [s; e; r] [si; ei; ri]) *
                get w (ravel [s; r; i] [si; ri; ii]))).
Proof.
  intros Hx Hw. unfold matmul. rewrite Hx, Hw, Nat.eqb_refl, bdim_refl.
  cbn [rbind].
  eexists. split; [reflexivity|]. split; [reflexivity|]. split.
  - unfold well_formed. cbn [data shape]. rewrite length_tab, numel3. reflexivity.
  - intros si ei ii Hsi Hei Hii.
    rewrite get_tab by (apply ravel3_lt; assumption).
    rewrite unravel3_ravel3 by assumption. cbn [nth].
    rewrite (bidx_lt Hsi). reflexivity.
Qed.

(** What the constructor establishes: the weight has the shape
    [(num_spherical, num_radial, emb_size_interm)]. *)
Lemma DownProjection_init_shape L n_sph n_rad n_emb pos m pos' :
  DownProjection_init L n_sph n_rad n_emb pos = Ok (m, pos') ->
  num_spherical m = n_sph /\ num_radial m = n_rad /\ emb_size_interm m = n_emb /\
  shape (down_weight m) = [n_sph; n_rad; n_emb].
Proof.
  unfold DownProjection_init, torch_empty. intros H.
  unfold bind at 1 in H. unfold bind at 1 in H. rewrite draw_Ok in H.
  unfold ret at 1 in H.
  destruct (@he_orthogonal_init_run L
              (mkTensor [n_sph; n_rad; n_emb]
                 (map (noise L) (seq pos (numel [n_sph; n_rad; n_emb]))))
              (pos + numel [n_sph; n_rad; n_emb])%nat)
    as (t1 & t2 & p' & _ & _ & _ & Hs2 & _ & Hrun).
  { unfold rank. simpl. lia. }
  unfold bind in H. rewrite Hrun in H.
  destruct (inv_sqrt_fan _) as [c|e]; [|discriminate H].
  unfold ret in H. inversion H; subst. cbn. repeat split.
  unfold scale_by. cbn [shape]. exact Hs2.
Qed.

(** C7.  A down projection whose weight has the shape
    [(num_spherical, num_radial, emb_size_interm)], given tensors of shapes
    [(num_spherical, num_edges, num_radial)] and
    [(num_edges, k_max, num_spherical)], returns a pair of tensors of
    shapes [(num_edges, emb_size_interm, num_spherical)] and
    [(num_edges, num_spherical, k_max)].  The first holds the plain
    contraction of the radial input with the weight over the radial axis
    (no activation, no bias); the second is the spherical input with its
    last two axes exchanged. *)
Theorem DownProjection_forward_shapes :
  forall m rbf_env sph num_edges k_max,
    shape (down_weight m)
      = [num_spherical m; num_radial m; emb_size_interm m] ->
    shape rbf_env = [num_spherical m; num_edges; num_radial m] ->
    shape sph = [num_edges; k_max; num_spherical m] ->
    exists rbf_W1 sph',
      DownProjection_forward m (rbf_env, sph) = Ok (rbf_W1, sph') /\
      shape rbf_W1 = [num_edges; emb_size_interm m; num_spherical m] /\
      shape sph' = [num_edges; num_spherical m; k_max] /\
      well_formed rbf_W1 /\ well_formed sph' /\
      transpose sph 1 2 = Ok sph' /\
      (forall e i s,
          (e < num_edges)%nat -> (i < emb_size_interm m)%nat ->
          (s < num_spherical m)%nat ->
          get rbf_W1 (ravel [num_edges; emb_size_interm m; num_spherical m] [e; i; s])
          = Rsum (tab (num_radial m) (fun r =>
                    get rbf_env
                        (ravel [num_spherical m; num_edges; num_radial m] [s; e; r]) *
                    get (down_weight m)
                        (ravel [num_spherical m; num_radial m; emb_size_interm m]
                               [s; r; i])))) /\
      (forall e s k,
          (e < num_edges)%nat -> (s < num_spherical m)%nat -> (k < k_max)%nat ->
          get sph' (ravel [num_edges; num_spherical m; k_max] [e; s; k])
          = get sph (ravel [num_edges; k_max; num_spherical m] [e; k; s])).
Proof.
  intros m rbf_env sph E K Hw Hx Hsph.
  set (S' := num_spherical m) in *. set (R' := num_radial m) in *.
  set (I' := emb_size_interm m) in *.
  destruct (@matmul3_spec rbf_env (down_weight m) S' E R' I' Hx Hw)
    as (y & Hy & Hys & _ & Hyget).
  destruct (@permute3_spec y S' E I' 1 2 0 Hys eq_refl)
    as (y' & Hy' & Hy's & Hy'w & Hy'get).
  destruct (@permute3_spec sph E K S' 0 2 1 Hsph eq_refl)
    as (z & Hz & Hzs & Hzw & Hzget).
  assert (Htr : transpose sph 1 2 = Ok z).
  { unfold transpose, rank. rewrite Hsph. cbn [length Nat.ltb Nat.leb andb].
    exact Hz. }
  exists y', z. split.
  - unfold DownProjection_forward. rewrite Hy. cbn [rbind]. rewrite Hy'.
    cbn [rbind]. rewrite Htr. reflexivity.
  - cbn [nth] in Hy's, Hzs. repeat split; try assumption.
    + intros e i s He Hi Hs.
      specialize (Hy'get e i s). cbn [nth] in Hy'get.
      rewrite (Hy'get He Hi Hs).
      rewrite <- (Hyget s e i Hs He Hi). f_equal. simpl. lia.
    + intros e s k He Hs Hk.
      specialize (Hzget e s k). cbn [nth] in Hzget.
      rewrite (Hzget He Hs Hk). f_equal. simpl. lia.
Qed.

Lemma DownProjection_forward_shapes_witness :
  exists rbf_W1 sph',
    DownProjection_forward
      (mkDownProjection 3 4 5 (mkTensor [3; 4; 5]%nat (repeat 1 60)))
      (mkTensor [3; 2; 4]%nat (repeat 1 24), mkTensor [2; 6; 3]%nat (repeat 1 36))
    = Ok (rbf_W1, sph') /\
    shape rbf_W1 = [2; 5; 3]%nat /\
    shape sph' = [2; 3; 6]%nat.
Proof.
  destruct (@DownProjection_forward_shapes
              (mkDownProjection 3 4 5 (mkTensor [3; 4; 5]%nat (repeat 1 60)))
              (mkTensor [3; 2; 4]%nat (repeat 1 24))
              (mkTensor [2; 6; 3]%nat (repeat 1 36))
              2%nat 6%nat eq_refl eq_refl eq_refl)
    as (a & b & H1 & H2 & H3 & _).
  exists a, b. split; [exact H1|]. split; [exact H2|exact H3].
Defined.

(** ** [ResidualLayer] *)

Lemma get_all_zero t q : Forall (fun v => v = 0) (data t) -> get t q = 0.
Proof.
  intros H. unfold get.
  destruct (nth_in_or_default q (data t) 0) as [Hin|Hd]; [|exact Hd].
  rewrite Forall_forall in H. apply H. exact Hin.
Qed.

Lemma Rsum_tab_zero n f : (forall i, f i = 0) -> Rsum (tab n f) = 0.
Proof.
  intros H. unfold tab, Rsum.
  induction (seq 0 n) as [|a l IH]; simpl; [reflexivity|].
  rewrite H, IH. lra.
Qed.

Lemma Forall_tab_zero n (f : nat -> R) :
  (forall i, f i = 0) -> Forall (fun v => v = 0) (tab n f).
Proof.
  intros H. unfold tab. apply Forall_forall. intros v Hv.
  apply in_map_iff in Hv. destruct Hv as (i & Hi & _). subst. apply H.
Qed.

Lemma numel_app_last s u : numel (s ++ [u]) = (numel s * u)%nat.
Proof.
  induction s as [|d s IH]; simpl; [lia|]. rewrite IH. lia.
Qed.

(** The affine map with an all-zero weight and no bias sends every input
    of fitting width to the zero tensor. *)
Lemma F_linear_zero_weight x w s n_out n_in :
  shape w = [n_out; n_in] ->
  Forall (fun v => v = 0) (data w) ->
  shape x = s ++ [n_in] ->
  exists y,
    F_linear x w None = Ok y /\
    shape y = s ++ [n_out] /\
    well_formed y /\
    Forall (fun v => v = 0) (data y).
Proof.
  intros Hw Hz Hx. unfold F_linear.
  rewrite Hw, Hx, rev_app_distr. cbn [rev app]. rewrite Nat.eqb_refl.
  rewrite removelast_last.
  eexists. split; [reflexivity|]. split; [reflexivity|]. split.
  - unfold well_formed. cbn [data shape].
    rewrite length_tab, numel_app_last. reflexivity.
  - cbn [data]. apply Forall_tab_zero. intros p.
    rewrite Rsum_tab_zero; [lra|].
    intros i. rewrite (get_all_zero _ _ Hz). lra.
Qed.

Lemma SiLU_0 : SiLU 0 = 0.
Proof. unfold SiLU. lra. Qed.

Lemma apply_activation_zero a y :
  Forall (fun v => v = 0) (data y) ->
  shape (apply_activation a y) = shape y /\
  length (data (apply_activation a y)) = length (data y) /\
  Forall (fun v => v = 0) (data (apply_activation a y)).
Proof.
  intros Hz. destruct a; cbn [apply_activation]; [|auto].
  unfold ScaledSiLU_forward. cbn [shape data].
  split; [reflexivity|]. split; [apply length_map|].
  apply Forall_forall. intros v Hv. apply in_map_iff in Hv.
  destruct Hv as (z & Hv & Hin). rewrite Forall_forall in Hz.
  rewrite (Hz z Hin) in Hv. rewrite SiLU_0 in Hv. lra.
Qed.

Lemma Dense_forward_zero units d x s :
  zero_dense units d -> shape x = s ++ [units] ->
  exists y,
    Dense_forward d x = Ok y /\
    shape y = s ++ [units] /\
    well_formed y /\
    Forall (fun v => v = 0) (data y).
Proof.
  intros (Hw & Hz & Hb) Hx. unfold Dense_forward, nn_Linear_forward.
  rewrite Hb.
  destruct (@F_linear_zero_weight x (weight (linear d)) s units units Hw Hz Hx)
    as (y & Hy & Hys & Hyw & Hy0).
  rewrite Hy. cbn [rbind].
  destruct (@apply_activation_zero (_activation d) y Hy0) as (Ha & Hl & H0).
  eexists. split; [reflexivity|]. split; [congruence|]. split; [|exact H0].
  unfold well_formed in *. rewrite Hl, Ha. exact Hyw.
Qed.

Lemma Sequential_forward_zero units ds : forall x s,
  ds <> [] -> Forall (zero_dense units) ds -> shape x = s ++ [units] ->
  exists y,
    Sequential_forward ds x = Ok y /\
    shape y = s ++ [units] /\
    well_formed y /\
    Forall (fun v => v = 0) (data y).
Proof.
  induction ds as [|d rest IH]; intros x s Hne Hall Hx; [contradiction|].
  inversion Hall as [|? ? Hd Hrest]; subst.
  destruct (@Dense_forward_zero units d x s Hd Hx) as (y & Hy & Hys & Hyw & Hy0).
  cbn [Sequential_forward]. rewrite Hy. cbn [rbind].
  destruct rest as [|d' rest'].
  - exists y. cbn [Sequential_forward]. auto.
  - apply IH; [discriminate|exact Hrest|exact Hys].
Qed.

Lemma add_zeros l z :
  length l = length z -> Forall (fun v => v = 0) z ->
  map (fun xy => fst xy + snd xy) (combine l z) = l.
Proof.
  revert z. induction l as [|a l IH]; intros [|b z] Hlen Hz;
    try discriminate; [reflexivity|].
  inversion Hz; subst. cbn [combine map fst snd]. f_equal; [lra|].
  apply IH; [simpl in Hlen; lia|assumption].
Qed.

(** The constructor stores the constant [1 / sqrt 2] and as many layers as
    asked for. *)
Lemma ResidualLayer_init_inv L units nLayers act pos r pos' :
  ResidualLayer_init L units nLayers act pos = Ok (r, pos') ->
  inv_sqrt_2 r = 1 / sqrt 2 /\ length (dense_mlp r) = nLayers.
Proof.
  unfold ResidualLayer_init. intros H. inv_bind H.
  unfold ret in Hk. inversion Hk; subst. cbn. split; [reflexivity|].
  clear Hk. revert pos a pos' Hm.
  induction nLayers as [|n IH]; intros pos a pos' Hm; cbn [Dense_stack] in Hm.
  - unfold ret in Hm. inversion Hm. reflexivity.
  - inv_bind Hm. inv_bind Hk. unfold ret in Hk0. inversion Hk0; subst.
    cbn [length]. f_equal. eapply IH. eassumption.
Qed.

(** C6, as the code has it.  The forward pass of a residual layer is
    [(input + stack(input)) * inv_sqrt_2], element by element, with
    [inv_sqrt_2 = 1 / sqrt 2] in every constructed layer.  When the layer
    has at least one internal [Dense] layer, all of width [units] with an
    all-zero weight and no bias, the forward pass of every well-formed
    input of finite values (the elements of a [tensor] are finite numbers)
    whose last dimension is [units] is the input times [1 / sqrt 2],
    exactly.  An element that is an infinity or NaN is outside this
    statement: its product with a zero weight is NaN in floating point. *)
Theorem ResidualLayer_forward_residual :
  forall r inputs,
    inv_sqrt_2 r = 1 / sqrt 2 ->
    (forall x,
        Sequential_forward (dense_mlp r) inputs = Ok x ->
        shape x = shape inputs ->
        ResidualLayer_forward r inputs
        = Ok (mkTensor (shape inputs)
                (map (fun ab => (fst ab + snd ab) * (1 / sqrt 2))
                     (combine (data inputs) (data x))))) /\
    (forall units s,
        dense_mlp r <> [] ->
        Forall (zero_dense units) (dense_mlp r) ->
        shape inputs = s ++ [units] ->
        well_formed inputs ->
        ResidualLayer_forward r inputs
        = Ok (mkTensor (shape inputs)
                (map (fun v => v * (1 / sqrt 2)) (data inputs)))).
Proof.
  intros r inputs Hc. split.
  - intros x Hx Hs. unfold ResidualLayer_forward. rewrite Hx. cbn [rbind].
    unfold tensor_add.
    destruct (list_eq_dec Nat.eq_dec (shape inputs) (shape x)) as [_|N];
      [|congruence].
    cbn [rbind]. unfold scale_by. cbn [shape data]. rewrite Hc, map_map.
    reflexivity.
  - intros units s Hne Hall Hs Hwf.
    destruct (@Sequential_forward_zero units (dense_mlp r) inputs s Hne Hall Hs)
      as (y & Hy & Hys & Hyw & Hy0).
    unfold ResidualLayer_forward. rewrite Hy. cbn [rbind]. unfold tensor_add.
    destruct (list_eq_dec Nat.eq_dec (shape inputs) (shape y)) as [_|N];
      [|congruence].
    cbn [rbind]. unfold scale_by. cbn [shape data].
    rewrite add_zeros; [rewrite Hc; reflexivity| |exact Hy0].
    unfold well_formed in *. rewrite Hwf, Hyw, Hs, Hys. reflexivity.
Qed.

Lemma ResidualLayer_forward_residual_witness :
  ResidualLayer_forward
    (mkResidualLayer
       [mkDense (mk_nn_Linear 2 2 (mkTensor [2; 2]%nat [0; 0; 0; 0]) None) ScaledSiLU;
        mkDense (mk_nn_Linear 2 2 (mkTensor [2; 2]%nat [0; 0; 0; 0]) None) ScaledSiLU]
       (1 / sqrt 2))
    (mkTensor [1; 2]%nat [3; 5])
  = Ok (mkTensor [1; 2]%nat (map (fun v => v * (1 / sqrt 2)) [3; 5])).
Proof.
  apply (proj2 (@ResidualLayer_forward_residual
                  (mkResidualLayer
                     [mkDense (mk_nn_Linear 2 2 (mkTensor [2; 2]%nat [0; 0; 0; 0]) None)
                              ScaledSiLU;
                      mkDense (mk_nn_Linear 2 2 (mkTensor [2; 2]%nat [0; 0; 0; 0]) None)
                              ScaledSiLU]
                     (1 / sqrt 2))
                  (mkTensor [1; 2]%nat [3; 5]) eq_refl)
               2%nat [1%nat]).
  - discriminate.
  - repeat constructor.
  - reflexivity.
  - reflexivity.
Defined.

Lemma inv_sqrt_2_neq_0 : 1 / sqrt 2 <> 0.
Proof.
  assert (H : 0 < sqrt 2) by (apply sqrt_lt_R0; lra).
  unfold Rdiv. rewrite Rmult_1_l. apply Rinv_neq_0_compat. lra.
Qed.

(** C6 as stated fails on a residual layer without internal layers, which
    the constructor builds for [nLayers = 0]: every internal weight is
    zero, there being none, the stack is the identity, and the output is
    twice the input times [1 / sqrt 2]. *)
Lemma ResidualLayer_without_layers_counterexample :
  ResidualLayer_init sample_library 1 0 ActNone 0%nat
    = Ok (mkResidualLayer [] (1 / sqrt 2), 0%nat) /\
  Forall (zero_dense 1) (dense_mlp (mkResidualLayer [] (1 / sqrt 2))) /\
  ResidualLayer_forward (mkResidualLayer [] (1 / sqrt 2)) (mkTensor [1%nat] [1])
    = Ok (mkTensor [1%nat] [(1 + 1) * (1 / sqrt 2)]) /\
  ResidualLayer_forward (mkResidualLayer [] (1 / sqrt 2)) (mkTensor [1%nat] [1])
    <> Ok (mkTensor [1%nat] (map (fun v => v * (1 / sqrt 2)) [1])).
Proof.
  assert (Hrun : ResidualLayer_forward (mkResidualLayer [] (1 / sqrt 2))
                   (mkTensor [1%nat] [1])
                 = Ok (mkTensor [1%nat] [(1 + 1) * (1 / sqrt 2)])) by reflexivity.
  split; [reflexivity|]. split; [constructor|]. split; [exact Hrun|].
  rewrite Hrun. cbn [map]. intros H.
  assert (E : (1 + 1) * (1 / sqrt 2) = 1 * (1 / sqrt 2)) by congruence.
  pose proof inv_sqrt_2_neq_0. nra.
Qed.

(** ** [CrossAttention]: the mask and the softmax *)

Lemma nth_tab_any {A} n (f : nat -> A) d p :
  (p < n)%nat -> nth p (tab n f) d = f p.
Proof.
  intros Hp. unfold tab.
  rewrite (nth_indep _ d (f 0%nat)) by (rewrite length_map, length_seq; exact Hp).
  rewrite map_nth, seq_nth by exact Hp. reflexivity.
Qed.

Lemma bidx_bound d n i :
  d = n \/ d = 1%nat -> (i < n)%nat -> (bidx d i < d)%nat.
Proof.
  intros [E|E] Hi; unfold bidx; destruct (Nat.eqb_spec d 1); lia.
Qed.

Lemma eqb_or_1 d n : (d =? n) || (d =? 1) = true -> d = n \/ d = 1%nat.
Proof.
  intros H. apply orb_true_iff in H.
  destruct H as [H|H]; apply Nat.eqb_eq in H; auto.
Qed.

Lemma Ok_inj {A} (a b : A) : Ok a = Ok b -> a = b.
Proof. intros H. inversion H. reflexivity. Qed.

(** The similarity after the mask: the shape is kept, and an entry is the
    fill value [- finfo_max] where the mask is false and the similarity
    itself where it is true. *)
Lemma masked_sim_spec L m sim mask sim' B I J :
  shape sim = [B; I; J] ->
  CrossAttention_masked_sim L m sim (Some mask) = Ok sim' ->
  shape sim' = [B; I; J] /\
  forall bh i j,
    (bh < B)%nat -> (i < I)%nat -> (j < J)%nat ->
    get sim' (ravel [B; I; J] [bh; i; j])
    = if mask_at (heads m) mask bh j
      then get sim (ravel [B; I; J] [bh; i; j])
      else - finfo_max L.
Proof.
  intros Hs H. unfold CrossAttention_masked_sim, flatten_mask in H.
  unfold mask_at.
  destruct (mshape mask) as [|b rest] eqn:Hm; [discriminate H|].
  cbn [rbind] in H. unfold repeat_mask in H. cbn [mshape rbind] in H.
  unfold masked_fill_not in H. rewrite Hs in H. cbn [mshape] in H.
  set (h := heads m) in *. set (mj := numel rest) in *.
  change (1 =? 1) with true in H. rewrite orb_true_r, andb_true_r in H.
  destruct ((b * h =? B) || (b * h =? 1)) eqn:Hb; [|discriminate H].
  destruct ((mj =? J) || (mj =? 1)) eqn:Hj; [|discriminate H].
  unfold andb in H.
  apply Ok_inj in H. subst sim'. split; [reflexivity|].
  intros bh i j Hbh Hi Hj'.
  rewrite get_tab by (apply ravel3_lt; assumption).
  rewrite unravel3_ravel3 by assumption. cbn [nth].
  apply eqb_or_1 in Hb. apply eqb_or_1 in Hj.
  pose proof (bidx_bound Hb Hbh) as Hb'.
  pose proof (bidx_bound Hj Hj') as Hj''.
  assert (Hi0 : bidx 1 i = 0%nat) by reflexivity.
  rewrite Hi0.
  unfold mget at 1. cbn [mdata].
  rewrite nth_tab_any.
  2:{ apply ravel3_lt; [exact Hb'|lia|exact Hj'']. }
  rewrite unravel3_ravel3; [|exact Hb'|lia|exact Hj''].
  cbn [nth mdata mget].
  fold (mget mask (ravel [b; mj] [(bidx (b * h) bh / h)%nat; bidx mj j])).
  destruct (mget mask _); reflexivity.
Qed.

Lemma Rsum_map_const {A} (l : list A) c :
  Rsum (map (fun _ => c) l) = INR (length l) * c.
Proof.
  induction l as [|a l IH]; [simpl; lra|].
  cbn [map Rsum fold_right length]. fold (Rsum (map (fun _ : A => c) l)).
  rewrite IH, S_INR. lra.
Qed.

Lemma Rsum_tab_const n c : Rsum (tab n (fun _ => c)) = INR n * c.
Proof. unfold tab. rewrite Rsum_map_const, length_seq. reflexivity. Qed.

Lemma Rsum_exp_pos n (f : nat -> R) :
  (0 < n)%nat -> 0 < Rsum (tab n (fun j => exp (f j))).
Proof.
  intros Hn. unfold tab.
  assert (H : forall l, l <> [] -> 0 < Rsum (map (fun j => exp (f j)) l)).
  { induction l as [|a l IH]; [congruence|]. intros _.
    cbn [map Rsum fold_right]. fold (Rsum (map (fun j => exp (f j)) l)).
    pose proof (exp_pos (f a)).
    destruct l as [|b l']; [simpl; lra|].
    assert (0 < Rsum (map (fun j => exp (f j)) (b :: l'))) by (apply IH; discriminate).
    lra. }
  apply H. destruct n; [lia|]. simpl. discriminate.
Qed.

(** The softmax over the last axis of a tensor of rank 3, entry by
    entry. *)
Lemma softmax_last_row t B I J :
  shape t = [B; I; J] ->
  shape (softmax_last t) = [B; I; J] /\
  forall bh i j,
    (bh < B)%nat -> (i < I)%nat -> (j < J)%nat ->
    get (softmax_last t) (ravel [B; I; J] [bh; i; j])
    = exp (get t (ravel [B; I; J] [bh; i; j]))
      / Rsum (tab J (fun j' => exp (get t (ravel [B; I; J] [bh; i; j'])))).
Proof.
  intros Hs. unfold softmax_last. rewrite Hs. split; [reflexivity|].
  intros bh i j Hbh Hi Hj.
  change (last [B; I; J] 1%nat) with J.
  rewrite get_tab by (rewrite numel3; apply ravel3_lt; assumption).
  f_equal. apply Rsum_tab_ext. intros j' Hj'.
  rewrite !ravel3.
  replace (bh * (I * J) + i * J + j)%nat with ((bh * I + i) * J + j)%nat by lia.
  destruct (@div_mod_unique_lt J (bh * I + i) j Hj) as [Hq _].
  rewrite Hq. do 2 f_equal. lia.
Qed.

Lemma einsum_bid_bjd_shape q k s :
  einsum_bid_bjd q k = Ok s -> exists B I J, shape s = [B; I; J].
Proof.
  unfold einsum_bid_bjd.
  destruct (shape q) as [|b1 [|i [|d1 [|? ?]]]]; try discriminate.
  destruct (shape k) as [|b2 [|j [|d2 [|? ?]]]]; try discriminate.
  intros H. apply rbind_inv in H. destruct H as (b & _ & H).
  apply rbind_inv in H. destruct H as (d & _ & H).
  apply Ok_inj in H. subst s. exists b, i, j. reflexivity.
Qed.

(** *** The masked softmax with special values *)

Lemma tab_ext {A} n (f g : nat -> A) :
  (forall i, (i < n)%nat -> f i = g i) -> tab n f = tab n g.
Proof.
  intros H. unfold tab. apply map_ext_in. intros i Hi.
  apply in_seq in Hi. apply H. lia.
Qed.

Lemma tab_const {A} n (c : A) : tab n (fun _ => c) = repeat c n.
Proof. unfold tab. rewrite map_const, length_seq. reflexivity. Qed.

Lemma fget_to_float t p : fget (to_float t) p = Finite (get t p).
Proof. unfold fget, to_float, get. cbn [fdata]. apply (map_nth Finite). Qed.

Lemma fget_tab s n f p :
  (p < n)%nat -> fget (mkFTensor s (tab n f)) p = f p.
Proof. intros H. unfold fget. cbn [fdata]. apply nth_tab_any. exact H. Qed.

(** The maximum of a row that holds one finite value throughout is that
    value; the maximum of a row of negative infinities is negative
    infinity. *)
Lemma fmax_row_finite c n :
  fold_right fmax NegInf (repeat (Finite c) (S n)) = Finite c.
Proof.
  induction n as [|n IH]; [reflexivity|].
  change (repeat (Finite c) (S (S n)))
    with (Finite c :: repeat (Finite c) (S n)).
  cbn [fold_right]. rewrite IH. cbn [fmax].
  rewrite Rmax_left by lra. reflexivity.
Qed.

Lemma fmax_row_neginf n : fold_right fmax NegInf (repeat NegInf n) = NegInf.
Proof.
  induction n as [|n IH]; [reflexivity|].
  cbn [repeat fold_right]. rewrite IH. reflexivity.
Qed.

Lemma fsum_repeat_finite c n : fsum (repeat (Finite c) n) = Finite (INR n * c).
Proof.
  unfold fsum. induction n as [|n IH].
  - simpl. f_equal. lra.
  - cbn [repeat fold_right]. rewrite IH, S_INR. cbn [fadd]. f_equal. lra.
Qed.

Lemma fexp_zero E :
  0 < exp_overflow E -> 0 < exp_underflow E -> fexp E (Finite 0) = Finite 1.
Proof.
  intros Ho Hu. unfold fexp.
  destruct (Rlt_dec (exp_overflow E) 0); [lra|].
  destruct (Rlt_dec 0 (- exp_underflow E)); [lra|].
  rewrite exp_0. reflexivity.
Qed.

(** The softmax over the last axis of a tensor of rank 3, entry by entry. *)
Lemma softmax_last_f_row E t B I J :
  fshape t = [B; I; J] ->
  fshape (softmax_last_f E t) = [B; I; J] /\
  forall bh i j,
    (bh < B)%nat -> (i < I)%nat -> (j < J)%nat ->
    fget (softmax_last_f E t) (ravel [B; I; J] [bh; i; j])
    = fdiv (fexp E (fsub (fget t (ravel [B; I; J] [bh; i; j]))
                         (fold_right fmax NegInf
                            (tab J (fun j' => fget t (ravel [B; I; J] [bh; i; j']))))))
           (fsum (map (fun x =>
                         fexp E (fsub x
                           (fold_right fmax NegInf
                              (tab J (fun j' =>
                                        fget t (ravel [B; I; J] [bh; i; j']))))))
                      (tab J (fun j' => fget t (ravel [B; I; J] [bh; i; j']))))).
Proof.
  intros Hs. unfold softmax_last_f. rewrite Hs. split; [reflexivity|].
  intros bh i j Hbh Hi Hj.
  change (last [B; I; J] 1%nat) with J.
  rewrite fget_tab by (rewrite numel3; apply ravel3_lt; assumption).
  assert (Hrow : tab J (fun ji =>
                          fget t (ravel [B; I; J] [bh; i; j] / J * J + ji)%nat)
                 = tab J (fun j' => fget t (ravel [B; I; J] [bh; i; j']))).
  { apply tab_ext. intros j' Hj'. rewrite !ravel3.
    replace (bh * (I * J) + i * J + j)%nat with ((bh * I + i) * J + j)%nat by lia.
    destruct (@div_mod_unique_lt J (bh * I + i) j Hj) as [Hq _].
    rewrite Hq. f_equal. lia. }
  cbv zeta. rewrite Hrow. reflexivity.
Qed.

(** The similarity after the mask: the shape is kept, and an entry is the
    fill value where the mask is false and the similarity itself, a finite
    value, where it is true. *)
Lemma masked_sim_with_spec fill m sim mask sim' B I J :
  shape sim = [B; I; J] ->
  CrossAttention_masked_sim_with fill m sim (Some mask) = Ok sim' ->
  fshape sim' = [B; I; J] /\
  forall bh i j,
    (bh < B)%nat -> (i < I)%nat -> (j < J)%nat ->
    fget sim' (ravel [B; I; J] [bh; i; j])
    = if mask_at (heads m) mask bh j
      then Finite (get sim (ravel [B; I; J] [bh; i; j]))
      else fill.
Proof.
  intros Hs H. unfold CrossAttention_masked_sim_with, flatten_mask in H.
  unfold mask_at.
  destruct (mshape mask) as [|b rest] eqn:Hm; [discriminate H|].
  cbn [rbind] in H. unfold repeat_mask in H. cbn [mshape rbind] in H.
  unfold masked_fill_not_f in H.
  change (fshape (to_float sim)) with (shape sim) in H.
  rewrite Hs in H. cbn [mshape] in H.
  set (h := heads m) in *. set (mj := numel rest) in *.
  change (1 =? 1) with true in H. rewrite orb_true_r, andb_true_r in H.
  destruct ((b * h =? B) || (b * h =? 1)) eqn:Hb; [|discriminate H].
  destruct ((mj =? J) || (mj =? 1)) eqn:Hj; [|discriminate H].
  unfold andb in H.
  apply Ok_inj in H. subst sim'. split; [reflexivity|].
  intros bh i j Hbh Hi Hj'.
  rewrite fget_tab by (apply ravel3_lt; assumption).
  rewrite unravel3_ravel3 by assumption. cbn [nth].
  apply eqb_or_1 in Hb. apply eqb_or_1 in Hj.
  pose proof (bidx_bound Hb Hbh) as Hb'.
  pose proof (bidx_bound Hj Hj') as Hj''.
  assert (Hi0 : bidx 1 i = 0%nat) by reflexivity.
  rewrite Hi0.
  unfold mget at 1. cbn [mdata].
  rewrite nth_tab_any.
  2:{ apply ravel3_lt; [exact Hb'|lia|exact Hj'']. }
  rewrite unravel3_ravel3; [|exact Hb'|lia|exact Hj''].
  cbn [nth mdata mget].
  fold (mget mask (ravel [b; mj] [(bidx (b * h) bh / h)%nat; bidx mj j])).
  rewrite fget_to_float.
  destruct (mget mask _); reflexivity.
Qed.

Lemma CrossAttention_sim_shape m x context sim :
  CrossAttention_sim m x context = Ok sim ->
  exists B I J, shape sim = [B; I; J].
Proof.
  unfold CrossAttention_sim. intros H.
  apply rbind_inv in H. destruct H as (qkv & _ & H).
  apply rbind_inv in H. destruct H as (sim0 & Hsim0 & H).
  apply Ok_inj in H. subst sim.
  destruct (@einsum_bid_bjd_shape _ _ sim0 Hsim0) as (B & I & J & Hs0).
  exists B, I, J. exact Hs0.
Qed.

(** The softmax of a row that holds one finite value throughout: every
    weight is [1 / J]. *)
Lemma softmax_last_f_uniform E t B I J bh i c :
  0 < exp_overflow E -> 0 < exp_underflow E ->
  fshape t = [B; I; J] ->
  (bh < B)%nat -> (i < I)%nat ->
  (forall j, (j < J)%nat -> fget t (ravel [B; I; J] [bh; i; j]) = Finite c) ->
  forall j, (j < J)%nat ->
    fget (softmax_last_f E t) (ravel [B; I; J] [bh; i; j]) = Finite (1 / INR J).
Proof.
  intros Ho Hu Hs Hbh Hi Hrow j Hj.
  destruct (@softmax_last_f_row E t B I J Hs) as (_ & Hsoft).
  rewrite (Hsoft bh i j Hbh Hi Hj).
  rewrite (tab_ext _ (fun _ => Finite c) Hrow), tab_const, (Hrow j Hj).
  destruct J as [|n]; [lia|].
  rewrite fmax_row_finite, map_repeat.
  cbn [fsub]. replace (c - c) with 0 by lra.
  rewrite (fexp_zero E Ho Hu), fsum_repeat_finite.
  assert (Hn : 0 < INR (S n)) by (apply lt_0_INR; lia).
  unfold fdiv.
  destruct (Req_dec_T (INR (S n) * 1) 0) as [E0|_]; [lra|].
  f_equal. field. lra.
Qed.

(** The softmax of a row of negative infinities is NaN throughout. *)
Lemma softmax_last_f_neginf E t B I J bh i :
  fshape t = [B; I; J] ->
  (bh < B)%nat -> (i < I)%nat ->
  (forall j, (j < J)%nat -> fget t (ravel [B; I; J] [bh; i; j]) = NegInf) ->
  forall j, (j < J)%nat ->
    fget (softmax_last_f E t) (ravel [B; I; J] [bh; i; j]) = NaN.
Proof.
  intros Hs Hbh Hi Hrow j Hj.
  destruct (@softmax_last_f_row E t B I J Hs) as (_ & Hsoft).
  rewrite (Hsoft bh i j Hbh Hi Hj).
  rewrite (tab_ext _ (fun _ => NegInf) Hrow), tab_const, (Hrow j Hj).
  rewrite fmax_row_neginf. reflexivity.
Qed.

(** C5.  With a mask, [forward] replaces every entry of the similarity
    whose mask element is false by [- finfo_max], the negative of the
    largest finite value of the dtype: a finite value, not negative
    infinity; it leaves the other entries.  The attention weights are the
    softmax of the result.  On a row with at least one context position,
    all of them masked out, every weight is the finite value [1 / J] for
    the [J] context positions, so none is NaN or an infinity, and the row
    sums to 1.  With negative infinity as the fill value the same row
    would be NaN throughout. *)
Theorem CrossAttention_masked_rows_uniform :
  forall L E m x context mask attn,
    0 < exp_overflow E -> 0 < exp_underflow E ->
    CrossAttention_attn_f L E m x context (Some mask) = Ok attn ->
    exists sim sim' B I J,
      CrossAttention_sim m x context = Ok sim /\
      shape sim = [B; I; J] /\
      CrossAttention_masked_sim_f L m sim (Some mask) = Ok sim' /\
      fshape sim' = [B; I; J] /\
      attn = softmax_last_f E sim' /\
      (forall bh i j,
          (bh < B)%nat -> (i < I)%nat -> (j < J)%nat ->
          fget sim' (ravel [B; I; J] [bh; i; j])
          = if mask_at (heads m) mask bh j
            then Finite (get sim (ravel [B; I; J] [bh; i; j]))
            else Finite (- finfo_max L)) /\
      (forall bh i,
          (bh < B)%nat -> (i < I)%nat -> (0 < J)%nat ->
          (forall j, (j < J)%nat -> mask_at (heads m) mask bh j = false) ->
          (forall j, (j < J)%nat ->
                     fget attn (ravel [B; I; J] [bh; i; j]) = Finite (1 / INR J)) /\
          fsum (tab J (fun j => fget attn (ravel [B; I; J] [bh; i; j])))
          = Finite 1 /\
          (forall sim_inf,
              CrossAttention_masked_sim_with NegInf m sim (Some mask)
              = Ok sim_inf ->
              forall j, (j < J)%nat ->
                fget (softmax_last_f E sim_inf) (ravel [B; I; J] [bh; i; j])
                = NaN)).
Proof.
  intros L E m x context mask attn Ho Hu H. unfold CrossAttention_attn_f in H.
  apply rbind_inv in H. destruct H as (sim & Hsim & H).
  apply rbind_inv in H. destruct H as (sim' & Hmask & H).
  apply Ok_inj in H.
  destruct (CrossAttention_sim_shape _ _ _ Hsim) as (B & I & J & Hs).
  destruct (@masked_sim_with_spec _ m sim mask sim' B I J Hs Hmask)
    as (Hs' & Hfill).
  exists sim, sim', B, I, J.
  split; [exact Hsim|]. split; [exact Hs|]. split; [exact Hmask|].
  split; [exact Hs'|]. split; [symmetry; exact H|]. split; [exact Hfill|].
  intros bh i Hbh Hi HJ Hall.
  assert (Hrow : forall j, (j < J)%nat ->
                 fget sim' (ravel [B; I; J] [bh; i; j]) = Finite (- finfo_max L)).
  { intros j Hj. rewrite (Hfill bh i j Hbh Hi Hj), (Hall j Hj). reflexivity. }
  assert (Hent : forall j, (j < J)%nat ->
                 fget attn (ravel [B; I; J] [bh; i; j]) = Finite (1 / INR J)).
  { intros j Hj. rewrite <- H.
    exact (@softmax_last_f_uniform E sim' B I J bh i _ Ho Hu Hs' Hbh Hi Hrow j Hj). }
  split; [exact Hent|]. split.
  - rewrite (tab_ext _ (fun _ => Finite (1 / INR J)) Hent), tab_const.
    rewrite fsum_repeat_finite. f_equal. field.
    apply Rgt_not_eq, lt_0_INR. exact HJ.
  - intros sim_inf Hinf j Hj.
    destruct (@masked_sim_with_spec _ m sim mask sim_inf B I J Hs Hinf)
      as (Hsi & Hfi).
    apply (@softmax_last_f_neginf E sim_inf B I J bh i Hsi Hbh Hi); [|exact Hj].
    intros j' Hj'. rewrite (Hfi bh i j' Hbh Hi Hj'), (Hall j' Hj'). reflexivity.
Qed.

Lemma CrossAttention_masked_rows_uniform_witness :
  exists attn,
    CrossAttention_attn_f sample_library sample_float_exp example_attention
      (mkTensor [1; 1; 1]%nat [1])
      (Some (mkTensor [1; 2; 1]%nat [1; 1]))
      (Some (mkMask [1; 2]%nat [false; false]))
    = Ok attn /\
    fget attn 0 = Finite (1 / INR 2) /\
    fget attn 1 = Finite (1 / INR 2).
Proof.
  eexists. split; [reflexivity|].
  match goal with
  | |- fget ?a _ = _ /\ _ => set (attn := a)
  end.
  assert (Ho : 0 < exp_overflow sample_float_exp) by (simpl; lra).
  assert (Hu : 0 < exp_underflow sample_float_exp) by (simpl; lra).
  destruct (@CrossAttention_masked_rows_uniform sample_library sample_float_exp
              example_attention
              (mkTensor [1; 1; 1]%nat [1])
              (Some (mkTensor [1; 2; 1]%nat [1; 1]))
              (mkMask [1; 2]%nat [false; false]) attn Ho Hu eq_refl)
    as (sim & sim' & B & I & J & _ & _ & _ & Hs' & Ha & _ & Hrow).
  assert (Hshape : [1; 1; 2]%nat = [B; I; J]).
  { rewrite <- Hs'. change (fshape attn = fshape sim'). rewrite Ha. reflexivity. }
  injection Hshape as <- <- <-.
  destruct (Hrow 0%nat 0%nat) as (Hent & _); try lia.
  { intros [|[|j]] Hj; try reflexivity. lia. }
  split.
  - exact (Hent 0%nat ltac:(lia)).
  - exact (Hent 1%nat ltac:(lia)).
Defined.

(** * Further properties of the module *)

(** ** Coordinates and flat positions, for every rank *)

Lemma unravel_length s : forall p, length (unravel s p) = length s.
Proof.
  induction s as [|d s IH]; intros p; simpl; [reflexivity|].
  rewrite IH. reflexivity.
Qed.

Lemma numel_cons d s : numel (d :: s) = (d * numel s)%nat.
Proof. reflexivity. Qed.

Lemma ravel_unravel s : forall p, (p < numel s)%nat -> ravel s (unravel s p) = p.
Proof.
  induction s as [|d s IH]; intros p Hp.
  - simpl in *. lia.
  - rewrite numel_cons in Hp. cbn [unravel ravel].
    assert (Hn : numel s <> 0%nat) by (intros E; rewrite E in Hp; lia).
    rewrite IH by (apply Nat.mod_upper_bound; exact Hn).
    pose proof (Nat.div_mod_eq p (numel s)). lia.
Qed.

Lemma unravel_lt s : forall p a,
  (p < numel s)%nat -> (a < length s)%nat ->
  (nth a (unravel s p) 0 < nth a s 0)%nat.
Proof.
  induction s as [|d s IH]; intros p a Hp Ha; [simpl in Ha; lia|].
  rewrite numel_cons in Hp.
  assert (Hn : numel s <> 0%nat) by (intros E; rewrite E in Hp; lia).
  cbn [unravel]. destruct a as [|a]; cbn [nth].
  - apply Nat.Div0.div_lt_upper_bound. lia.
  - apply IH; [apply Nat.mod_upper_bound; exact Hn|simpl in Ha; lia].
Qed.

(** ** [_standardize] *)

Lemma existsb_eqb_In a axes : existsb (Nat.eqb a) axes = true <-> In a axes.
Proof.
  rewrite existsb_exists. split.
  - intros (x & Hx & E). apply Nat.eqb_eq in E. subst. exact Hx.
  - intros H. exists a. split; [exact H|apply Nat.eqb_refl].
Qed.

Lemma same_slice_iff axes c1 c2 :
  same_slice axes c1 c2 = true <-> slice_agree (length c1) axes c1 c2.
Proof.
  unfold same_slice, slice_agree. rewrite forallb_forall. split.
  - intros H a Ha Hn. specialize (H a). rewrite in_seq in H.
    assert (Hin : (0 <= a < 0 + length c1)%nat) by lia.
    apply H in Hin. apply orb_true_iff in Hin. destruct Hin as [E|E].
    + apply existsb_eqb_In in E. contradiction.
    + apply Nat.eqb_eq. exact E.
  - intros H a Ha. apply in_seq in Ha. apply orb_true_iff.
    destruct (existsb (Nat.eqb a) axes) eqn:E; [left; reflexivity|right].
    apply Nat.eqb_eq. apply H; [lia|].
    intros Hin. apply existsb_eqb_In in Hin. congruence.
Qed.

Lemma same_slice_unravel_iff s axes p q :
  same_slice axes (unravel s p) (unravel s q) = true
  <-> slice_agree (length s) axes (unravel s p) (unravel s q).
Proof. rewrite same_slice_iff, unravel_length. reflexivity. Qed.

Lemma in_slice_of s axes p q :
  In q (slice_of s axes p)
  <-> (q < numel s)%nat /\ slice_agree (length s) axes (unravel s p) (unravel s q).
Proof.
  unfold slice_of. rewrite filter_In, in_seq, same_slice_unravel_iff.
  split; intros [H1 H2]; split; try assumption; lia.
Qed.

Lemma slice_of_self s axes p : (p < numel s)%nat -> In p (slice_of s axes p).
Proof. intros Hp. apply in_slice_of. split; [exact Hp|]. intros a _ _. reflexivity. Qed.

(** The positions reduced together form a class: every member of a slice
    has that very slice. *)
Lemma slice_of_member s axes p q :
  In q (slice_of s axes p) -> slice_of s axes q = slice_of s axes p.
Proof.
  intros Hq. apply in_slice_of in Hq. destruct Hq as [_ Hpq].
  unfold slice_of. apply filter_ext. intros r.
  destruct (same_slice axes (unravel s p) (unravel s r)) eqn:E.
  - apply same_slice_unravel_iff. apply same_slice_unravel_iff in E.
    intros a Ha Hn. rewrite <- (Hpq a Ha Hn). apply E; assumption.
  - destruct (same_slice axes (unravel s q) (unravel s r)) eqn:E'; [|reflexivity].
    apply same_slice_unravel_iff in E'.
    assert (E2 : same_slice axes (unravel s p) (unravel s r) = true).
    { apply same_slice_unravel_iff. intros a Ha Hn.
      rewrite (Hpq a Ha Hn). apply E'; assumption. }
    congruence.
Qed.

Lemma Rsum_map_sub_div {A} (l : list A) (f : A -> R) m c :
  Rsum (map (fun q => (f q - m) / c) l)
  = (Rsum (map f l) - INR (length l) * m) / c.
Proof.
  induction l as [|a l IH].
  - simpl. unfold Rdiv. ring.
  - cbn [map Rsum fold_right length].
    fold (Rsum (map (fun q => (f q - m) / c) l)). fold (Rsum (map f l)).
    rewrite IH, S_INR. unfold Rdiv. ring.
Qed.

Lemma Rsum_map_ext_in {A} (l : list A) (f g : A -> R) :
  (forall a, In a l -> f a = g a) -> Rsum (map f l) = Rsum (map g l).
Proof. intros H. f_equal. apply map_ext_in. exact H. Qed.

Lemma Rsum_sq_nonneg {A} (l : list A) (f : A -> R) :
  0 <= Rsum (map (fun q => f q ^ 2) l).
Proof.
  induction l as [|a l IH]; [simpl; lra|].
  cbn [map Rsum fold_right]. fold (Rsum (map (fun q => f q ^ 2) l)).
  pose proof (pow2_ge_0 (f a)). lra.
Qed.

Lemma Rsum_map_scale {A} (l : list A) (f : A -> R) k :
  Rsum (map (fun q => f q * k) l) = Rsum (map f l) * k.
Proof.
  induction l as [|a l IH]; [simpl; ring|].
  cbn [map Rsum fold_right].
  fold (Rsum (map (fun q => f q * k) l)). fold (Rsum (map f l)).
  rewrite IH. ring.
Qed.

(** X1.  What the formula of [_standardize] achieves over the reals, in
    exact arithmetic without rounding, on each slice it reduces over (a row
    of a matrix, a vector along the first two axes of a rank 3 tensor):
    when the slice has at least two elements, the result has mean 0 on it
    and unbiased variance [v / (v + eps)] for the variance [v] the slice
    had before and [eps = 1e-6], a value in [[0, 1)]. *)
Theorem _standardize_mean_and_variance :
  forall kernel t2 p,
    _standardize kernel = Ok t2 ->
    (p < numel (shape kernel))%nat ->
    (2 <= length (slice_of (shape kernel) (standardize_axis kernel) p))%nat ->
    let g := slice_of (shape kernel) (standardize_axis kernel) p in
    let v := var_over kernel g in
    shape t2 = shape kernel /\
    mean_over t2 g = 0 /\
    var_over t2 g = v / (v + 1 / 1000000) /\
    0 <= var_over t2 g < 1.
Proof.
  intros kernel t2 p H Hp Hlen g v.
  unfold _standardize in H.
  destruct (forallb _ _); [|discriminate H].
  apply Ok_inj in H. subst t2. cbn zeta. split; [reflexivity|].
  set (m := mean_over kernel g).
  set (c := sqrt (v + 1 / 1000000)).
  set (t2 := mkTensor _ _).
  assert (Hget : forall q, In q g -> get t2 q = (get kernel q - m) / c).
  { intros q Hq. unfold t2. rewrite get_tab.
    - cbv beta zeta. rewrite (slice_of_member _ _ _ _ Hq). reflexivity.
    - apply in_slice_of in Hq. tauto. }
  assert (Hn2 : 2 <= INR (length g)).
  { change 2 with (INR 2). apply le_INR. exact Hlen. }
  assert (Hmean : mean_over t2 g = 0).
  { unfold mean_over at 1. rewrite (Rsum_map_ext_in _ _ _ Hget).
    rewrite Rsum_map_sub_div. unfold m, mean_over. unfold Rdiv.
    replace (Rsum (map (get kernel) g) -
             INR (length g) * (Rsum (map (get kernel) g) * / INR (length g)))
      with 0 by (field; lra).
    ring. }
  assert (Hv : 0 <= v).
  { unfold v, var_over. apply Rmult_le_pos.
    - apply (Rsum_sq_nonneg g (fun q => get kernel q - mean_over kernel g)).
    - apply Rlt_le, Rinv_0_lt_compat. lra. }
  assert (Hc2 : c * c = v + 1 / 1000000) by (unfold c; apply sqrt_sqrt; lra).
  assert (Hc : c <> 0).
  { intros E. rewrite E in Hc2. lra. }
  assert (Hvar : var_over t2 g = v / (v + 1 / 1000000)).
  { unfold var_over at 1. rewrite Hmean.
    rewrite (Rsum_map_ext_in g _ (fun q => (get kernel q - m) ^ 2 * (/ c * / c))).
    - rewrite Rsum_map_scale, <- Hc2. unfold v, var_over. fold m.
      field. split; [lra|exact Hc].
    - intros q Hq. rewrite (Hget q Hq). field. exact Hc. }
  split; [exact Hmean|]. split; [exact Hvar|].
  rewrite Hvar. split.
  - apply Rmult_le_pos; [exact Hv|]. apply Rlt_le, Rinv_0_lt_compat. lra.
  - apply Rmult_lt_reg_r with (r := v + 1 / 1000000); [lra|].
    unfold Rdiv. rewrite Rmult_assoc, Rinv_l by lra. lra.
Qed.

Lemma _standardize_mean_and_variance_witness :
  mean_over
    (mkTensor [2; 3]%nat
       (tab 6 (fun p =>
          let k := mkTensor [2; 3]%nat [1; 0; 0; 0; 1; 0] in
          let g := slice_of [2; 3]%nat [1%nat] p in
          (get k p - mean_over k g) / sqrt (var_over k g + 1 / 1000000))))
    [0; 1; 2]%nat = 0.
Proof.
  exact (proj1 (proj2 (@_standardize_mean_and_variance
                         (mkTensor [2; 3]%nat [1; 0; 0; 0; 1; 0]) _ 0%nat
                         eq_refl ltac:(simpl; lia) ltac:(simpl; lia)))).
Defined.

(** ** [he_orthogonal_init]: when it returns *)

Lemma orthogonal_cursor L t pos t1 pos' :
  (2 <= rank t)%nat ->
  orthogonal_ L t pos = Ok (t1, pos') -> pos' = (pos + numel (shape t))%nat.
Proof.
  unfold orthogonal_, rank. intros Hr.
  destruct (Nat.ltb_spec (length (shape t)) 2) as [Hlt|_]; [lia|].
  destruct (Nat.eqb_spec (numel (shape t)) 0) as [E|NE].
  - unfold ret. intros H. apply Ok_inj in H.
    apply (f_equal snd) in H. cbn [snd] in H. rewrite E. lia.
  - unfold bind. rewrite draw_Ok. unfold ret. intros H. apply Ok_inj in H.
    apply (f_equal snd) in H. cbn [snd] in H. rewrite <- H.
    destruct (shape t) as [|r rest]; [simpl in Hr; lia|].
    cbn [nth]. rewrite numel_cons in *.
    assert (Hr0 : r <> 0%nat) by (intros E; subst; simpl in NE; lia).
    rewrite (Nat.mul_comm r (numel rest)), Nat.div_mul by exact Hr0. lia.
Qed.

Lemma he_orthogonal_init_cases :
  forall L t pos,
    ((rank t < 2)%nat ->
     he_orthogonal_init L t pos
     = Raise (ValueError "Only tensors with 2 or more dimensions are supported")) /\
    ((2 <= rank t)%nat -> he_fan_in (shape t) = 0%nat ->
     he_orthogonal_init L t pos = Raise ZeroDivisionError) /\
    ((2 <= rank t)%nat -> he_fan_in (shape t) <> 0%nat ->
     exists t',
       he_orthogonal_init L t pos = Ok (t', (pos + numel (shape t))%nat) /\
       shape t' = shape t /\ well_formed t').
Proof.
  intros L t pos. split; [|split].
  - intros Hr. unfold he_orthogonal_init, bind, orthogonal_.
    destruct (Nat.ltb_spec (rank t) 2) as [_|Hge]; [reflexivity|lia].
  - intros Hr Hf.
    destruct (@he_orthogonal_init_run L t pos Hr)
      as (t1 & t2 & pos' & _ & _ & _ & _ & _ & Hrun).
    rewrite Hrun. unfold inv_sqrt_fan. rewrite Hf. reflexivity.
  - intros Hr Hf.
    destruct (@he_orthogonal_init_run L t pos Hr)
      as (t1 & t2 & pos' & H1 & _ & _ & Hs2 & Hw2 & Hrun).
    rewrite (orthogonal_cursor L t pos Hr H1) in Hrun.
    unfold inv_sqrt_fan in Hrun.
    destruct (Nat.eqb_spec (he_fan_in (shape t)) 0) as [E|_]; [contradiction|].
    eexists. split; [exact Hrun|]. split; [exact Hs2|].
    unfold well_formed, scale_by in *. cbn [data shape].
    rewrite length_map. exact Hw2.
Qed.

(** X2.  [he_orthogonal_init] refuses a tensor of fewer than two axes with
    the [ValueError] of [orthogonal_]; on a tensor of at least two axes it
    divides by the fan-in, so a fan-in of 0 is a [ZeroDivisionError];
    otherwise it returns a well-formed tensor of the shape it was given,
    having drawn as many random numbers as the tensor has elements. *)
Theorem he_orthogonal_init_outcome :
  forall L t pos,
    ((rank t < 2)%nat ->
     he_orthogonal_init L t pos
     = Raise (ValueError "Only tensors with 2 or more dimensions are supported")) /\
    ((2 <= rank t)%nat -> he_fan_in (shape t) = 0%nat ->
     he_orthogonal_init L t pos = Raise ZeroDivisionError) /\
    ((2 <= rank t)%nat -> he_fan_in (shape t) <> 0%nat ->
     exists t',
       he_orthogonal_init L t pos = Ok (t', (pos + numel (shape t))%nat) /\
       shape t' = shape t /\ well_formed t').
Proof. exact he_orthogonal_init_cases. Qed.

Lemma he_orthogonal_init_outcome_witness :
  he_orthogonal_init sample_library (mkTensor [3%nat] [0; 0; 0]) 0%nat
  = Raise (ValueError "Only tensors with 2 or more dimensions are supported") /\
  he_orthogonal_init sample_library (mkTensor [2; 0]%nat []) 0%nat
  = Raise ZeroDivisionError /\
  exists t',
    he_orthogonal_init sample_library (mkTensor [2; 2; 2; 1]%nat (repeat 0 8)) 0%nat
    = Ok (t', (0 + numel [2; 2; 2; 1])%nat) /\
    shape t' = [2; 2; 2; 1]%nat /\ well_formed t'.
Proof.
  split; [|split].
  - apply (proj1 (he_orthogonal_init_outcome sample_library
                    (mkTensor [3%nat] [0; 0; 0]) 0%nat)).
    unfold rank. simpl. lia.
  - apply (proj1 (proj2 (he_orthogonal_init_outcome sample_library
                           (mkTensor [2; 0]%nat []) 0%nat))).
    + unfold rank. simpl. lia.
    + reflexivity.
  - apply (proj2 (proj2 (he_orthogonal_init_outcome sample_library
                           (mkTensor [2; 2; 2; 1]%nat (repeat 0 8)) 0%nat))).
    + unfold rank. simpl. lia.
    + discriminate.
Defined.

(** ** [Dense]: what the constructor builds and what [forward] returns *)

Lemma F_linear_shape x w b s n_out n_in :
  shape w = [n_out; n_in] -> shape x = s ++ [n_in] ->
  exists y,
    F_linear x w b = Ok y /\ shape y = s ++ [n_out] /\ well_formed y.
Proof.
  intros Hw Hx. unfold F_linear.
  rewrite Hw, Hx, rev_app_distr. cbn [rev app]. rewrite Nat.eqb_refl.
  rewrite removelast_last.
  eexists. split; [reflexivity|]. split; [reflexivity|].
  unfold well_formed. cbn [data shape].
  rewrite length_tab, numel_app_last. reflexivity.
Qed.

Lemma F_linear_width_error x w b s n_out n_in k :
  shape w = [n_out; n_in] -> shape x = s ++ [k] -> k <> n_in ->
  F_linear x w b = Raise (RuntimeError "mat1 and mat2 shapes cannot be multiplied").
Proof.
  intros Hw Hx Hk. unfold F_linear.
  rewrite Hw, Hx, rev_app_distr. cbn [rev app].
  destruct (Nat.eqb_spec k n_in); [contradiction|reflexivity].
Qed.

Lemma Dense_init_cases L in_f out_f with_bias act pos :
  (in_f = 0%nat ->
   Dense_init L in_f out_f with_bias act pos = Raise ZeroDivisionError) /\
  (in_f <> 0%nat -> recognised_activation act = false ->
   Dense_init L in_f out_f with_bias act pos
   = Raise (NotImplementedError
              "Activation function not implemented for GemNet (yet).")) /\
  (in_f <> 0%nat -> recognised_activation act = true ->
   exists d pos',
     Dense_init L in_f out_f with_bias act pos = Ok (d, pos') /\
     in_features (linear d) = in_f /\ out_features (linear d) = out_f /\
     shape (weight (linear d)) = [out_f; in_f] /\
     well_formed (weight (linear d)) /\
     match bias (linear d) with
     | Some bt => with_bias = true /\ shape bt = [out_f] /\
                  length (data bt) = out_f /\
                  Forall (fun v => v = 0) (data bt)
     | None => with_bias = false
     end).
Proof.
  destruct (nn_Linear_init_Ok L in_f out_f with_bias pos)
    as (l & p1 & Hl & Hin & Hout & Hws & Hwl & Hb).
  assert (Hr : (2 <= rank (weight l))%nat) by (unfold rank; rewrite Hws; simpl; lia).
  assert (Hfan : he_fan_in (shape (weight l)) = in_f) by (rewrite Hws; reflexivity).
  destruct (he_orthogonal_init_cases L (weight l) p1) as (_ & Hz & Hok).
  unfold Dense_init. rewrite (bind_Ok _ _ _ Hl).
  unfold Dense_reset_parameters.
  split; [|split].
  - intros E. unfold bind. rewrite Hz; [reflexivity|exact Hr|congruence].
  - intros NE Hact.
    destruct Hok as (t' & Ht' & _); [exact Hr|congruence|].
    unfold bind, ret, lift. rewrite Ht'.
    rewrite (select_activation_unrecognised _ Hact). reflexivity.
  - intros NE Hact.
    destruct Hok as (t' & Ht' & Hs' & Hw'); [exact Hr|congruence|].
    destruct (select_activation_recognised _ Hact) as (a & Ha).
    unfold bind, ret, lift. rewrite Ht', Ha.
    eexists. eexists. split; [reflexivity|]. cbn.
    split; [exact Hin|]. split; [exact Hout|].
    split; [congruence|]. split; [exact Hw'|].
    destruct (bias l) as [bt|]; [|exact Hb].
    destruct Hb as (Hb1 & Hb2 & Hb3).
    split; [exact Hb1|]. split; [exact Hb2|].
    split; [rewrite fill_length; exact Hb3|apply fill_all].
Qed.

(** X3.  The constructor of [Dense] initialises the weight before it looks
    at the activation: with [in_features = 0] the fan-in is 0 and the
    construction is a [ZeroDivisionError], whatever the activation; with a
    positive [in_features] an unrecognised activation is the
    [NotImplementedError]; and otherwise the layer is built with a
    well-formed weight of shape [(out_features, in_features)] and, when a
    bias was asked for, a bias of shape [(out_features)] that is all
    zero. *)
Theorem Dense_init_outcome :
  forall L in_f out_f with_bias act pos,
    (in_f = 0%nat ->
     Dense_init L in_f out_f with_bias act pos = Raise ZeroDivisionError) /\
    (in_f <> 0%nat -> recognised_activation act = false ->
     Dense_init L in_f out_f with_bias act pos
     = Raise (NotImplementedError
                "Activation function not implemented for GemNet (yet).")) /\
    (in_f <> 0%nat -> recognised_activation act = true ->
     exists d pos',
       Dense_init L in_f out_f with_bias act pos = Ok (d, pos') /\
       in_features (linear d) = in_f /\ out_features (linear d) = out_f /\
       shape (weight (linear d)) = [out_f; in_f] /\
       well_formed (weight (linear d)) /\
       match bias (linear d) with
       | Some bt => with_bias = true /\ shape bt = [out_f] /\
                    length (data bt) = out_f /\
                    Forall (fun v => v = 0) (data bt)
       | None => with_bias = false
       end).
Proof. exact Dense_init_cases. Qed.

Lemma Dense_init_outcome_witness :
  Dense_init sample_library 0 3 true (ActStr "swish") 0%nat = Raise ZeroDivisionError /\
  Dense_init sample_library 2 3 true (ActStr "tanh") 0%nat
  = Raise (NotImplementedError
             "Activation function not implemented for GemNet (yet).") /\
  exists d pos',
    Dense_init sample_library 2 3 true (ActStr "Swish") 0%nat = Ok (d, pos') /\
    in_features (linear d) = 2%nat /\ out_features (linear d) = 3%nat /\
    shape (weight (linear d)) = [3; 2]%nat /\
    well_formed (weight (linear d)) /\
    match bias (linear d) with
    | Some bt => true = true /\ shape bt = [3%nat] /\
                 length (data bt) = 3%nat /\
                 Forall (fun v => v = 0) (data bt)
    | None => true = false
    end.
Proof.
  split; [|split].
  - exact (proj1 (Dense_init_outcome sample_library 0 3 true (ActStr "swish") 0%nat)
                 eq_refl).
  - apply (proj1 (proj2 (Dense_init_outcome sample_library 2 3 true
                           (ActStr "tanh") 0%nat))); [discriminate|reflexivity].
  - apply (proj2 (proj2 (Dense_init_outcome sample_library 2 3 true
                           (ActStr "Swish") 0%nat))); [discriminate|reflexivity].
Defined.

Lemma Dense_forward_cases d x s k n_out n_in :
  shape (weight (linear d)) = [n_out; n_in] ->
  shape x = s ++ [k] ->
  (k = n_in ->
   exists y, Dense_forward d x = Ok y /\ shape y = s ++ [n_out] /\ well_formed y) /\
  (k <> n_in ->
   Dense_forward d x
   = Raise (RuntimeError "mat1 and mat2 shapes cannot be multiplied")).
Proof.
  intros Hw Hx. unfold Dense_forward, nn_Linear_forward. split.
  - intros E. subst k.
    destruct (@F_linear_shape x (weight (linear d)) (bias (linear d)) s n_out n_in Hw Hx)
      as (y & Hy & Hys & Hyw).
    rewrite Hy. cbn [rbind]. eexists. split; [reflexivity|].
    destruct (_activation d); cbn [apply_activation]; [|split; assumption].
    unfold ScaledSiLU_forward, well_formed in *. cbn [shape data].
    rewrite length_map. split; assumption.
  - intros NE.
    rewrite (@F_linear_width_error x (weight (linear d)) (bias (linear d))
               s n_out n_in k Hw Hx NE).
    reflexivity.
Qed.

(** X4.  The forward pass of a [Dense] layer with a weight of shape
    [(out, in)] acts on the last axis only: an input of shape
    [(..., in)] gives a well-formed output of shape [(..., out)] with the
    leading axes kept, and an input whose last dimension is not [in] is
    refused with the shape error of the matrix product. *)
Theorem Dense_forward_shape :
  forall d x s k n_out n_in,
    shape (weight (linear d)) = [n_out; n_in] ->
    shape x = s ++ [k] ->
    (k = n_in ->
     exists y, Dense_forward d x = Ok y /\ shape y = s ++ [n_out] /\ well_formed y) /\
    (k <> n_in ->
     Dense_forward d x
     = Raise (RuntimeError "mat1 and mat2 shapes cannot be multiplied")).
Proof. exact Dense_forward_cases. Qed.

Lemma Dense_forward_shape_witness :
  (exists y,
      Dense_forward
        (mkDense (mk_nn_Linear 2 3 (mkTensor [3; 2]%nat [1; 2; 3; 4; 5; 6]) None)
                 ScaledSiLU)
        (mkTensor [4; 1; 2]%nat (repeat 1 8)) = Ok y /\
      shape y = [4; 1; 3]%nat /\ well_formed y) /\
  Dense_forward
    (mkDense (mk_nn_Linear 2 3 (mkTensor [3; 2]%nat [1; 2; 3; 4; 5; 6]) None)
             ScaledSiLU)
    (mkTensor [4; 3]%nat (repeat 1 12))
  = Raise (RuntimeError "mat1 and mat2 shapes cannot be multiplied").
Proof.
  split.
  - exact (proj1 (@Dense_forward_shape
                    (mkDense (mk_nn_Linear 2 3 (mkTensor [3; 2]%nat [1; 2; 3; 4; 5; 6]) None)
                             ScaledSiLU)
                    (mkTensor [4; 1; 2]%nat (repeat 1 8))
                    [4; 1]%nat 2%nat 3%nat 2%nat eq_refl eq_refl) eq_refl).
  - apply (proj2 (@Dense_forward_shape
                    (mkDense (mk_nn_Linear 2 3 (mkTensor [3; 2]%nat [1; 2; 3; 4; 5; 6]) None)
                             ScaledSiLU)
                    (mkTensor [4; 3]%nat (repeat 1 12))
                    [4%nat] 3%nat 3%nat 2%nat eq_refl eq_refl)).
    discriminate.
Defined.

(** ** [ResidualLayer]: shapes *)

Lemma Dense_init_inv L in_f out_f with_bias act pos d pos' :
  Dense_init L in_f out_f with_bias act pos = Ok (d, pos') ->
  in_f <> 0%nat /\
  shape (weight (linear d)) = [out_f; in_f] /\
  (with_bias = false -> bias (linear d) = None).
Proof.
  intros H.
  destruct (Dense_init_cases L in_f out_f with_bias act pos) as (Hz & Hbad & Hok).
  destruct (Nat.eq_dec in_f 0) as [E|NE]; [rewrite (Hz E) in H; discriminate H|].
  destruct (recognised_activation act) eqn:Hact;
    [|rewrite (Hbad NE eq_refl) in H; discriminate H].
  destruct (Hok NE eq_refl) as (d0 & p0 & Hd & _ & _ & Hs & _ & Hb).
  rewrite Hd in H. apply Ok_inj in H. inversion H; subst d0 p0.
  split; [exact NE|]. split; [exact Hs|].
  intros Hf. destruct (bias (linear d)); [|reflexivity].
  destruct Hb as (Hb & _). congruence.
Qed.

Lemma Dense_stack_inv L units act : forall n pos ds pos',
  Dense_stack L units n act pos = Ok (ds, pos') ->
  length ds = n /\
  Forall (fun d => shape (weight (linear d)) = [units; units] /\
                   bias (linear d) = None) ds /\
  (n <> 0%nat -> units <> 0%nat).
Proof.
  induction n as [|n IH]; intros pos ds pos' H; cbn [Dense_stack] in H.
  - unfold ret in H. apply Ok_inj in H. inversion H. subst.
    split; [reflexivity|]. split; [constructor|]. congruence.
  - inv_bind H. inv_bind Hk. unfold ret in Hk0. apply Ok_inj in Hk0.
    inversion Hk0; subst; clear Hk0.
    destruct (Dense_init_inv _ _ _ _ _ _ Hm) as (Hu & Hs & Hb).
    destruct (IH _ _ _ Hm0) as (Hlen & Hall & _).
    split; [simpl; congruence|]. split; [|intros _; exact Hu].
    constructor; [|exact Hall]. split; [exact Hs|apply Hb; reflexivity].
Qed.

Lemma Sequential_forward_width units ds : forall x s,
  Forall (fun d => shape (weight (linear d)) = [units; units] /\
                   bias (linear d) = None) ds ->
  shape x = s ++ [units] -> well_formed x ->
  exists y,
    Sequential_forward ds x = Ok y /\ shape y = s ++ [units] /\ well_formed y.
Proof.
  induction ds as [|d rest IH]; intros x s Hall Hx Hw.
  - exists x. cbn [Sequential_forward]. auto.
  - inversion Hall as [|? ? [Hd _] Hrest]; subst.
    destruct (@Dense_forward_cases d x s units units units Hd Hx) as (Hok & _).
    destruct (Hok eq_refl) as (y & Hy & Hys & Hyw).
    cbn [Sequential_forward]. rewrite Hy. cbn [rbind].
    apply IH; assumption.
Qed.

Lemma Sequential_forward_width_error units d rest x s k :
  shape (weight (linear d)) = [units; units] ->
  shape x = s ++ [k] -> k <> units ->
  Sequential_forward (d :: rest) x
  = Raise (RuntimeError "mat1 and mat2 shapes cannot be multiplied").
Proof.
  intros Hd Hx Hk.
  destruct (@Dense_forward_cases d x s k units units Hd Hx) as (_ & Herr).
  cbn [Sequential_forward]. rewrite (Herr Hk). reflexivity.
Qed.

Lemma length_combine_same {A B} (l : list A) (l' : list B) :
  length l = length l' -> length (combine l l') = length l.
Proof. intros H. rewrite length_combine, <- H. apply Nat.min_id. Qed.

(** X5.  A residual layer the constructor has built, of width [units],
    keeps shapes: the forward pass of a well-formed input whose last
    dimension is [units] returns a well-formed tensor of the input's
    shape.  When the layer has at least one internal layer, [units] is
    positive and an input of any other last dimension is refused with the
    shape error of the matrix product. *)
Theorem ResidualLayer_forward_keeps_shape :
  forall L units nLayers act pos r pos',
    ResidualLayer_init L units nLayers act pos = Ok (r, pos') ->
    length (dense_mlp r) = nLayers /\
    (nLayers <> 0%nat -> units <> 0%nat) /\
    (forall inputs s,
        shape inputs = s ++ [units] -> well_formed inputs ->
        exists y,
          ResidualLayer_forward r inputs = Ok y /\
          shape y = shape inputs /\ well_formed y) /\
    (forall inputs s k,
        nLayers <> 0%nat -> shape inputs = s ++ [k] -> k <> units ->
        ResidualLayer_forward r inputs
        = Raise (RuntimeError "mat1 and mat2 shapes cannot be multiplied")).
Proof.
  intros L units n act pos r pos' H. unfold ResidualLayer_init in H.
  inv_bind H. unfold ret in Hk. apply Ok_inj in Hk. inversion Hk; subst; clear Hk.
  destruct (Dense_stack_inv _ _ _ _ _ Hm) as (Hlen & Hall & Hu).
  cbn [dense_mlp]. split; [exact Hlen|]. split; [exact Hu|]. split.
  - intros inputs s Hs Hw.
    destruct (@Sequential_forward_width units a inputs s Hall Hs Hw)
      as (y & Hy & Hys & Hyw).
    unfold ResidualLayer_forward. cbn [dense_mlp inv_sqrt_2]. rewrite Hy.
    cbn [rbind]. unfold tensor_add.
    destruct (list_eq_dec Nat.eq_dec (shape inputs) (shape y)) as [_|N];
      [|congruence].
    cbn [rbind]. eexists. split; [reflexivity|]. split; [reflexivity|].
    unfold well_formed, scale_by in *. cbn [shape data].
    rewrite !length_map, length_combine_same; [exact Hw|].
    rewrite Hw, Hyw, Hs, Hys. reflexivity.
  - intros inputs s k Hn Hs Hk.
    destruct a as [|d rest]; [simpl in Hlen; congruence|].
    inversion Hall as [|? ? [Hd _] _]; subst.
    unfold ResidualLayer_forward. cbn [dense_mlp].
    rewrite (@Sequential_forward_width_error units d rest inputs s k Hd Hs Hk).
    reflexivity.
Qed.

Lemma ResidualLayer_forward_keeps_shape_witness :
  exists r pos',
    ResidualLayer_init sample_library 2 2 (ActStr "silu") 0%nat = Ok (r, pos') /\
    (exists y,
        ResidualLayer_forward r (mkTensor [3; 2]%nat [1; 2; 3; 4; 5; 6]) = Ok y /\
        shape y = [3; 2]%nat /\ well_formed y) /\
    ResidualLayer_forward r (mkTensor [2; 3]%nat [1; 2; 3; 4; 5; 6])
    = Raise (RuntimeError "mat1 and mat2 shapes cannot be multiplied").
Proof.
  eexists. eexists. split; [reflexivity|].
  match goal with
  | |- (exists y, ResidualLayer_forward ?r0 _ = _ /\ _) /\ _ => set (r := r0)
  end.
  assert (Hinit : ResidualLayer_init sample_library 2 2 (ActStr "silu") 0%nat
                  = Ok (r, 16%nat)) by reflexivity.
  destruct (@ResidualLayer_forward_keeps_shape
              sample_library 2 2 (ActStr "silu") 0%nat r 16%nat Hinit)
    as (_ & _ & Hok & Herr).
  split.
  - exact (Hok (mkTensor [3; 2]%nat [1; 2; 3; 4; 5; 6]) [3%nat] eq_refl eq_refl).
  - exact (Herr (mkTensor [2; 3]%nat [1; 2; 3; 4; 5; 6]) [2%nat] 3%nat
                ltac:(discriminate) eq_refl ltac:(discriminate)).
Defined.

(** ** [EfficientInteractionDownProjection]: construction and shape checks *)

Lemma DownProjection_init_cases L n_sph n_rad n_emb pos :
  ((n_sph * n_rad = 0)%nat ->
   DownProjection_init L n_sph n_rad n_emb pos = Raise ZeroDivisionError) /\
  ((n_sph * n_rad <> 0)%nat ->
   exists w,
     DownProjection_init L n_sph n_rad n_emb pos
     = Ok (mkDownProjection n_sph n_rad n_emb w,
           (pos + 2 * (n_sph * n_rad * n_emb))%nat) /\
     shape w = [n_sph; n_rad; n_emb] /\ well_formed w).
Proof.
  assert (He : torch_empty L [n_sph; n_rad; n_emb] pos
               = Ok (mkTensor [n_sph; n_rad; n_emb]
                       (map (noise L) (seq pos (numel [n_sph; n_rad; n_emb]))),
                     (pos + numel [n_sph; n_rad; n_emb])%nat)) by reflexivity.
  unfold DownProjection_init. rewrite (bind_Ok _ _ _ He).
  set (w0 := mkTensor [n_sph; n_rad; n_emb] _).
  set (p1 := (pos + numel [n_sph; n_rad; n_emb])%nat).
  assert (Hr : (2 <= rank w0)%nat) by (unfold rank; simpl; lia).
  assert (Hfan : he_fan_in (shape w0) = (n_sph * n_rad)%nat).
  { unfold he_fan_in. simpl. lia. }
  destruct (he_orthogonal_init_cases L w0 p1) as (_ & Hz & Hok).
  split.
  - intros E. apply bind_Raise. apply Hz; [exact Hr|congruence].
  - intros NE. destruct Hok as (t' & Ht' & Hs' & Hw'); [exact Hr|congruence|].
    exists t'. rewrite (bind_Ok _ _ _ Ht'). unfold ret.
    split; [|split; assumption].
    do 2 f_equal. unfold p1. cbn [shape w0]. rewrite numel3. lia.
Qed.

(** X6.  The constructor of the down projection fails with a
    [ZeroDivisionError] exactly when [num_spherical * num_radial = 0], the
    fan-in of its weight; otherwise it stores the three sizes and a
    well-formed weight of shape
    [(num_spherical, num_radial, emb_size_interm)], having drawn twice as
    many random numbers as the weight has elements. *)
Theorem DownProjection_init_outcome :
  forall L n_sph n_rad n_emb pos,
    ((n_sph * n_rad = 0)%nat ->
     DownProjection_init L n_sph n_rad n_emb pos = Raise ZeroDivisionError) /\
    ((n_sph * n_rad <> 0)%nat ->
     exists w,
       DownProjection_init L n_sph n_rad n_emb pos
       = Ok (mkDownProjection n_sph n_rad n_emb w,
             (pos + 2 * (n_sph * n_rad * n_emb))%nat) /\
       shape w = [n_sph; n_rad; n_emb] /\ well_formed w).
Proof. exact DownProjection_init_cases. Qed.

Lemma DownProjection_init_outcome_witness :
  DownProjection_init sample_library 3 0 5 0%nat = Raise ZeroDivisionError /\
  exists w,
    DownProjection_init sample_library 3 4 5 0%nat
    = Ok (mkDownProjection 3 4 5 w, (0 + 2 * (3 * 4 * 5))%nat) /\
    shape w = [3; 4; 5]%nat /\ well_formed w.
Proof.
  split.
  - exact (proj1 (DownProjection_init_outcome sample_library 3 0 5 0%nat) eq_refl).
  - apply (proj2 (DownProjection_init_outcome sample_library 3 4 5 0%nat)).
    discriminate.
Defined.

Lemma matmul3_broadcast_shape x w e r i s :
  shape x = [1%nat; e; r] -> shape w = [s; r; i] ->
  exists y, matmul x w = Ok y /\ shape y = [s; e; i] /\ well_formed y.
Proof.
  intros Hx Hw. unfold matmul. rewrite Hx, Hw, Nat.eqb_refl.
  assert (Hb : bdim 1 s = Ok s).
  { unfold bdim. destruct (Nat.eqb_spec 1 s) as [E|_]; [subst; reflexivity|].
    reflexivity. }
  rewrite Hb. cbn [rbind].
  eexists. split; [reflexivity|]. split; [reflexivity|].
  unfold well_formed. cbn [data shape]. rewrite length_tab, numel3. reflexivity.
Qed.

(** X7.  What the forward pass of the down projection checks.  The radial
    sizes of the input and of the weight must agree, or the product is
    refused; a radial input whose leading dimension is 1 instead of
    [num_spherical] is accepted and broadcast; and the spherical input is
    never compared with the layer: any tensor of rank 3 is transposed. *)
Theorem DownProjection_forward_checks :
  forall m rbf_env sph s1 e r1 a b c,
    shape (down_weight m)
      = [num_spherical m; num_radial m; emb_size_interm m] ->
    shape rbf_env = [s1; e; r1] ->
    shape sph = [a; b; c] ->
    (r1 <> num_radial m ->
     DownProjection_forward m (rbf_env, sph)
     = Raise (RuntimeError "mat1 and mat2 shapes cannot be multiplied")) /\
    (r1 = num_radial m -> s1 = num_spherical m \/ s1 = 1%nat ->
     exists rbf_W1 sph',
       DownProjection_forward m (rbf_env, sph) = Ok (rbf_W1, sph') /\
       shape rbf_W1 = [e; emb_size_interm m; num_spherical m] /\
       shape sph' = [a; c; b]).
Proof.
  intros m rbf_env sph s1 e r1 a b c Hw Hx Hsph. split.
  - intros NE. unfold DownProjection_forward, matmul. rewrite Hx, Hw.
    destruct (Nat.eqb_spec r1 (num_radial m)); [contradiction|reflexivity].
  - intros E Hs1. subst r1.
    assert (Hmm : exists y, matmul rbf_env (down_weight m) = Ok y /\
                            shape y = [num_spherical m; e; emb_size_interm m]).
    { destruct Hs1 as [E|E]; subst s1.
      - destruct (@matmul3_spec rbf_env (down_weight m) _ _ _ _ Hx Hw)
          as (y & Hy & Hys & _). exists y. auto.
      - destruct (@matmul3_broadcast_shape rbf_env (down_weight m) _ _ _ _ Hx Hw)
          as (y & Hy & Hys & _). exists y. auto. }
    destruct Hmm as (y & Hy & Hys).
    destruct (@permute3_spec y _ _ _ 1 2 0 Hys eq_refl) as (y' & Hy' & Hy's & _).
    destruct (@permute3_spec sph a b c 0 2 1 Hsph eq_refl) as (z & Hz & Hzs & _).
    exists y', z. split; [|split; assumption].
    unfold DownProjection_forward. rewrite Hy. cbn [rbind]. rewrite Hy'.
    cbn [rbind]. unfold transpose, rank. rewrite Hsph.
    cbn [length Nat.ltb Nat.leb andb]. unfold rank in Hz. 
    change (swap_axes 3 1 2) with [0; 2; 1]%nat. rewrite Hz. reflexivity.
Qed.

Lemma DownProjection_forward_checks_witness :
  DownProjection_forward
    (mkDownProjection 3 4 5 (mkTensor [3; 4; 5]%nat (repeat 1 60)))
    (mkTensor [3; 2; 7]%nat (repeat 1 42), mkTensor [9; 6; 8]%nat (repeat 1 432))
  = Raise (RuntimeError "mat1 and mat2 shapes cannot be multiplied") /\
  exists rbf_W1 sph',
    DownProjection_forward
      (mkDownProjection 3 4 5 (mkTensor [3; 4; 5]%nat (repeat 1 60)))
      (mkTensor [1; 2; 4]%nat (repeat 1 8), mkTensor [9; 6; 8]%nat (repeat 1 432))
    = Ok (rbf_W1, sph') /\
    shape rbf_W1 = [2; 5; 3]%nat /\ shape sph' = [9; 8; 6]%nat.
Proof.
  split.
  - apply (proj1 (@DownProjection_forward_checks
                    (mkDownProjection 3 4 5 (mkTensor [3; 4; 5]%nat (repeat 1 60)))
                    (mkTensor [3; 2; 7]%nat (repeat 1 42))
                    (mkTensor [9; 6; 8]%nat (repeat 1 432))
                    3%nat 2%nat 7%nat 9%nat 6%nat 8%nat eq_refl eq_refl eq_refl)).
    discriminate.
  - apply (proj2 (@DownProjection_forward_checks
                    (mkDownProjection 3 4 5 (mkTensor [3; 4; 5]%nat (repeat 1 60)))
                    (mkTensor [1; 2; 4]%nat (repeat 1 8))
                    (mkTensor [9; 6; 8]%nat (repeat 1 432))
                    1%nat 2%nat 4%nat 9%nat 6%nat 8%nat eq_refl eq_refl eq_refl)).
    + reflexivity.
    + right. reflexivity.
Defined.

(** ** [ScaledSiLU] *)

Lemma nth_map_fix (f : R -> R) l p d :
  f d = d -> nth p (map f l) d = f (nth p l d).
Proof.
  intros H. rewrite <- (map_nth f). rewrite H. reflexivity.
Qed.

Lemma sigmoid_bounds v :
  let s := 1 / (1 + exp (- v)) in
  0 < s < 1 /\ s * (1 + exp (- v)) = 1.
Proof.
  intros s. pose proof (exp_pos (- v)) as He.
  assert (Hs : s * (1 + exp (- v)) = 1) by (unfold s; field; lra).
  assert (H0 : 0 < s).
  { unfold s. apply Rdiv_lt_0_compat; lra. }
  split; [|exact Hs]. split; [exact H0|]. nra.
Qed.

(** X8.  The scaled SiLU keeps the shape and acts on every element [v] on
    its own, as [v * sigmoid v * (1 / 0.6)].  Over the reals, in exact
    arithmetic (a float sigmoid saturates at 1 and underflows to 0, which
    is not modelled), this function sends 0 to 0, a positive [v] to a value
    strictly between 0 and [v / 0.6] that misses [v / 0.6] by at most
    [v * exp (- v) / 0.6], and a negative [v] to a value strictly between
    [v / 0.6] and 0. *)
Theorem ScaledSiLU_forward_values :
  forall x p,
    let v := get x p in
    let out := get (ScaledSiLU_forward x) p in
    shape (ScaledSiLU_forward x) = shape x /\
    length (data (ScaledSiLU_forward x)) = length (data x) /\
    out = v * (1 / (1 + exp (- v))) * (5 / 3) /\
    (v = 0 -> out = 0) /\
    (0 < v -> 0 < out < v * (5 / 3) /\
              v * (5 / 3) - out <= v * exp (- v) * (5 / 3)) /\
    (v < 0 -> v * (5 / 3) < out < 0).
Proof.
  intros x p v out.
  assert (Hout : out = v * (1 / (1 + exp (- v))) * (5 / 3)).
  { unfold out, v, get, ScaledSiLU_forward. cbn [data].
    rewrite nth_map_fix.
    - unfold SiLU, ScaledSiLU_scale_factor. field.
      pose proof (exp_pos (- nth p (data x) 0)). lra.
    - rewrite SiLU_0. ring. }
  split; [reflexivity|]. split; [apply length_map|]. split; [exact Hout|].
  destruct (sigmoid_bounds v) as ((Hs0 & Hs1) & Hs).
  pose proof (exp_pos (- v)) as He.
  set (s := 1 / (1 + exp (- v))) in *.
  rewrite Hout. split; [|split].
  - intros E. rewrite E. ring.
  - intros Hv. split; [split|]; nra.
  - intros Hv. split; nra.
Qed.

Lemma ScaledSiLU_forward_values_witness :
  0 < get (mkTensor [1%nat] [1]) 0 /\
  (0 < get (ScaledSiLU_forward (mkTensor [1%nat] [1])) 0
   < get (mkTensor [1%nat] [1]) 0 * (5 / 3) /\
   get (mkTensor [1%nat] [1]) 0 * (5 / 3)
   - get (ScaledSiLU_forward (mkTensor [1%nat] [1])) 0
   <= get (mkTensor [1%nat] [1]) 0 * exp (- get (mkTensor [1%nat] [1]) 0) * (5 / 3)).
Proof.
  assert (H1 : 0 < get (mkTensor [1%nat] [1]) 0) by (unfold get; simpl; lra).
  split; [exact H1|].
  pose proof (ScaledSiLU_forward_values (mkTensor [1%nat] [1]) 0) as H.
  cbv zeta in H. destruct H as (_ & _ & _ & _ & Hp & _).
  exact (Hp H1).
Defined.

(** ** [Linear]: the other initialisers *)

(** X9.  A [Linear] layer built with [init="final"] (and no custom
    initialiser) has a weight of shape [(out_dim, in_dim)] that is all
    zero, and its bias, when it has one, is all zero as well: the
    constructor has zeroed it before the initialiser ran. *)
Theorem Linear_final_all_zero :
  forall L in_dim out_dim with_bias pos,
  exists w bo pos',
    Linear_init L in_dim out_dim with_bias "final" None pos
      = Ok (mkLinear (mk_nn_Linear in_dim out_dim w bo), pos') /\
    shape w = [out_dim; in_dim] /\
    length (data w) = (out_dim * in_dim)%nat /\
    Forall (fun v => v = 0) (data w) /\
    match bo with
    | Some bt => with_bias = true /\ shape bt = [out_dim] /\
                 length (data bt) = out_dim /\
                 Forall (fun v => v = 0) (data bt)
    | None => with_bias = false
    end.
Proof.
  intros L in_dim out_dim with_bias pos.
  destruct (nn_Linear_init_Ok L in_dim out_dim with_bias pos)
    as (l & pos' & Hinit & _ & _ & Hws & Hwl & Hb).
  exists (final_init_ (weight l)),
         (if with_bias then option_map (fun t => fill_ t 0) (bias l) else bias l),
         pos'.
  split.
  - unfold Linear_init. rewrite (bind_Ok _ _ _ Hinit). reflexivity.
  - unfold final_init_. split; [exact Hws|].
    split; [rewrite fill_length; exact Hwl|]. split; [apply fill_all|].
    destruct (bias l) as [bt|].
    + destruct Hb as (Hb1 & Hb2 & Hb3). subst with_bias. cbn [option_map].
      split; [reflexivity|]. split; [exact Hb2|].
      split; [rewrite fill_length; exact Hb3|apply fill_all].
    + subst with_bias. reflexivity.
Qed.

Lemma trunc_normal_init_run L w fan_out fan_in s pos :
  shape w = [fan_out; fan_in] ->
  0 <= s ->
  0 < truncnorm_std L (-2) 2 ->
  (forall u, -2 <= truncnorm_standard L (-2) 2 u <= 2) ->
  let std := sqrt (s / Rmax 1 (INR fan_in)) / truncnorm_std L (-2) 2 in
  exists w' pos',
    trunc_normal_init_ L w s "fan_in" pos = Ok (w', pos') /\
    shape w' = [fan_out; fan_in] /\
    length (data w') = (fan_out * fan_in)%nat /\
    Forall (fun x => -2 * std <= x <= 2 * std) (data w').
Proof.
  intros Hs Hs0 Hstd Hz std.
  assert (Hf : _calculate_fan (shape w) "fan_in" = Ok (INR fan_in))
    by (rewrite Hs; reflexivity).
  assert (Hq : 0 <= s / Rmax 1 (INR fan_in)).
  { apply Rmult_le_pos; [exact Hs0|].
    apply Rlt_le, Rinv_0_lt_compat, Rmax_1_pos. }
  assert (Hts : trunc_normal_std L (shape w) s "fan_in" = Ok std).
  { unfold trunc_normal_std. rewrite Hf. cbn [rbind].
    rewrite (math_sqrt_nonneg Hq). reflexivity. }
  assert (Hstd0 : 0 <= std).
  { unfold std. apply Rmult_le_pos; [apply sqrt_pos|].
    apply Rlt_le, Rinv_0_lt_compat. exact Hstd. }
  destruct (@truncnorm_rvs_bounds L (-2) 2 std (_prod (shape w)) pos)
    as (samples & pos' & Hrvs & Hlen & Hb); [lra|exact Hstd0|exact Hz|].
  exists (mkTensor (shape w) samples), pos'. split.
  - unfold trunc_normal_init_. unfold bind at 1. unfold lift. rewrite Hts.
    rewrite (bind_Ok _ _ _ Hrvs). reflexivity.
  - cbn [shape data]. split; [exact Hs|]. split; [|exact Hb].
    rewrite Hlen, _prod_numel, Hs. simpl. lia.
Qed.

(** X10.  A [Linear] layer built with [init="default"] or [init="relu"]
    draws its weight from the truncated normal with scale 1 (LeCun) or 2
    (He) over the fan-in [in_dim]: the weight has the shape
    [(out_dim, in_dim)] and every entry lies within 2 standard deviations of
    0, the standard deviation being [sqrt (scale / max 1 in_dim)] over that
    of the standard truncated normal; the bias, when there is one, is all
    zero. *)
Theorem Linear_trunc_normal_init :
  forall L in_dim out_dim with_bias init scale pos,
    (init = "default"%string /\ scale = 1) \/ (init = "relu"%string /\ scale = 2) ->
    0 < truncnorm_std L (-2) 2 ->
    (forall u, -2 <= truncnorm_standard L (-2) 2 u <= 2) ->
    let std := sqrt (scale / Rmax 1 (INR in_dim)) / truncnorm_std L (-2) 2 in
    exists w bo pos',
      Linear_init L in_dim out_dim with_bias init None pos
        = Ok (mkLinear (mk_nn_Linear in_dim out_dim w bo), pos') /\
      shape w = [out_dim; in_dim] /\
      length (data w) = (out_dim * in_dim)%nat /\
      Forall (fun x => -2 * std <= x <= 2 * std) (data w) /\
      match bo with
      | Some bt => with_bias = true /\ shape bt = [out_dim] /\
                   Forall (fun v => v = 0) (data bt)
      | None => with_bias = false
      end.
Proof.
  intros L in_dim out_dim with_bias init scale pos Hinit Hstd Hz std.
  destruct (nn_Linear_init_Ok L in_dim out_dim with_bias pos)
    as (l & p1 & Hl & _ & _ & Hws & _ & Hb).
  assert (Hs0 : 0 <= scale) by (destruct Hinit as [[_ E]|[_ E]]; subst; lra).
  destruct (@trunc_normal_init_run L (weight l) out_dim in_dim scale p1
              Hws Hs0 Hstd Hz) as (w' & p2 & Hw' & Hs' & Hl' & Hb').
  exists w', (if with_bias then option_map (fun t => fill_ t 0) (bias l) else bias l), p2.
  split.
  - unfold Linear_init. rewrite (bind_Ok _ _ _ Hl).
    destruct Hinit as [[E1 E2]|[E1 E2]]; subst init scale.
    + cbn [String.eqb Ascii.eqb Bool.eqb]. unfold lecun_normal_init_.
      rewrite (bind_Ok _ _ _ (bind_Ok _ _ _ Hw')). reflexivity.
    + cbn [String.eqb Ascii.eqb Bool.eqb]. unfold he_normal_init_.
      rewrite (bind_Ok _ _ _ (bind_Ok _ _ _ Hw')). reflexivity.
  - split; [exact Hs'|]. split; [exact Hl'|]. split; [exact Hb'|].
    destruct (bias l) as [bt|].
    + destruct Hb as (Hb1 & Hb2 & Hb3). subst with_bias. cbn [option_map].
      split; [reflexivity|]. split; [exact Hb2|apply fill_all].
    + subst with_bias. reflexivity.
Qed.

Lemma Linear_trunc_normal_init_witness :
  exists w bo pos',
    Linear_init sample_library 3 2 true "relu" None 0%nat
      = Ok (mkLinear (mk_nn_Linear 3 2 w bo), pos') /\
    shape w = [2; 3]%nat /\
    length (data w) = (2 * 3)%nat /\
    Forall (fun x => -2 * (sqrt (2 / Rmax 1 (INR 3)) / (22 / 25)) <= x
                     <= 2 * (sqrt (2 / Rmax 1 (INR 3)) / (22 / 25))) (data w) /\
    match bo with
    | Some bt => true = true /\ shape bt = [2%nat] /\
                 Forall (fun v => v = 0) (data bt)
    | None => true = false
    end.
Proof.
  assert (H1 : 0 < truncnorm_std sample_library (-2) 2) by (simpl; lra).
  assert (H2 : forall u, -2 <= truncnorm_standard sample_library (-2) 2 u <= 2)
    by (intros u; simpl; lra).
  exact (@Linear_trunc_normal_init sample_library 3 2 true "relu" 2 0%nat
           (or_intror (conj eq_refl eq_refl)) H1 H2).
Defined.

(** X11.  How [Linear] chooses its initialiser.  A custom initialiser
    overrides the name: with [init_fn] given, the name is not looked at,
    valid or not, and the function receives the bias already zeroed.
    Without one, a name outside the six known ones is the [ValueError]
    "Invalid init string.". *)
Theorem Linear_init_dispatch :
  forall L in_dim out_dim with_bias pos,
    (forall f init init',
        Linear_init L in_dim out_dim with_bias init (Some f) pos
        = Linear_init L in_dim out_dim with_bias init' (Some f) pos) /\
    (forall f init,
      exists l pos',
        nn_Linear_init L in_dim out_dim with_bias pos = Ok (l, pos') /\
        match bias l with
        | Some bt => with_bias = true
        | None => with_bias = false
        end /\
        Linear_init L in_dim out_dim with_bias init (Some f) pos
        = match f (weight l) (option_map (fun t => fill_ t 0) (bias l)) pos' with
          | Ok (wb, pos'') =>
              Ok (mkLinear (mk_nn_Linear in_dim out_dim (fst wb) (snd wb)), pos'')
          | Raise e => Raise e
          end) /\
    (forall init,
        ~ In init ["default"; "relu"; "glorot"; "gating"; "normal"; "final"]%string ->
        Linear_init L in_dim out_dim with_bias init None pos
        = Raise (ValueError "Invalid init string.")).
Proof.
  intros L in_dim out_dim with_bias pos. split; [reflexivity|]. split.
  - intros f init.
    destruct (nn_Linear_init_Ok L in_dim out_dim with_bias pos)
      as (l & p1 & Hl & _ & _ & _ & _ & Hb).
    exists l, p1. split; [exact Hl|]. split.
    + destruct (bias l); tauto.
    + unfold Linear_init. rewrite (bind_Ok _ _ _ Hl).
      assert (E : (if with_bias then option_map (fun t => fill_ t 0) (bias l)
                   else bias l) = option_map (fun t => fill_ t 0) (bias l)).
      { destruct with_bias; [reflexivity|].
        destruct (bias l); [destruct Hb; discriminate|reflexivity]. }
      rewrite E. unfold bind, ret.
      destruct (f (weight l) _ p1) as [[wb p2]|e]; reflexivity.
  - intros init Hn.
    destruct (nn_Linear_init_Ok L in_dim out_dim with_bias pos)
      as (l & p1 & Hl & _).
    unfold Linear_init. rewrite (bind_Ok _ _ _ Hl).
    destruct (String.eqb_spec init "default"); [subst; simpl in Hn; tauto|].
    destruct (String.eqb_spec init "relu"); [subst; simpl in Hn; tauto|].
    destruct (String.eqb_spec init "glorot"); [subst; simpl in Hn; tauto|].
    destruct (String.eqb_spec init "gating"); [subst; simpl in Hn; tauto|].
    destruct (String.eqb_spec init "normal"); [subst; simpl in Hn; tauto|].
    destruct (String.eqb_spec init "final"); [subst; simpl in Hn; tauto|].
    reflexivity.
Qed.

Lemma Linear_init_dispatch_witness :
  Linear_init sample_library 2 3 true "Gating" None 0%nat
  = Raise (ValueError "Invalid init string.").
Proof.
  apply (proj2 (proj2 (Linear_init_dispatch sample_library 2 3 true 0%nat))).
  simpl. intros [H|[H|[H|[H|[H|[H|[]]]]]]]; discriminate H.
Defined.

(** ** The truncated normal initialisers: standard deviations and errors *)

(** X12.  The standard deviations of the two named truncated normal
    initialisers: on one weight, the one of [he_normal_init_] (scale 2) is
    [sqrt 2] times the one of [lecun_normal_init_] (scale 1); and since the
    fan is clamped from below at 1, a fan-in of 0 or 1 gives the standard
    deviation of scale 1 over no fan at all, never a division by zero. *)
Theorem he_std_is_sqrt2_lecun_std :
  forall L fan_out fan_in,
    let lecun := sqrt (1 / Rmax 1 (INR fan_in)) / truncnorm_std L (-2) 2 in
    trunc_normal_std L [fan_out; fan_in] 1 "fan_in" = Ok lecun /\
    trunc_normal_std L [fan_out; fan_in] 2 "fan_in" = Ok (sqrt 2 * lecun) /\
    ((fan_in <= 1)%nat -> lecun = 1 / truncnorm_std L (-2) 2).
Proof.
  intros L fan_out fan_in lecun.
  pose proof (Rmax_1_pos (INR fan_in)) as Hm.
  assert (Hq : 0 <= 1 / Rmax 1 (INR fan_in)).
  { apply Rlt_le, Rdiv_lt_0_compat; lra. }
  assert (Hq2 : 0 <= 2 / Rmax 1 (INR fan_in)).
  { apply Rlt_le, Rdiv_lt_0_compat; lra. }
  split; [|split].
  - unfold trunc_normal_std. cbn [_calculate_fan String.eqb Ascii.eqb Bool.eqb rbind].
    rewrite (math_sqrt_nonneg Hq). reflexivity.
  - unfold trunc_normal_std. cbn [_calculate_fan String.eqb Ascii.eqb Bool.eqb rbind].
    rewrite (math_sqrt_nonneg Hq2). cbn [rbind]. f_equal. unfold lecun.
    replace (2 / Rmax 1 (INR fan_in)) with (2 * (1 / Rmax 1 (INR fan_in)))
      by (field; lra).
    rewrite sqrt_mult by lra. unfold Rdiv. ring.
  - intros Hle. unfold lecun.
    assert (E : Rmax 1 (INR fan_in) = 1).
    { apply Rmax_left. change 1 with (INR 1). apply le_INR. exact Hle. }
    rewrite E. replace (1 / 1) with 1 by field. rewrite sqrt_1. reflexivity.
Qed.

Lemma he_std_is_sqrt2_lecun_std_witness :
  (1 <= 1)%nat /\
  sqrt (1 / Rmax 1 (INR 1)) / truncnorm_std sample_library (-2) 2
  = 1 / truncnorm_std sample_library (-2) 2.
Proof.
  split; [lia|].
  pose proof (he_std_is_sqrt2_lecun_std sample_library 3 1) as H.
  cbv zeta in H. destruct H as (_ & _ & H).
  apply H. lia.
Defined.

(** X13.  The errors of the truncated normal initialiser.  A weight that
    does not have exactly two axes cannot be unpacked into
    [(fan_out, fan_in)], and a fan mode other than the three known ones is
    refused: either way [trunc_normal_init_] raises a [ValueError].  For
    the mode ["fan_avg"] the fan lies between the two fans. *)
Theorem trunc_normal_init_errors :
  forall L w scale fan pos,
    (length (shape w) <> 2%nat ->
     exists msg,
       trunc_normal_init_ L w scale fan pos = Raise (ValueError msg)) /\
    (forall fan_out fan_in,
        shape w = [fan_out; fan_in] ->
        ~ In fan ["fan_in"; "fan_out"; "fan_avg"]%string ->
        trunc_normal_init_ L w scale fan pos
        = Raise (ValueError "Invalid fan option")) /\
    (forall fan_out fan_in,
        _calculate_fan [fan_out; fan_in] "fan_avg"
        = Ok ((INR fan_in + INR fan_out) / 2) /\
        Rmin (INR fan_in) (INR fan_out) <= (INR fan_in + INR fan_out) / 2
        <= Rmax (INR fan_in) (INR fan_out)).
Proof.
  intros L w scale fan pos. split; [|split].
  - intros Hr. unfold trunc_normal_init_, bind, lift, trunc_normal_std, _calculate_fan.
    destruct (shape w) as [|a [|b [|c s]]];
      try (eexists; reflexivity).
    simpl in Hr. congruence.
  - intros fan_out fan_in Hs Hn.
    unfold trunc_normal_init_, bind, lift, trunc_normal_std.
    rewrite Hs, (@_calculate_fan_invalid fan_out fan_in fan Hn). reflexivity.
  - intros fan_out fan_in. split; [reflexivity|].
    unfold Rmin, Rmax.
    destruct (Rle_dec (INR fan_in) (INR fan_out)); lra.
Qed.

Lemma trunc_normal_init_errors_witness :
  (exists msg,
      trunc_normal_init_ sample_library (mkTensor [2; 3; 4]%nat (repeat 0 24)) 1
        "fan_in" 0%nat
      = Raise (ValueError msg)) /\
  trunc_normal_init_ sample_library (mkTensor [2; 3]%nat (repeat 0 6)) 1
    "fan" 0%nat
  = Raise (ValueError "Invalid fan option").
Proof.
  split.
  - apply (proj1 (trunc_normal_init_errors sample_library
                    (mkTensor [2; 3; 4]%nat (repeat 0 24)) 1 "fan_in" 0%nat)).
    discriminate.
  - apply (proj1 (proj2 (trunc_normal_init_errors sample_library
                           (mkTensor [2; 3]%nat (repeat 0 6)) 1 "fan" 0%nat))
             2%nat 3%nat eq_refl).
    simpl. intros [H|[H|[H|[]]]]; discriminate H.
Defined.

(** ** [uniq] *)

Section UniqProperties.

Variable A : Type.
Variable A_eq_dec : forall x y : A, {x = y} + {x <> y}.

Lemma dict_setitem_keys d k v :
  map fst (dict_setitem A_eq_dec d k v)
  = if in_dec A_eq_dec k (map fst d) then map fst d else map fst d ++ [k].
Proof.
  induction d as [|[k' v'] d IH]; cbn [dict_setitem map fst].
  - destruct (in_dec A_eq_dec k []) as [[]|_]. reflexivity.
  - destruct (A_eq_dec k k') as [E|NE].
    + subst k'. cbn [map fst].
      destruct (in_dec A_eq_dec k (k :: map fst d)) as [_|N]; [reflexivity|].
      exfalso. apply N. left. reflexivity.
    + cbn [map fst]. rewrite IH.
      destruct (in_dec A_eq_dec k (map fst d)) as [Hi|Hn];
        destruct (in_dec A_eq_dec k (k' :: map fst d)) as [Hi'|Hn'];
        try reflexivity.
      * exfalso. apply Hn'. right. exact Hi.
      * exfalso. destruct Hi' as [E|Hi']; [congruence|contradiction].
Qed.

Lemma uniq_snoc l x :
  uniq A_eq_dec (l ++ [x])
  = if in_dec A_eq_dec x (uniq A_eq_dec l) then uniq A_eq_dec l
    else uniq A_eq_dec l ++ [x].
Proof.
  unfold uniq. rewrite fold_left_app. cbn [fold_left].
  apply dict_setitem_keys.
Qed.

Lemma uniq_In l : forall x, In x (uniq A_eq_dec l) <-> In x l.
Proof.
  induction l as [|y l IH] using rev_ind; intros x; [reflexivity|].
  rewrite uniq_snoc, in_app_iff.
  destruct (in_dec A_eq_dec y (uniq A_eq_dec l)) as [Hi|Hn].
  - rewrite IH. split; [tauto|]. intros [H|[H|[]]]; [exact H|].
    subst. apply (proj1 (IH x)). exact Hi.
  - rewrite in_app_iff, IH. reflexivity.
Qed.

Lemma uniq_NoDup l : NoDup (uniq A_eq_dec l).
Proof.
  induction l as [|y l IH] using rev_ind; [constructor|].
  rewrite uniq_snoc.
  destruct (in_dec A_eq_dec y (uniq A_eq_dec l)) as [Hi|Hn]; [exact IH|].
  apply NoDup_app; [exact IH|repeat constructor; intros []|].
  intros a Ha [E|[]]. subst. contradiction.
Qed.

Lemma NoDup_snoc_inv (l : list A) x : NoDup (l ++ [x]) -> NoDup l /\ ~ In x l.
Proof.
  intros H. apply NoDup_remove in H. rewrite app_nil_r in H. exact H.
Qed.

Lemma uniq_of_NoDup l : NoDup l -> uniq A_eq_dec l = l.
Proof.
  induction l as [|y l IH] using rev_ind; intros H; [reflexivity|].
  apply NoDup_snoc_inv in H. destruct H as [Hl Hy].
  rewrite uniq_snoc, (IH Hl).
  destruct (in_dec A_eq_dec y l); [contradiction|reflexivity].
Qed.

(** X14.  [uniq] removes the repetitions of a sequence and keeps the order
    of first occurrence: the result has no repetition, has exactly the
    elements of the argument, grows by an element put last exactly when
    that element is new, leaves a sequence without repetition as it is, and
    so changes nothing when applied twice. *)
Theorem uniq_keeps_first_occurrences :
  forall l : list A,
    NoDup (uniq A_eq_dec l) /\
    (forall x, In x (uniq A_eq_dec l) <-> In x l) /\
    (forall x,
        uniq A_eq_dec (l ++ [x])
        = if in_dec A_eq_dec x l then uniq A_eq_dec l
          else uniq A_eq_dec l ++ [x]) /\
    (NoDup l -> uniq A_eq_dec l = l) /\
    uniq A_eq_dec (uniq A_eq_dec l) = uniq A_eq_dec l.
Proof.
  intros l. split; [apply uniq_NoDup|]. split; [apply uniq_In|]. split; [|split].
  - intros x. rewrite uniq_snoc.
    destruct (in_dec A_eq_dec x (uniq A_eq_dec l)) as [Hi|Hn];
      destruct (in_dec A_eq_dec x l) as [Hi'|Hn']; try reflexivity.
    + apply (proj1 (uniq_In l x)) in Hi. contradiction.
    + apply (proj2 (uniq_In l x)) in Hi'. contradiction.
  - apply uniq_of_NoDup.
  - apply uniq_of_NoDup, uniq_NoDup.
Qed.

End UniqProperties.

Lemma uniq_keeps_first_occurrences_witness :
  uniq Nat.eq_dec [3; 1; 3; 2; 1]%nat = [3; 1; 2]%nat /\
  uniq Nat.eq_dec [3; 1; 2]%nat = [3; 1; 2]%nat.
Proof.
  split; [reflexivity|].
  apply (proj1 (proj2 (proj2 (proj2
           (uniq_keeps_first_occurrences Nat.eq_dec [3; 1; 2]%nat))))).
  repeat constructor; simpl; intuition discriminate.
Defined.

(** ** [flatten_final_dims] *)

Lemma numel_app s1 s2 : numel (s1 ++ s2) = (numel s1 * numel s2)%nat.
Proof.
  induction s1 as [|d s IH]; cbn [app]; [simpl; lia|].
  rewrite !numel_cons, IH. lia.
Qed.

Lemma py_slice_to_neg {A} (pre suf : list A) :
  suf <> [] ->
  py_slice_to (- Z.of_nat (length suf))%Z (pre ++ suf) = pre.
Proof.
  intros Hne. unfold py_slice_to.
  assert (Hl : (0 < length suf)%nat) by (destruct suf; [congruence|simpl; lia]).
  destruct (Z.ltb_spec (- Z.of_nat (length suf)) 0) as [_|H]; [|lia].
  rewrite length_app.
  replace (Z.to_nat (Z.of_nat (length pre + length suf) + - Z.of_nat (length suf)))
    with (length pre) by lia.
  rewrite firstn_app, Nat.sub_diag, firstn_all. cbn [firstn]. apply app_nil_r.
Qed.

(** X15.  [flatten_final_dims] merges the last [no_dims] axes of a tensor
    into one and keeps the elements in their order: for [no_dims >= 1] a
    shape [pre ++ suf] with [no_dims] axes in [suf] becomes
    [pre ++ [product of suf]], provided the product of [pre] is not 0, in
    which case the last dimension cannot be inferred.  With [no_dims = 0]
    the slice [shape[:-0]] is empty, so the whole tensor is flattened to
    one axis instead of gaining an axis of size 1. *)
Theorem flatten_final_dims_outcome :
  forall t,
    (forall pre suf,
        shape t = pre ++ suf -> suf <> [] ->
        (numel pre <> 0%nat ->
         flatten_final_dims t (Z.of_nat (length suf))
         = Ok (mkTensor (pre ++ [numel suf]) (data t)) /\
         numel (pre ++ [numel suf]) = numel (shape t)) /\
        (numel pre = 0%nat ->
         exists msg,
           flatten_final_dims t (Z.of_nat (length suf))
           = Raise (RuntimeError msg))) /\
    flatten_final_dims t 0%Z = Ok (mkTensor [numel (shape t)] (data t)).
Proof.
  intros t. split.
  - intros pre suf Hs Hne. unfold flatten_final_dims.
    rewrite Hs, (py_slice_to_neg pre Hne). unfold reshape_infer_last. split.
    + intros Hp. destruct (Nat.eqb_spec (numel pre) 0) as [E|_]; [contradiction|].
      rewrite Hs, numel_app, (Nat.mul_comm (numel pre)), Nat.Div0.mod_mul.
      cbn [Nat.eqb]. rewrite Nat.div_mul by exact Hp.
      split; [reflexivity|]. rewrite !numel_app. simpl. lia.
    + intros Hp. rewrite Hp. cbn [Nat.eqb]. eexists. reflexivity.
  - unfold flatten_final_dims, reshape_infer_last.
    change (py_slice_to (- 0)%Z (shape t)) with (@nil nat).
    cbn [numel fold_right Nat.eqb app].
    rewrite Nat.mod_1_r, Nat.div_1_r. reflexivity.
Qed.

Lemma flatten_final_dims_outcome_witness :
  (flatten_final_dims (mkTensor [2; 3; 4]%nat (repeat 1 24)) 2%Z
   = Ok (mkTensor [2; 12]%nat (repeat 1 24)) /\
   numel [2; 12]%nat = numel [2; 3; 4]%nat) /\
  exists msg,
    flatten_final_dims (mkTensor [0; 3; 4]%nat []) 2%Z = Raise (RuntimeError msg).
Proof.
  split.
  - apply (proj1 (proj1 (flatten_final_dims_outcome
                           (mkTensor [2; 3; 4]%nat (repeat 1 24)))
                        [2%nat] [3; 4]%nat eq_refl ltac:(discriminate))).
    discriminate.
  - apply (proj2 (proj1 (flatten_final_dims_outcome
                           (mkTensor [0; 3; 4]%nat []))
                        [0%nat] [3; 4]%nat eq_refl ltac:(discriminate))).
    reflexivity.
Defined.

(** ** [permute_final_dims] *)

Lemma wrap_dim_nat r a : (a < r)%nat -> wrap_dim r (Z.of_nat a) = Ok a.
Proof.
  intros H. unfold wrap_dim.
  destruct (Z.ltb_spec (Z.of_nat a) (- Z.of_nat r)); [lia|].
  destruct (Z.leb_spec (Z.of_nat r) (Z.of_nat a)); [lia|].
  cbn [orb]. destruct (Z.ltb_spec (Z.of_nat a) 0); [lia|].
  rewrite Nat2Z.id. reflexivity.
Qed.

Lemma wrap_dim_neg r k :
  (1 <= k <= r)%nat -> wrap_dim r (- Z.of_nat k) = Ok (r - k)%nat.
Proof.
  intros H. unfold wrap_dim.
  destruct (Z.ltb_spec (- Z.of_nat k) (- Z.of_nat r)); [lia|].
  destruct (Z.leb_spec (Z.of_nat r) (- Z.of_nat k)); [lia|].
  cbn [orb]. destruct (Z.ltb_spec (- Z.of_nat k) 0); [|lia].
  f_equal. lia.
Qed.

Lemma wrap_dims_app r l1 l2 a1 a2 :
  wrap_dims r l1 = Ok a1 -> wrap_dims r l2 = Ok a2 ->
  wrap_dims r (l1 ++ l2) = Ok (a1 ++ a2).
Proof.
  revert a1. induction l1 as [|d l1 IH]; intros a1 H1 H2; cbn [wrap_dims app] in *.
  - apply Ok_inj in H1. subst. exact H2.
  - destruct (wrap_dim r d) as [a|e]; [|discriminate H1]. cbn [rbind] in *.
    destruct (wrap_dims r l1) as [l|e]; [|discriminate H1]. cbn [rbind] in *.
    apply Ok_inj in H1. subst a1. rewrite (IH l eq_refl H2). reflexivity.
Qed.

Lemma wrap_dims_nat r l :
  Forall (fun a => a < r)%nat l -> wrap_dims r (map Z.of_nat l) = Ok l.
Proof.
  induction l as [|a l IH]; intros H; [reflexivity|].
  inversion H; subst. cbn [map wrap_dims].
  rewrite wrap_dim_nat by assumption. cbn [rbind].
  rewrite IH by assumption. reflexivity.
Qed.

Lemma swap_last_two r :
  (2 <= r)%nat ->
  swap_axes r (r - 2) (r - 1) = seq 0 (r - 2) ++ [(r - 1)%nat; (r - 2)%nat].
Proof.
  intros Hr. unfold swap_axes.
  replace r with ((r - 2) + 2)%nat at 1 by lia.
  rewrite seq_app, map_app. cbn [seq map Nat.add]. f_equal.
  - rewrite <- (map_id (seq 0 (r - 2))) at 2. apply map_ext_in.
    intros a Ha. apply in_seq in Ha.
    destruct (Nat.eqb_spec a (r - 2)); [lia|].
    destruct (Nat.eqb_spec a (r - 1)); [lia|]. reflexivity.
  - rewrite Nat.eqb_refl.
    destruct (Nat.eqb_spec (S (r - 2)) (r - 2)); [lia|].
    destruct (Nat.eqb_spec (S (r - 2)) (r - 1)); [|lia].
    reflexivity.
Qed.

(** X16.  [permute_final_dims] with the indices [(1, 0)] exchanges the
    last two axes of a tensor of rank at least 2 and leaves the leading
    axes where they are: it is the transposition of the last two axes.
    With no indices at all the slice [shape[:-0]] is empty, so no axis is
    kept and every tensor of rank at least 1 is refused; and more indices
    than the tensor has axes are refused as well. *)
Theorem permute_final_dims_outcome :
  forall t,
    ((2 <= rank t)%nat ->
     permute_final_dims t [1%Z; 0%Z] = transpose t (rank t - 2) (rank t - 1)) /\
    ((1 <= rank t)%nat ->
     exists msg, permute_final_dims t [] = Raise (RuntimeError msg)) /\
    (forall inds,
        (rank t < length inds)%nat ->
        exists msg, permute_final_dims t inds = Raise (RuntimeError msg)).
Proof.
  intros t. split; [|split].
  - intros Hr. unfold permute_final_dims, transpose, tensor_permute.
    cbn [length map]. unfold py_slice_to.
    change (-1 * Z.of_nat 2 <? 0)%Z with true. cbv iota.
    fold (rank t).
    replace (Z.to_nat (Z.of_nat (rank t) + -1 * Z.of_nat 2)) with (rank t - 2)%nat
      by lia.
    rewrite length_firstn, length_app, length_map, length_seq.
    fold (rank t). rewrite Nat.min_l by lia. cbn [length].
    replace (rank t - 2 + 2)%nat with (rank t) by lia. rewrite Nat.eqb_refl.
    destruct (Nat.ltb_spec (rank t - 2) (rank t)); [|lia].
    destruct (Nat.ltb_spec (rank t - 1) (rank t)); [|lia].
    cbn [andb].
    rewrite (@wrap_dims_app (rank t) _ _ (seq 0 (rank t - 2))
               [(rank t - 1)%nat; (rank t - 2)%nat]).
    + cbn [rbind]. rewrite swap_last_two by exact Hr. reflexivity.
    + apply wrap_dims_nat. apply Forall_forall. intros a Ha.
      apply in_seq in Ha. lia.
    + cbn [wrap_dims].
      change (-1 * Z.of_nat 2 + 1)%Z with (- Z.of_nat 1)%Z.
      change (-1 * Z.of_nat 2 + 0)%Z with (- Z.of_nat 2)%Z.
      rewrite !wrap_dim_neg by lia. reflexivity.
  - intros Hr. unfold permute_final_dims, tensor_permute.
    cbn [length map]. change (-1 * Z.of_nat 0)%Z with 0%Z.
    unfold py_slice_to. cbn [Z.ltb Z.compare Z.to_nat firstn length seq map app].
    destruct (Nat.eqb_spec 0 (rank t)); [lia|eexists; reflexivity].
  - intros inds Hlen. unfold permute_final_dims, tensor_permute.
    rewrite length_app, !length_map, length_seq.
    destruct (Nat.eqb_spec
                (length (py_slice_to (-1 * Z.of_nat (length inds)) (shape t))
                 + length inds) (rank t)); [lia|eexists; reflexivity].
Qed.

Lemma permute_final_dims_outcome_witness :
  permute_final_dims (mkTensor [2; 1; 3]%nat [1; 2; 3; 4; 5; 6]) [1%Z; 0%Z]
  = Ok (mkTensor [2; 3; 1]%nat [1; 2; 3; 4; 5; 6]) /\
  permute_final_dims (mkTensor [2; 3]%nat [1; 2; 3; 4; 5; 6]) [1%Z; 0%Z]
  = Ok (mkTensor [3; 2]%nat [1; 4; 2; 5; 3; 6]) /\
  exists msg,
    permute_final_dims (mkTensor [2; 3]%nat [1; 2; 3; 4; 5; 6]) []
    = Raise (RuntimeError msg).
Proof.
  split; [|split].
  - rewrite (proj1 (permute_final_dims_outcome
                      (mkTensor [2; 1; 3]%nat [1; 2; 3; 4; 5; 6])))
      by (unfold rank; simpl; lia).
    reflexivity.
  - rewrite (proj1 (permute_final_dims_outcome
                      (mkTensor [2; 3]%nat [1; 2; 3; 4; 5; 6])))
      by (unfold rank; simpl; lia).
    reflexivity.
  - apply (proj1 (proj2 (permute_final_dims_outcome
                           (mkTensor [2; 3]%nat [1; 2; 3; 4; 5; 6])))).
    unfold rank. simpl. lia.
Defined.

(** ** [CrossAttention]: the attention weights *)

Lemma Rsum_tab_scale n (f : nat -> R) k :
  Rsum (tab n (fun j => f j * k)) = Rsum (tab n f) * k.
Proof. unfold tab. apply Rsum_map_scale. Qed.

Lemma Rsum_map_nonneg_ge {A} (l : list A) (f : A -> R) a :
  (forall x, 0 <= f x) -> In a l -> f a <= Rsum (map f l).
Proof.
  intros Hf. induction l as [|b l IH]; intros Hin; [destruct Hin|].
  cbn [map Rsum fold_right]. fold (Rsum (map f l)).
  assert (H0 : 0 <= Rsum (map f l)).
  { clear - Hf. induction l as [|c l IH]; [simpl; lra|].
    cbn [map Rsum fold_right]. fold (Rsum (map f l)). specialize (Hf c). lra. }
  destruct Hin as [E|Hin].
  - subst. lra.
  - specialize (IH Hin). specialize (Hf b). lra.
Qed.

Lemma CrossAttention_masked_sim_shape L m sim mask sim' B I J :
  shape sim = [B; I; J] ->
  CrossAttention_masked_sim L m sim mask = Ok sim' ->
  shape sim' = [B; I; J].
Proof.
  intros Hs H. destruct mask as [mk|].
  - destruct (@masked_sim_spec L m sim mk sim' B I J Hs H) as [H' _]. exact H'.
  - cbn in H. apply Ok_inj in H. subst. exact Hs.
Qed.

(** X17.  The attention weights [forward] computes are a probability
    distribution over the context positions, with or without a mask: on
    every row with at least one context position each weight lies in
    [(0, 1]] and the weights sum to 1. *)
Theorem CrossAttention_attn_is_distribution :
  forall L m x context mask attn v,
    CrossAttention_attn L m x context mask = Ok (attn, v) ->
    exists B I J,
      shape attn = [B; I; J] /\
      forall bh i,
        (bh < B)%nat -> (i < I)%nat -> (0 < J)%nat ->
        (forall j, (j < J)%nat ->
                   0 < get attn (ravel [B; I; J] [bh; i; j]) <= 1) /\
        Rsum (tab J (fun j => get attn (ravel [B; I; J] [bh; i; j]))) = 1.
Proof.
  intros L m x context mask attn v H. unfold CrossAttention_attn in H.
  apply rbind_inv in H. destruct H as (qkv & _ & H).
  apply rbind_inv in H. destruct H as (sim0 & Hsim0 & H).
  apply rbind_inv in H. destruct H as (sim' & Hmask & H).
  apply Ok_inj in H. injection H as Hattn Hv.
  destruct (@einsum_bid_bjd_shape _ _ sim0 Hsim0) as (B & I & J & Hs0).
  assert (Hs' : shape sim' = [B; I; J]).
  { eapply CrossAttention_masked_sim_shape; [|exact Hmask]. exact Hs0. }
  destruct (@softmax_last_row sim' B I J Hs') as (Hsh & Hsoft).
  exists B, I, J. rewrite <- Hattn. split; [exact Hsh|].
  intros bh i Hbh Hi HJ.
  set (e := fun j => exp (get sim' (ravel [B; I; J] [bh; i; j]))).
  pose proof (Rsum_exp_pos (fun j => get sim' (ravel [B; I; J] [bh; i; j])) HJ)
    as Hden.
  fold e in Hden. set (S := Rsum (tab J e)) in *.
  assert (Hent : forall j, (j < J)%nat ->
                 get (softmax_last sim') (ravel [B; I; J] [bh; i; j]) = e j * / S).
  { intros j Hj. rewrite (Hsoft bh i j Hbh Hi Hj). reflexivity. }
  split.
  - intros j Hj. rewrite (Hent j Hj).
    assert (He : 0 < e j) by apply exp_pos.
    assert (Hle : e j <= S).
    { unfold S, tab. apply (Rsum_map_nonneg_ge (seq 0 J) e).
      - intros k. apply Rlt_le, exp_pos.
      - apply in_seq. lia. }
    pose proof (Rinv_0_lt_compat _ Hden) as Hinv.
    split; [apply Rmult_lt_0_compat; assumption|].
    apply Rmult_le_reg_r with (r := S); [exact Hden|].
    rewrite Rmult_assoc, Rinv_l by lra. lra.
  - rewrite (Rsum_tab_ext _ (fun j => e j * / S) Hent), Rsum_tab_scale.
    change (S * / S = 1). apply Rinv_r. apply Rgt_not_eq. exact Hden.
Qed.

Lemma CrossAttention_attn_is_distribution_witness :
  exists attn v,
    CrossAttention_attn sample_library example_attention
      (mkTensor [1; 1; 1]%nat [1])
      (Some (mkTensor [1; 2; 1]%nat [1; 3]))
      None
    = Ok (attn, v) /\
    0 < get attn 1 <= 1 /\ Rsum [get attn 0; get attn 1] = 1.
Proof.
  eexists. eexists. split; [reflexivity|].
  match goal with
  | |- 0 < get ?a _ <= 1 /\ _ => set (attn := a)
  end.
  destruct (@CrossAttention_attn_is_distribution sample_library example_attention
              (mkTensor [1; 1; 1]%nat [1])
              (Some (mkTensor [1; 2; 1]%nat [1; 3]))
              None attn _ eq_refl)
    as (B & I & J & Hs & Hrow).
  assert (Hshape : [1; 1; 2]%nat = [B; I; J]) by (rewrite <- Hs; reflexivity).
  injection Hshape as <- <- <-.
  destruct (Hrow 0%nat 0%nat) as (Hent & Hsum); try lia.
  split; [exact (Hent 1%nat ltac:(lia))|exact Hsum].
Defined.

Lemma tab_get t : well_formed t -> tab (numel (shape t)) (get t) = data t.
Proof.
  intros Hw. apply (nth_ext _ _ 0 0).
  - rewrite length_tab. symmetry. exact Hw.
  - intros p Hp. rewrite length_tab in Hp. rewrite nth_tab by exact Hp.
    reflexivity.
Qed.

Lemma einsum_bid_bjd_wf q k s : einsum_bid_bjd q k = Ok s -> well_formed s.
Proof.
  unfold einsum_bid_bjd.
  destruct (shape q) as [|b1 [|i [|d1 [|? ?]]]]; try discriminate.
  destruct (shape k) as [|b2 [|j [|d2 [|? ?]]]]; try discriminate.
  intros H. apply rbind_inv in H. destruct H as (b & _ & H).
  apply rbind_inv in H. destruct H as (d & _ & H).
  apply Ok_inj in H. subst s. unfold well_formed. cbn [data shape].
  rewrite length_tab, numel3. reflexivity.
Qed.

Lemma scale_by_wf t c : well_formed t -> well_formed (scale_by t c).
Proof.
  unfold well_formed, scale_by. cbn [data shape]. rewrite length_map. auto.
Qed.

Lemma masked_sim_inv L m sim mask sim' B I J :
  shape sim = [B; I; J] ->
  CrossAttention_masked_sim L m sim (Some mask) = Ok sim' ->
  well_formed sim' /\
  exists b rest,
    mshape mask = b :: rest /\
    ((b * heads m)%nat = B \/ (b * heads m)%nat = 1%nat) /\
    (numel rest = J \/ numel rest = 1%nat).
Proof.
  intros Hs H. unfold CrossAttention_masked_sim, flatten_mask in H.
  destruct (mshape mask) as [|b rest] eqn:Hm; [discriminate H|].
  cbn [rbind] in H. unfold repeat_mask in H. cbn [mshape rbind] in H.
  unfold masked_fill_not in H. rewrite Hs in H. cbn [mshape] in H.
  change (1 =? 1) with true in H. rewrite orb_true_r, andb_true_r in H.
  destruct ((b * heads m =? B) || (b * heads m =? 1)) eqn:Hb; [|discriminate H].
  destruct ((numel rest =? J) || (numel rest =? 1)) eqn:Hj; [|discriminate H].
  unfold andb in H. apply Ok_inj in H. subst sim'. split.
  - unfold well_formed. cbn [data shape]. rewrite length_tab, numel3. reflexivity.
  - exists b, rest. split; [reflexivity|].
    split; apply eqb_or_1; assumption.
Qed.

Lemma mask_at_all_true h mask b rest B J bh j :
  mshape mask = b :: rest ->
  length (mdata mask) = numel (mshape mask) ->
  Forall (fun v => v = true) (mdata mask) ->
  (b * h)%nat = B \/ (b * h)%nat = 1%nat ->
  numel rest = J \/ numel rest = 1%nat ->
  (bh < B)%nat -> (j < J)%nat ->
  mask_at h mask bh j = true.
Proof.
  intros Hm Hlen Hall Hb Hj Hbh Hj'. unfold mask_at. rewrite Hm.
  pose proof (bidx_bound Hb Hbh) as Hb'.
  pose proof (bidx_bound Hj Hj') as Hj''.
  set (q := (bidx (b * h) bh / h)%nat).
  assert (Hq : (q < b)%nat).
  { unfold q. apply Nat.Div0.div_lt_upper_bound. lia. }
  unfold mget. rewrite Forall_forall in Hall. apply Hall. apply nth_In.
  rewrite Hlen, Hm, numel_cons. cbn [ravel numel fold_right]. nia.
Qed.

Lemma masked_sim_all_true L m sim mask sim' B I J :
  shape sim = [B; I; J] -> well_formed sim ->
  length (mdata mask) = numel (mshape mask) ->
  Forall (fun v => v = true) (mdata mask) ->
  CrossAttention_masked_sim L m sim (Some mask) = Ok sim' ->
  sim' = sim.
Proof.
  intros Hs Hw Hlen Hall H.
  destruct (@masked_sim_spec L m sim mask sim' B I J Hs H) as (Hs' & Hfill).
  destruct (@masked_sim_inv L m sim mask sim' B I J Hs H)
    as (Hw' & b & rest & Hm & Hb & Hj).
  assert (Hdata : data sim' = data sim).
  { rewrite <- (tab_get Hw'), <- (tab_get Hw), Hs', Hs.
    unfold tab. apply map_ext_in. intros p Hp. apply in_seq in Hp.
    assert (Hp' : (p < numel [B; I; J])%nat) by lia.
    pose proof (ravel_unravel [B; I; J] Hp') as Hrav.
    pose proof (@unravel_lt [B; I; J] p 0 Hp' ltac:(simpl; lia)) as H0.
    pose proof (@unravel_lt [B; I; J] p 1 Hp' ltac:(simpl; lia)) as H1.
    pose proof (@unravel_lt [B; I; J] p 2 Hp' ltac:(simpl; lia)) as H2.
    cbn [unravel] in Hrav, H0, H1, H2. cbn [nth] in H0, H1, H2.
    rewrite <- Hrav.
    rewrite (Hfill _ _ _ H0 H1 H2).
    rewrite (@mask_at_all_true (heads m) mask b rest B J _ _ Hm Hlen Hall Hb Hj H0 H2).
    reflexivity. }
  destruct sim' as [s' d'], sim as [s d]. cbn [shape data] in *. congruence.
Qed.

(** X18.  A mask that is true everywhere changes nothing: when
    [forward] accepts a well-formed mask all of whose elements are true,
    its attention weights, and so its result, are those of the call
    without a mask. *)
Theorem CrossAttention_all_true_mask_is_no_mask :
  forall L m x context mask attn v,
    length (mdata mask) = numel (mshape mask) ->
    Forall (fun b => b = true) (mdata mask) ->
    CrossAttention_attn L m x context (Some mask) = Ok (attn, v) ->
    CrossAttention_attn L m x context None = Ok (attn, v) /\
    forall pos,
      CrossAttention_forward L m x context (Some mask) pos
      = CrossAttention_forward L m x context None pos.
Proof.
  intros L m x context mask attn v Hlen Hall H.
  assert (Hnone : CrossAttention_attn L m x context None = Ok (attn, v)).
  { unfold CrossAttention_attn in *.
    apply rbind_inv in H. destruct H as (qkv & Hqkv & H).
    apply rbind_inv in H. destruct H as (sim0 & Hsim0 & H).
    apply rbind_inv in H. destruct H as (sim' & Hmask & H).
    rewrite Hqkv. cbn [rbind]. rewrite Hsim0. cbn [rbind].
    destruct (@einsum_bid_bjd_shape _ _ sim0 Hsim0) as (B & I & J & Hs0).
    assert (E : sim' = scale_by sim0 (scale m)).
    { eapply masked_sim_all_true; [exact Hs0| |exact Hlen|exact Hall|exact Hmask].
      apply scale_by_wf. eapply einsum_bid_bjd_wf. exact Hsim0. }
    cbn [CrossAttention_masked_sim rbind]. rewrite <- E. exact H. }
  split; [exact Hnone|].
  intros pos. unfold CrossAttention_forward. rewrite H, Hnone. reflexivity.
Qed.

Lemma CrossAttention_all_true_mask_is_no_mask_witness :
  CrossAttention_forward sample_library example_attention
    (mkTensor [1; 1; 1]%nat [1])
    (Some (mkTensor [1; 2; 1]%nat [1; 3]))
    (Some (mkMask [1; 2]%nat [true; true])) 0%nat
  = CrossAttention_forward sample_library example_attention
      (mkTensor [1; 1; 1]%nat [1])
      (Some (mkTensor [1; 2; 1]%nat [1; 3]))
      None 0%nat.
Proof.
  refine (proj2 (@CrossAttention_all_true_mask_is_no_mask
                   sample_library example_attention
                   (mkTensor [1; 1; 1]%nat [1])
                   (Some (mkTensor [1; 2; 1]%nat [1; 3]))
                   (mkMask [1; 2]%nat [true; true]) _ _ eq_refl _ eq_refl)
                0%nat).
  repeat constructor.
Defined.

(** ** [CrossAttention]: shapes through [forward] *)

Lemma reshape_Ok t s :
  numel s = numel (shape t) -> reshape t s = Ok (mkTensor s (data t)).
Proof. intros H. unfold reshape. rewrite H, Nat.eqb_refl. reflexivity. Qed.

Lemma numel4 a b c d : numel [a; b; c; d] = (a * b * c * d)%nat.
Proof. simpl. lia. Qed.

Lemma permute_0213_shape t a b c d :
  shape t = [a; b; c; d] ->
  exists y,
    permute [0; 2; 1; 3]%nat t = Ok y /\ shape y = [a; c; b; d] /\ well_formed y.
Proof.
  intros Hs. unfold permute, rank. rewrite Hs.
  change (is_permutation [0; 2; 1; 3]%nat (length [a; b; c; d])) with true.
  cbv iota. cbn [map nth].
  eexists. split; [reflexivity|]. split; [reflexivity|].
  unfold well_formed. cbn [data shape]. apply length_tab.
Qed.

Lemma split_heads_shape h t b n d :
  h <> 0%nat -> shape t = [b; n; (h * d)%nat] ->
  exists y,
    split_heads h t = Ok y /\ shape y = [(b * h)%nat; n; d] /\ well_formed y.
Proof.
  intros Hh Hs. unfold split_heads. rewrite Hs.
  destruct (Nat.eqb_spec h 0) as [E|_]; [contradiction|].
  rewrite (Nat.mul_comm h d), Nat.Div0.mod_mul, Nat.div_mul by exact Hh.
  cbn [Nat.eqb negb orb].
  rewrite reshape_Ok by (rewrite Hs, numel4, numel3; lia).
  cbn [rbind].
  destruct (@permute_0213_shape (mkTensor [b; n; h; d] (data t)) b n h d eq_refl)
    as (y & Hy & Hys & Hyw).
  rewrite Hy. cbn [rbind].
  rewrite reshape_Ok by (rewrite Hys, numel4, numel3; lia).
  eexists. split; [reflexivity|]. split; [reflexivity|].
  unfold well_formed in *. cbn [data shape]. rewrite Hyw, Hys, numel4, numel3. lia.
Qed.

Lemma merge_heads_shape h t b n d :
  h <> 0%nat -> shape t = [(b * h)%nat; n; d] ->
  exists y,
    merge_heads h t = Ok y /\ shape y = [b; n; (h * d)%nat] /\ well_formed y.
Proof.
  intros Hh Hs. unfold merge_heads. rewrite Hs.
  destruct (Nat.eqb_spec h 0) as [E|_]; [contradiction|].
  rewrite Nat.Div0.mod_mul, Nat.div_mul by exact Hh.
  cbn [Nat.eqb negb orb].
  rewrite reshape_Ok by (rewrite Hs, numel4, numel3; lia).
  cbn [rbind].
  destruct (@permute_0213_shape (mkTensor [b; h; n; d] (data t)) b h n d eq_refl)
    as (y & Hy & Hys & Hyw).
  rewrite Hy. cbn [rbind].
  rewrite reshape_Ok by (rewrite Hys, numel4, numel3; lia).
  eexists. split; [reflexivity|]. split; [reflexivity|].
  unfold well_formed in *. cbn [data shape]. rewrite Hyw, Hys, numel4, numel3. lia.
Qed.

Lemma einsum_bid_bjd_same q k b i j d :
  shape q = [b; i; d] -> shape k = [b; j; d] ->
  exists s, einsum_bid_bjd q k = Ok s /\ shape s = [b; i; j] /\ well_formed s.
Proof.
  intros Hq Hk. unfold einsum_bid_bjd. rewrite Hq, Hk, !bdim_refl. cbn [rbind].
  eexists. split; [reflexivity|]. split; [reflexivity|].
  unfold well_formed. cbn [data shape]. rewrite length_tab, numel3. reflexivity.
Qed.

Lemma einsum_bij_bjd_same a v b i j d :
  shape a = [b; i; j] -> shape v = [b; j; d] ->
  exists s, einsum_bij_bjd a v = Ok s /\ shape s = [b; i; d] /\ well_formed s.
Proof.
  intros Ha Hv. unfold einsum_bij_bjd. rewrite Ha, Hv, !bdim_refl. cbn [rbind].
  eexists. split; [reflexivity|]. split; [reflexivity|].
  unfold well_formed. cbn [data shape]. rewrite length_tab, numel3. reflexivity.
Qed.

Lemma masked_sim_accepts L m sim mask b n j :
  shape sim = [(b * heads m)%nat; n; j] ->
  match mask with
  | Some mk => mshape mk = [b; j]
  | None => True
  end ->
  exists sim',
    CrossAttention_masked_sim L m sim mask = Ok sim' /\
    shape sim' = [(b * heads m)%nat; n; j].
Proof.
  intros Hs Hm. destruct mask as [mk|].
  - unfold CrossAttention_masked_sim, flatten_mask. rewrite Hm. cbn [rbind].
    unfold repeat_mask. cbn [mshape rbind]. unfold masked_fill_not.
    rewrite Hs. cbn [mshape].
    replace (numel [j]) with j by (simpl; lia).
    rewrite !Nat.eqb_refl. cbn [orb andb].
    change (1 =? 1) with true. rewrite orb_true_r. cbn [andb].
    eexists. split; reflexivity.
  - exists sim. split; [reflexivity|exact Hs].
Qed.

Lemma softmax_last_shape t : shape (softmax_last t) = shape t.
Proof. reflexivity. Qed.

Lemma nn_Dropout_forward_shape L p training x pos :
  exists y pos',
    nn_Dropout_forward L p training x pos = Ok (y, pos') /\
    shape y = shape x /\ length (data y) = length (data x) /\
    (training = false \/ p = 0 -> y = x /\ pos' = pos).
Proof.
  unfold nn_Dropout_forward. destruct training; cbn [negb].
  - destruct (Req_dec_T p 0) as [E|NE].
    + exists x, pos. repeat split; reflexivity.
    + destruct (Req_dec_T p 1) as [E1|NE1].
      * exists (fill_ x 0), pos. split; [reflexivity|]. split; [reflexivity|].
        split; [apply fill_length|]. intros [H|H]; [discriminate|contradiction].
      * unfold bind. rewrite draw_Ok. eexists. eexists.
        split; [reflexivity|]. split; [reflexivity|]. split.
        -- cbn [data]. rewrite length_map, length_combine_same; [reflexivity|].
           rewrite length_map, length_seq. reflexivity.
        -- intros [H|H]; [discriminate|contradiction].
  - exists x, pos. repeat split; reflexivity.
Qed.

Lemma CrossAttention_init_cases L query_dim c n_heads dim_head dropout pos :
  (dim_head = 0%nat ->
   CrossAttention_init L query_dim (Some c) n_heads dim_head dropout pos
   = Raise ZeroDivisionError) /\
  (dim_head <> 0%nat -> ~ 0 <= dropout <= 1 ->
   CrossAttention_init L query_dim (Some c) n_heads dim_head dropout pos
   = Raise (ValueError "dropout probability has to be between 0 and 1")) /\
  (dim_head <> 0%nat -> 0 <= dropout <= 1 ->
   exists m pos',
     CrossAttention_init L query_dim (Some c) n_heads dim_head dropout pos
     = Ok (m, pos') /\
     heads m = n_heads /\
     scale m = 1 / sqrt (INR dim_head) /\
     to_out_dropout m = dropout /\ training m = true /\
     CrossAttention_shapes query_dim c dim_head m).
Proof.
  split; [|split].
  - intros E. subst. reflexivity.
  - intros Hd Hp. unfold CrossAttention_init.
    unfold bind at 1. simpl lift. unfold bind at 1. unfold pow_neg_half.
    destruct (Nat.eqb_spec dim_head 0) as [E|_]; [contradiction|].
    simpl lift.
    destruct (nn_Linear_init_Ok L query_dim (dim_head * n_heads) false pos)
      as (q & p1 & Hq & _).
    rewrite (bind_Ok _ _ _ Hq).
    destruct (nn_Linear_init_Ok L c (dim_head * n_heads) false p1)
      as (k & p2 & Hk & _).
    rewrite (bind_Ok _ _ _ Hk).
    destruct (nn_Linear_init_Ok L c (dim_head * n_heads) false p2)
      as (v & p3 & Hv & _).
    rewrite (bind_Ok _ _ _ Hv).
    destruct (nn_Linear_init_Ok L (dim_head * n_heads) query_dim true p3)
      as (o & p4 & Ho & _).
    rewrite (bind_Ok _ _ _ Ho).
    unfold bind, lift, nn_Dropout_init.
    destruct (Rlt_dec dropout 0); [reflexivity|].
    destruct (Rlt_dec 1 dropout); [reflexivity|]. exfalso. apply Hp. lra.
  - intros Hd Hp. unfold CrossAttention_init.
    unfold bind at 1. simpl lift. unfold bind at 1. unfold pow_neg_half.
    destruct (Nat.eqb_spec dim_head 0) as [E|_]; [contradiction|].
    simpl lift.
    destruct (nn_Linear_init_Ok L query_dim (dim_head * n_heads) false pos)
      as (q & p1 & Hq & _ & _ & Hq2 & _).
    rewrite (bind_Ok _ _ _ Hq).
    destruct (nn_Linear_init_Ok L c (dim_head * n_heads) false p1)
      as (k & p2 & Hk & _ & _ & Hk2 & _).
    rewrite (bind_Ok _ _ _ Hk).
    destruct (nn_Linear_init_Ok L c (dim_head * n_heads) false p2)
      as (v & p3 & Hv & _ & _ & Hv2 & _).
    rewrite (bind_Ok _ _ _ Hv).
    destruct (nn_Linear_init_Ok L (dim_head * n_heads) query_dim true p3)
      as (o & p4 & Ho & _ & _ & Ho2 & _).
    rewrite (bind_Ok _ _ _ Ho).
    unfold bind, lift. rewrite (nn_Dropout_init_Ok Hp). unfold ret.
    eexists. eexists. split; [reflexivity|]. cbn.
    repeat split; assumption.
Qed.

(** X19.  The constructor of [CrossAttention] with a context dimension
    given: a head dimension of 0 is a [ZeroDivisionError] (the scale is
    [dim_head ** -0.5]), a dropout probability outside [[0, 1]] is the
    [ValueError] of [torch.nn.Dropout], and otherwise the module is built
    in training mode with the scale [1 / sqrt dim_head], whose square times
    [dim_head] is 1, and with projections of the shapes
    [(dim_head * heads, query_dim)], twice [(dim_head * heads, context_dim)]
    and [(query_dim, dim_head * heads)]. *)
Theorem CrossAttention_init_outcome :
  forall L query_dim c n_heads dim_head dropout pos,
    (dim_head = 0%nat ->
     CrossAttention_init L query_dim (Some c) n_heads dim_head dropout pos
     = Raise ZeroDivisionError) /\
    (dim_head <> 0%nat -> ~ 0 <= dropout <= 1 ->
     CrossAttention_init L query_dim (Some c) n_heads dim_head dropout pos
     = Raise (ValueError "dropout probability has to be between 0 and 1")) /\
    (dim_head <> 0%nat -> 0 <= dropout <= 1 ->
     exists m pos',
       CrossAttention_init L query_dim (Some c) n_heads dim_head dropout pos
       = Ok (m, pos') /\
       heads m = n_heads /\
       scale m = 1 / sqrt (INR dim_head) /\
       scale m * scale m * INR dim_head = 1 /\
       to_out_dropout m = dropout /\ training m = true /\
       CrossAttention_shapes query_dim c dim_head m).
Proof.
  intros L query_dim c n_heads dim_head dropout pos.
  destruct (CrossAttention_init_cases L query_dim c n_heads dim_head dropout pos)
    as (H1 & H2 & H3).
  split; [exact H1|]. split; [exact H2|].
  intros Hd Hp. destruct (H3 Hd Hp) as (m & pos' & Hm & Hh & Hsc & Hdp & Htr & Hsh).
  exists m, pos'.
  split; [exact Hm|]. split; [exact Hh|]. split; [exact Hsc|].
  split; [|split; [exact Hdp|split; [exact Htr|exact Hsh]]].
  rewrite Hsc.
  assert (Hpos : 0 < INR dim_head) by (apply lt_0_INR; lia).
  pose proof (sqrt_lt_R0 _ Hpos) as Hs.
  pose proof (sqrt_sqrt (INR dim_head) (Rlt_le _ _ Hpos)) as Hss.
  set (r := sqrt (INR dim_head)) in *.
  rewrite <- Hss. field. lra.
Qed.

Lemma CrossAttention_init_outcome_witness :
  CrossAttention_init sample_library 4 (Some 6%nat) 2 0 0 0%nat
  = Raise ZeroDivisionError /\
  CrossAttention_init sample_library 4 (Some 6%nat) 2 3 2 0%nat
  = Raise (ValueError "dropout probability has to be between 0 and 1") /\
  exists m pos',
    CrossAttention_init sample_library 4 (Some 6%nat) 2 3 (1 / 2) 0%nat
    = Ok (m, pos') /\
    heads m = 2%nat /\
    scale m = 1 / sqrt (INR 3) /\
    scale m * scale m * INR 3 = 1 /\
    to_out_dropout m = 1 / 2 /\ training m = true /\
    CrossAttention_shapes 4 6 3 m.
Proof.
  split; [|split].
  - exact (proj1 (CrossAttention_init_outcome sample_library 4 6 2 0 0 0%nat)
                 eq_refl).
  - apply (proj1 (proj2 (CrossAttention_init_outcome
                           sample_library 4 6 2 3 2 0%nat))); [discriminate|lra].
  - apply (proj2 (proj2 (CrossAttention_init_outcome
                           sample_library 4 6 2 3 (1 / 2) 0%nat)));
      [discriminate|lra].
Defined.

(** X20.  The result of [forward] has the shape of the query input.  For a
    module with at least one head whose projections have the shapes the
    constructor gives them, a query of shape [(b, n, query_dim)], a context
    of shape [(b, j, context_dim)] and no mask or a mask of shape [(b, j)],
    [forward] returns a well-formed tensor of shape [(b, n, query_dim)];
    and it draws no random number when the module is in evaluation mode or
    its dropout probability is 0. *)
Theorem CrossAttention_forward_shape :
  forall L m x context mask query_dim context_dim dim_head b n j pos,
    heads m <> 0%nat ->
    CrossAttention_shapes query_dim context_dim dim_head m ->
    shape x = [b; n; query_dim] ->
    shape context = [b; j; context_dim] ->
    match mask with
    | Some mk => mshape mk = [b; j]
    | None => True
    end ->
    exists y pos',
      CrossAttention_forward L m x (Some context) mask pos = Ok (y, pos') /\
      shape y = [b; n; query_dim] /\
      well_formed y /\
      (training m = false \/ to_out_dropout m = 0 -> pos' = pos).
Proof.
  intros L m x context mask qd cd dh b n j pos Hh (Hwq & Hwk & Hwv & Hwo) Hx Hc Hm.
  set (h := heads m) in *.
  destruct (@F_linear_shape x (weight (to_q m)) (bias (to_q m)) [b; n] (dh * h) qd
              Hwq Hx) as (q & Hq & Hqs & _).
  destruct (@F_linear_shape context (weight (to_k m)) (bias (to_k m)) [b; j] (dh * h) cd
              Hwk Hc) as (k & Hk & Hks & _).
  destruct (@F_linear_shape context (weight (to_v m)) (bias (to_v m)) [b; j] (dh * h) cd
              Hwv Hc) as (v & Hv & Hvs & _).
  cbn [app] in Hqs, Hks, Hvs. rewrite (Nat.mul_comm dh h) in Hqs, Hks, Hvs.
  destruct (@split_heads_shape h q b n dh Hh Hqs) as (q' & Hq' & Hq's & _).
  destruct (@split_heads_shape h k b j dh Hh Hks) as (k' & Hk' & Hk's & _).
  destruct (@split_heads_shape h v b j dh Hh Hvs) as (v' & Hv' & Hv's & _).
  destruct (@einsum_bid_bjd_same q' k' (b * h) n j dh Hq's Hk's)
    as (sim0 & Hsim0 & Hsim0s & _).
  assert (Hsims : shape (scale_by sim0 (scale m)) = [(b * heads m)%nat; n; j])
    by exact Hsim0s.
  destruct (@masked_sim_accepts L m (scale_by sim0 (scale m)) mask b n j Hsims Hm)
    as (sim' & Hsim' & Hsim's).
  fold h in Hsim's.
  assert (Hattn : CrossAttention_attn L m x (Some context) mask
                  = Ok (softmax_last sim', v')).
  { unfold CrossAttention_attn, CrossAttention_qkv, nn_Linear_forward.
    fold h. rewrite Hq. cbn [rbind default exists_]. rewrite Hk. cbn [rbind].
    rewrite Hv. cbn [rbind]. rewrite Hq'. cbn [rbind]. rewrite Hk'. cbn [rbind].
    rewrite Hv'. cbn [rbind fst snd]. rewrite Hsim0. cbn [rbind].
    rewrite Hsim'. reflexivity. }
  assert (Has : shape (softmax_last sim') = [(b * h)%nat; n; j]) by exact Hsim's.
  destruct (@einsum_bij_bjd_same (softmax_last sim') v' (b * h) n j dh Has Hv's)
    as (out & Hout & Houts & _).
  destruct (@merge_heads_shape h out b n dh Hh Houts) as (out' & Hout' & Hout's & _).
  rewrite (Nat.mul_comm h dh) in Hout's.
  destruct (@F_linear_shape out' (weight (to_out_linear m)) (bias (to_out_linear m))
              [b; n] qd (dh * h) Hwo Hout's) as (y0 & Hy0 & Hy0s & Hy0w).
  destruct (nn_Dropout_forward_shape L (to_out_dropout m) (training m) y0 pos)
    as (y & pos' & Hy & Hys & Hyl & Hdet).
  exists y, pos'. split.
  - unfold CrossAttention_forward, bind, lift, nn_Linear_forward.
    rewrite Hattn. cbn [fst snd]. rewrite Hout. fold h. rewrite Hout', Hy0.
    exact Hy.
  - split; [rewrite Hys; exact Hy0s|]. split.
    + unfold well_formed in *. rewrite Hyl, Hys. exact Hy0w.
    + intros Hd. apply Hdet. exact Hd.
Qed.

Lemma CrossAttention_forward_shape_witness :
  exists y pos',
    CrossAttention_forward sample_library example_attention
      (mkTensor [1; 1; 1]%nat [1])
      (Some (mkTensor [1; 2; 1]%nat [1; 3]))
      (Some (mkMask [1; 2]%nat [true; false])) 0%nat = Ok (y, pos') /\
    shape y = [1; 1; 1]%nat /\
    well_formed y /\
    (training example_attention = false \/ to_out_dropout example_attention = 0 ->
     pos' = 0%nat).
Proof.
  apply (@CrossAttention_forward_shape sample_library example_attention
           (mkTensor [1; 1; 1]%nat [1]) (mkTensor [1; 2; 1]%nat [1; 3])
           (Some (mkMask [1; 2]%nat [true; false])) 1 1 1 1 1 2 0%nat).
  - discriminate.
  - repeat split.
  - reflexivity.
  - reflexivity.
  - reflexivity.
Defined.

(** ** [CrossAttention]: splitting and merging the heads *)

Lemma unravel_ravel s : forall c,
  length c = length s ->
  (forall a, (a < length s)%nat -> (nth a c 0 < nth a s 0)%nat) ->
  unravel s (ravel s c) = c /\ (ravel s c < numel s)%nat.
Proof.
  induction s as [|d s IH]; intros c Hlen Hlt.
  - destruct c; [|discriminate Hlen]. simpl. split; [reflexivity|lia].
  - destruct c as [|i c]; [discriminate Hlen|].
    destruct (IH c) as (Hu & Hr).
    { simpl in Hlen. lia. }
    { intros a Ha. apply (Hlt (S a)). simpl. lia. }
    pose proof (Hlt 0%nat ltac:(simpl; lia)) as Hi. cbn [nth] in Hi.
    cbn [ravel unravel]. rewrite numel_cons.
    destruct (@div_mod_unique_lt (numel s) i (ravel s c) Hr) as [Hq Hm].
    rewrite Hq, Hm, Hu. split; [reflexivity|]. nia.
Qed.

Lemma permute_0213_spec t a b c d :
  shape t = [a; b; c; d] ->
  exists y,
    permute [0; 2; 1; 3]%nat t = Ok y /\ shape y = [a; c; b; d] /\ well_formed y /\
    forall i j k l,
      (i < a)%nat -> (j < c)%nat -> (k < b)%nat -> (l < d)%nat ->
      get y (ravel [a; c; b; d] [i; j; k; l])
      = get t (ravel [a; b; c; d] [i; k; j; l]).
Proof.
  intros Hs. unfold permute, rank. rewrite Hs.
  change (is_permutation [0; 2; 1; 3]%nat (length [a; b; c; d])) with true.
  cbv iota. cbn [map nth].
  eexists. split; [reflexivity|]. split; [reflexivity|]. split.
  - unfold well_formed. cbn [data shape]. apply length_tab.
  - intros i j k l Hi Hj Hk Hl.
    destruct (@unravel_ravel [a; c; b; d] [i; j; k; l] eq_refl) as (Hu & Hr).
    { intros x Hx. cbn [length] in Hx.
      destruct x as [|[|[|[|x]]]]; cbn [nth]; lia. }
    rewrite get_tab by exact Hr. rewrite Hu.
    f_equal. simpl. lia.
Qed.

Lemma split_then_merge h t b n d :
  h <> 0%nat -> shape t = [b; n; (h * d)%nat] -> well_formed t ->
  exists y, split_heads h t = Ok y /\ merge_heads h y = Ok t.
Proof.
  intros Hh Hs Hw.
  (* splitting *)
  unfold split_heads. rewrite Hs.
  destruct (Nat.eqb_spec h 0) as [E|_]; [contradiction|].
  rewrite (Nat.mul_comm h d), Nat.Div0.mod_mul, Nat.div_mul by exact Hh.
  cbn [Nat.eqb negb orb].
  rewrite reshape_Ok by (rewrite Hs, numel4, numel3; lia).
  cbn [rbind].
  destruct (@permute_0213_spec (mkTensor [b; n; h; d] (data t)) b n h d eq_refl)
    as (y1 & Hy1 & Hy1s & Hy1w & Hy1g).
  rewrite Hy1. cbn [rbind].
  rewrite reshape_Ok by (rewrite Hy1s, numel4, numel3; lia).
  eexists. split; [reflexivity|].
  (* merging *)
  unfold merge_heads. cbn [shape].
  destruct (Nat.eqb_spec h 0) as [E|_]; [contradiction|].
  rewrite Nat.Div0.mod_mul, Nat.div_mul by exact Hh.
  cbn [Nat.eqb negb orb].
  rewrite reshape_Ok by (cbn [shape]; rewrite numel4, numel3; lia).
  cbn [rbind data].
  destruct (@permute_0213_spec (mkTensor [b; h; n; d] (data y1)) b h n d eq_refl)
    as (y2 & Hy2 & Hy2s & Hy2w & Hy2g).
  rewrite Hy2. cbn [rbind].
  rewrite reshape_Ok by (rewrite Hy2s, numel4, numel3; lia).
  assert (Hdata : data y2 = data t).
  { rewrite <- (tab_get Hy2w), <- (tab_get Hw), Hy2s, Hs.
    replace (numel [b; n; (h * d)%nat]) with (numel [b; n; h; d])
      by (rewrite numel4, numel3; lia).
    unfold tab. apply map_ext_in. intros p Hp. apply in_seq in Hp.
    assert (Hp' : (p < numel [b; n; h; d])%nat) by lia.
    pose proof (ravel_unravel [b; n; h; d] Hp') as Hrav.
    pose proof (@unravel_lt [b; n; h; d] p 0 Hp' ltac:(simpl; lia)) as H0.
    pose proof (@unravel_lt [b; n; h; d] p 1 Hp' ltac:(simpl; lia)) as H1.
    pose proof (@unravel_lt [b; n; h; d] p 2 Hp' ltac:(simpl; lia)) as H2.
    pose proof (@unravel_lt [b; n; h; d] p 3 Hp' ltac:(simpl; lia)) as H3.
    cbn [unravel] in Hrav, H0, H1, H2, H3. cbn [nth] in H0, H1, H2, H3.
    rewrite <- Hrav at 1.
    rewrite (Hy2g _ _ _ _ H0 H1 H2 H3).
    change (get (mkTensor [b; h; n; d] (data y1))) with (get y1).
    rewrite (Hy1g _ _ _ _ H0 H2 H1 H3).
    change (get (mkTensor [b; n; h; d] (data t))) with (get t).
    rewrite Hrav. reflexivity. }
  rewrite Hdata. f_equal.
  destruct t as [s dt]. cbn [shape data] in *. rewrite Hs.
  reflexivity.
Qed.

(** X21.  Splitting a projection into heads and merging the heads again
    gives the projection back: for at least one head and a well-formed
    tensor of shape [(b, n, h * d)], the rearrangement
    ["b n (h d) -> (b h) n d"] followed by ["(b h) n d -> b n (h d)"] is
    the identity. *)
Theorem merge_heads_inverts_split_heads :
  forall h t b n d,
    h <> 0%nat -> shape t = [b; n; (h * d)%nat] -> well_formed t ->
    exists y,
      split_heads h t = Ok y /\
      shape y = [(b * h)%nat; n; d] /\
      merge_heads h y = Ok t.
Proof.
  intros h t b n d Hh Hs Hw.
  destruct (@split_then_merge h t b n d Hh Hs Hw) as (y & Hy & Hm).
  destruct (@split_heads_shape h t b n d Hh Hs) as (y' & Hy' & Hys & _).
  exists y. split; [exact Hy|]. split; [congruence|exact Hm].
Qed.

Lemma merge_heads_inverts_split_heads_witness :
  exists y,
    split_heads 2 (mkTensor [1; 2; 4]%nat [1; 2; 3; 4; 5; 6; 7; 8]) = Ok y /\
    shape y = [2; 2; 2]%nat /\
    merge_heads 2 y = Ok (mkTensor [1; 2; 4]%nat [1; 2; 3; 4; 5; 6; 7; 8]).
Proof.
  apply (@merge_heads_inverts_split_heads 2
           (mkTensor [1; 2; 4]%nat [1; 2; 3; 4; 5; 6; 7; 8]) 1 2 2).
  - discriminate.
  - reflexivity.
  - reflexivity.
Defined.

(** ** The two views of the masked softmax

    On finite values the mask step with special values is the mask step
    over the reals, and so is the softmax wherever [exp] does not
    saturate: subtracting the maximum of the row changes nothing in exact
    arithmetic. *)

Lemma masked_fill_not_to_float sim mk v :
  masked_fill_not_f (to_float sim) mk (Finite v)
  = match masked_fill_not sim mk v with
    | Ok t => Ok (to_float t)
    | Raise e => Raise e
    end.
Proof.
  unfold masked_fill_not_f, masked_fill_not.
  change (fshape (to_float sim)) with (shape sim).
  destruct (shape sim) as [|b [|i [|j [|? ?]]]]; try reflexivity.
  destruct (mshape mk) as [|mb [|mi [|mj [|? ?]]]]; try reflexivity.
  destruct (((mb =? b) || (mb =? 1)) && ((mi =? i) || (mi =? 1))
            && ((mj =? j) || (mj =? 1))); [|reflexivity].
  unfold to_float at 2. cbn [shape data]. do 2 f_equal.
  unfold tab. rewrite map_map. apply map_ext. intros p.
  rewrite fget_to_float.
  destruct (negb _); reflexivity.
Qed.

Lemma CrossAttention_masked_sim_views L m sim mask :
  CrossAttention_masked_sim_f L m sim mask
  = match CrossAttention_masked_sim L m sim mask with
    | Ok t => Ok (to_float t)
    | Raise e => Raise e
    end.
Proof.
  unfold CrossAttention_masked_sim_f, CrossAttention_masked_sim_with,
    CrossAttention_masked_sim.
  destruct mask as [mk|]; [|reflexivity].
  destruct (flatten_mask mk) as [mk1|e]; [|reflexivity]. cbn [rbind].
  destruct (repeat_mask (heads m) mk1) as [mk2|e]; [|reflexivity]. cbn [rbind].
  apply masked_fill_not_to_float.
Qed.

Lemma fmax_row_of_finite (l : list R) :
  l <> [] ->
  exists mx,
    fold_right fmax NegInf (map Finite l) = Finite mx /\
    In mx l /\ forall x, In x l -> x <= mx.
Proof.
  induction l as [|a l IH]; [congruence|]. intros _.
  destruct l as [|b l'].
  - exists a. split; [reflexivity|]. split; [left; reflexivity|].
    intros x [<-|[]]. lra.
  - destruct IH as (mx & Hf & Hin & Hle); [discriminate|].
    exists (Rmax a mx). split; [|split].
    + change (map Finite (a :: b :: l')) with (Finite a :: map Finite (b :: l')).
      cbn [fold_right]. rewrite Hf. reflexivity.
    + unfold Rmax. destruct (Rle_dec a mx); [right; exact Hin|left; reflexivity].
    + intros x [<-|Hx]; [apply Rmax_l|].
      eapply Rle_trans; [apply Hle, Hx|apply Rmax_r].
Qed.

Lemma fsum_map_finite (l : list R) : fsum (map Finite l) = Finite (Rsum l).
Proof.
  unfold fsum, Rsum. induction l as [|a l IH]; [reflexivity|].
  cbn [map fold_right]. rewrite IH. reflexivity.
Qed.

Lemma Rsum_map_exp_pos (l : list R) (f : R -> R) :
  l <> [] -> 0 < Rsum (map (fun x => exp (f x)) l).
Proof.
  induction l as [|a l IH]; [congruence|]. intros _.
  cbn [map]. unfold Rsum. cbn [fold_right].
  fold (Rsum (map (fun x => exp (f x)) l)).
  pose proof (exp_pos (f a)).
  destruct l as [|b l']; [unfold Rsum; simpl; lra|].
  assert (0 < Rsum (map (fun x => exp (f x)) (b :: l'))) by (apply IH; discriminate).
  lra.
Qed.

(** A row of finite values whose spread stays below the underflow
    threshold: the softmax with special values is the softmax over the
    reals. *)
Lemma softmax_last_views E t B I J bh i :
  0 < exp_overflow E -> 0 < exp_underflow E ->
  shape t = [B; I; J] ->
  (bh < B)%nat -> (i < I)%nat ->
  (forall j j', (j < J)%nat -> (j' < J)%nat ->
     get t (ravel [B; I; J] [bh; i; j]) - get t (ravel [B; I; J] [bh; i; j'])
     >= - exp_underflow E) ->
  forall j, (j < J)%nat ->
    fget (softmax_last_f E (to_float t)) (ravel [B; I; J] [bh; i; j])
    = Finite (get (softmax_last t) (ravel [B; I; J] [bh; i; j])).
Proof.
  intros Ho Hu Hs Hbh Hi Hspread j Hj.
  destruct (@softmax_last_f_row E (to_float t) B I J Hs) as (_ & Hf).
  destruct (@softmax_last_row t B I J Hs) as (_ & Hr).
  rewrite (Hf bh i j Hbh Hi Hj), (Hr bh i j Hbh Hi Hj).
  set (f := fun j' => get t (ravel [B; I; J] [bh; i; j'])).
  assert (Hrow : tab J (fun j' => fget (to_float t) (ravel [B; I; J] [bh; i; j']))
                 = map Finite (tab J f)).
  { unfold tab. rewrite map_map. apply map_ext. intros a.
    apply fget_to_float. }
  rewrite Hrow, fget_to_float. fold (f j).
  assert (Hne : tab J f <> []).
  { destruct J; [lia|]. unfold tab. simpl. discriminate. }
  destruct (fmax_row_of_finite Hne) as (mx & Hmx & Hin & Hle).
  rewrite Hmx.
  apply in_map_iff in Hin. destruct Hin as (j0 & Hj0 & Hin0).
  apply in_seq in Hin0.
  assert (Hexp : forall x, In x (tab J f) ->
                 fexp E (fsub (Finite x) (Finite mx)) = Finite (exp (x - mx))).
  { intros x Hx. pose proof (Hle x Hx) as Hxm.
    apply in_map_iff in Hx. destruct Hx as (j1 & Hj1 & Hin1).
    apply in_seq in Hin1.
    pose proof (Hspread j1 j0 ltac:(lia) ltac:(lia)) as Hsp.
    fold (f j1) in Hsp. fold (f j0) in Hsp. rewrite Hj1, Hj0 in Hsp.
    cbn [fsub]. unfold fexp.
    destruct (Rlt_dec (exp_overflow E) (x - mx)); [lra|].
    destruct (Rlt_dec (x - mx) (- exp_underflow E)); [lra|].
    reflexivity. }
  assert (Hfj : In (f j) (tab J f)).
  { apply in_map_iff. exists j. split; [reflexivity|]. apply in_seq. lia. }
  rewrite (Hexp (f j) Hfj).
  rewrite map_map.
  rewrite (map_ext_in _ (fun x => Finite (exp (x - mx))) _ Hexp).
  rewrite <- (map_map (fun x => exp (x - mx)) Finite), fsum_map_finite.
  pose proof (@Rsum_map_exp_pos (tab J f) (fun x => x - mx) Hne) as Hpos.
  unfold fdiv.
  destruct (Req_dec_T (Rsum (map (fun x => exp (x - mx)) (tab J f))) 0)
    as [E0|_]; [lra|].
  f_equal.
  assert (Hsum : Rsum (map (fun x => exp (x - mx)) (tab J f))
                 = Rsum (tab J (fun j' => exp (f j'))) * exp (- mx)).
  { unfold tab. rewrite map_map, <- Rsum_map_scale.
    apply Rsum_map_ext_in. intros a _.
    unfold Rminus. apply exp_plus. }
  rewrite Hsum. unfold Rminus. rewrite exp_plus.
  pose proof (exp_pos (- mx)) as Hem.
  pose proof (@Rsum_exp_pos J f ltac:(lia)) as Hden.
  change (Rsum (tab J (fun j' => exp (get t (ravel [B; I; J] [bh; i; j'])))))
    with (Rsum (tab J (fun j' => exp (f j')))).
  field. split; lra.
Qed.

(** The attention weights in the two views come from the same masked
    similarity. *)
Lemma CrossAttention_attn_views L E m x context mask attn v :
  CrossAttention_attn L m x context mask = Ok (attn, v) ->
  exists sim',
    attn = softmax_last sim' /\
    CrossAttention_attn_f L E m x context mask
    = Ok (softmax_last_f E (to_float sim')).
Proof.
  intros H. unfold CrossAttention_attn in H.
  apply rbind_inv in H. destruct H as (qkv & Hqkv & H).
  apply rbind_inv in H. destruct H as (sim0 & Hsim0 & H).
  apply rbind_inv in H. destruct H as (sim' & Hmask & H).
  apply Ok_inj in H. injection H as Hattn _.
  exists sim'. split; [symmetry; exact Hattn|].
  unfold CrossAttention_attn_f, CrossAttention_sim.
  rewrite Hqkv. cbn [rbind]. rewrite Hsim0. cbn [rbind].
  rewrite CrossAttention_masked_sim_views, Hmask. reflexivity.
Qed.
